(** * PDF outline extractor: heading classification pipeline

    A shallow embedding of [app.py] (class [PDFOutlineExtractor]) and of
    [simple_extractor.py] (function [extract_pdf_outline]).

    Conventions of the embedding.

    - A Python [str] is a [string]; its characters are read as the code
      points U+0000 .. U+00FF, so [len] is [String.length] and the
      character classes below are Python's, restricted to that range.
    - A font size is a finite Python [float], represented by the rational
      number it denotes ([Qc]); [==] on such floats is equality of the
      denoted numbers, and [<] is their order.
    - A dict with string keys is a [gmap string _], a [set] is a [gset].
    - The PyMuPDF document is data: what [fitz.open] and
      [page.get_text("dict")] hand to the extraction loop, or [None] when
      one of them raises. *)

From Stdlib Require Import Ascii String QArith Qcanon.
From stdpp Require Import base option list sorting numbers strings gmap.

#[local] Set Warnings "-clear-no-such-hyp".

Local Open Scope Z_scope.

(** ** Python's [str] primitives *)

Module Py.

Definition ord (c : ascii) : N := N_of_ascii c.

Definition in_range (lo hi : N) (c : ascii) : bool :=
  ((lo <=? ord c) && (ord c <=? hi))%N.

(** [\d] of [re] on [str] patterns. *)
Definition is_digit (c : ascii) : bool := in_range 48 57 c.

(** [str.isspace] for one character, which is also [\s] of [re]. *)
Definition is_space (c : ascii) : bool :=
  in_range 9 13 c || in_range 28 32 c || in_range 133 133 c
  || in_range 160 160 c.

(** Upper-case and lower-case letters ([str.isupper], [str.islower] for
    one character). *)
Definition is_upper (c : ascii) : bool :=
  in_range 65 90 c || in_range 192 214 c || in_range 216 222 c.

Definition is_lower (c : ascii) : bool :=
  in_range 97 122 c || in_range 170 170 c || in_range 181 181 c
  || in_range 186 186 c || in_range 223 246 c || in_range 248 255 c.

(** [\w] of [re]: alphanumeric characters and the underscore. *)
Definition is_word (c : ascii) : bool :=
  is_digit c || is_upper c || is_lower c || in_range 95 95 c
  || in_range 178 179 c || in_range 185 185 c || in_range 188 190 c.

(** Lower-casing of one character, as [re.IGNORECASE] compares them. *)
Definition to_lower (c : ascii) : ascii :=
  if is_upper c then ascii_of_N (ord c + 32) else c.

Definition len (s : string) : Z := Z.of_nat (String.length s).

(** [s.lstrip()], [s.rstrip()] and [s.strip()] without argument. *)
Fixpoint lstrip (s : string) : string :=
  match s with
  | String c s' => if is_space c then lstrip s' else s
  | EmptyString => EmptyString
  end.

Fixpoint rstrip (s : string) : string :=
  match s with
  | String c s' =>
      match rstrip s' with
      | EmptyString => if is_space c then EmptyString else String c EmptyString
      | r => String c r
      end
  | EmptyString => EmptyString
  end.

Definition strip (s : string) : string := rstrip (lstrip s).

(** The last character of a string, if any. *)
Fixpoint last_char (s : string) : option ascii :=
  match s with
  | EmptyString => None
  | String c EmptyString => Some c
  | String _ s' => last_char s'
  end.

(** [s.endswith(e)] for a one-character [e]. *)
Definition endswith (s : string) (e : ascii) : bool :=
  match last_char s with
  | Some c => Ascii.eqb c e
  | None => false
  end.

(** [s.isupper()]: no lower-case character and at least one upper-case
    one. *)
Fixpoint isupper_from (cased : bool) (s : string) : bool :=
  match s with
  | EmptyString => cased
  | String c s' =>
      if is_lower c then false
      else isupper_from (cased || is_upper c) s'
  end.

Definition isupper (s : string) : bool := isupper_from false s.

(** [s.istitle()]: an upper-case character never follows a cased one, a
    lower-case character always does, and there is a cased character. *)
Fixpoint istitle_from (previous_is_cased cased : bool) (s : string) : bool :=
  match s with
  | EmptyString => cased
  | String c s' =>
      if is_upper c then
        if previous_is_cased then false else istitle_from true true s'
      else if is_lower c then
        if previous_is_cased then istitle_from true true s' else false
      else istitle_from false cased s'
  end.

Definition istitle (s : string) : bool := istitle_from false false s.

(** [s.rfind(c)] as the part of [s] after the last [c], when there is
    one. *)
Fixpoint after_last (c : ascii) (s : string) : option string :=
  match s with
  | EmptyString => None
  | String a s' =>
      match after_last c s' with
      | Some t => Some t
      | None => if Ascii.eqb a c then Some s' else None
      end
  end.

(** [os.path.basename] of [posixpath]: what follows the last slash. *)
Definition basename (p : string) : string :=
  default p (after_last "/" p).

(** The part of [s] before its last [c], when there is one. *)
Fixpoint before_last (c : ascii) (s : string) : option string :=
  match s with
  | EmptyString => None
  | String a s' =>
      match before_last c s' with
      | Some t => Some (String a t)
      | None => if Ascii.eqb a c then Some EmptyString else None
      end
  end.

Fixpoint all_dots (s : string) : bool :=
  match s with
  | EmptyString => true
  | String a s' => Ascii.eqb a "." && all_dots s'
  end.

(** [os.path.splitext(p)[0]] of [posixpath]: the last dot of the last
    path component starts the extension, unless only dots precede it in
    that component. *)
Definition splitext_root (p : string) : string :=
  let name := basename p in
  match before_last "." name with
  | Some stem =>
      if all_dots stem then p
      else String.substring 0 (String.length p - String.length name
                                + String.length stem)%nat p
  | None => p
  end.

End Py.


(** ** The fragment of [re] the gates use *)

Module Re.

(** One-character items: a literal, [\d], [\s] or [\w]. *)
Inductive atom : Type :=
| Lit (c : ascii)
| ClsD
| ClsS
| ClsW.

(** Patterns.  [Caret] is [^], [Dollar] is [$], [Set_ items] is a
    bracketed class; [Nil] matches nothing and only arises while
    matching. *)
Inductive regex : Type :=
| Nil
| Eps
| Caret
| Dollar
| Atom (a : atom)
| Set_ (items : list atom)
| Seq (r1 r2 : regex)
| Alt (r1 r2 : regex)
| Star (r : regex).

(** [r+] and [r?]. *)
Definition Plus (r : regex) : regex := Seq r (Star r).
Definition Opt (r : regex) : regex := Alt r Eps.

(** A literal word, character after character. *)
Fixpoint Str (s : string) : regex :=
  match s with
  | EmptyString => Eps
  | String c s' => Seq (Atom (Lit c)) (Str s')
  end.

(** A sequence of patterns, one after the other. *)
Definition Cat (rs : list regex) : regex := foldr Seq Eps rs.

(** Does item [a] accept character [c]?  [ic] is [re.IGNORECASE]. *)
Definition atom_matches (ic : bool) (a : atom) (c : ascii) : bool :=
  match a with
  | Lit x =>
      if ic then Ascii.eqb (Py.to_lower x) (Py.to_lower c)
      else Ascii.eqb x c
  | ClsD => Py.is_digit c
  | ClsS => Py.is_space c
  | ClsW => Py.is_word c
  end.

Definition is_newline_or_end (rest : string) : bool :=
  match rest with
  | EmptyString => true
  | String c EmptyString => Ascii.eqb c "010"
  | _ => false
  end.

(** Can [r] match the empty string here?  [bol] says the position is the
    start of the text, [rest] is the text from the position on: without
    [re.MULTILINE], [^] holds at the start only and [$] at the end or
    before a final newline. *)
Fixpoint nullable (bol : bool) (rest : string) (r : regex) : bool :=
  match r with
  | Nil => false
  | Eps => true
  | Caret => bol
  | Dollar => is_newline_or_end rest
  | Atom _ => false
  | Set_ _ => false
  | Seq r1 r2 => nullable bol rest r1 && nullable bol rest r2
  | Alt r1 r2 => nullable bol rest r1 || nullable bol rest r2
  | Star _ => true
  end.

(** What is left of [r] after it has read [c], the first character of
    [rest]. *)
Fixpoint deriv (ic bol : bool) (rest : string) (c : ascii) (r : regex)
  : regex :=
  match r with
  | Nil | Eps | Caret | Dollar => Nil
  | Atom a => if atom_matches ic a c then Eps else Nil
  | Set_ items =>
      if existsb (fun a => atom_matches ic a c) items then Eps else Nil
  | Seq r1 r2 =>
      let d1 := Seq (deriv ic bol rest c r1) r2 in
      if nullable bol rest r1 then Alt d1 (deriv ic bol rest c r2) else d1
  | Alt r1 r2 => Alt (deriv ic bol rest c r1) (deriv ic bol rest c r2)
  | Star r1 => Seq (deriv ic bol rest c r1) (Star r1)
  end.

Fixpoint match_from (ic bol : bool) (r : regex) (s : string) : bool :=
  nullable bol s r
  || match s with
     | EmptyString => false
     | String c s' => match_from ic false (deriv ic bol s c r) s'
     end.

(** [re.match(pattern, text, flags) is not None]: some prefix of [text]
    matches [pattern]. *)
Definition match_ (pattern : regex) (text : string) (ignorecase : bool)
  : bool :=
  match_from ignorecase true pattern text.

(** Patterns on which [re.IGNORECASE] has no effect: every item accepts
    the same characters with and without the flag. *)
Definition atom_caseless (a : atom) : Prop :=
  ∀ c, atom_matches true a c = atom_matches false a c.

Fixpoint caseless (r : regex) : Prop :=
  match r with
  | Nil | Eps | Caret | Dollar => True
  | Atom a => atom_caseless a
  | Set_ items => Forall atom_caseless items
  | Seq r1 r2 | Alt r1 r2 => caseless r1 ∧ caseless r2
  | Star r1 => caseless r1
  end.

End Re.


(** ** What PyMuPDF hands over *)

Module Fitz.

(** A span of [page.get_text("dict")]: keys [text], [size], [font],
    [flags], [bbox]. *)
Record Span : Type := mkSpan {
  span_text : string;
  span_size : Qc;
  span_font : string;
  span_flags : Z;
  span_bbox : Qc * Qc * Qc * Qc
}.

(** A block has a [type] (0 for text) and [lines]; a line has [spans]. *)
Record Block : Type := mkBlock {
  block_type : Z;
  block_lines : list (list Span)
}.

(** One page is the list of its blocks.  A document is the list of its
    pages, or [None] when opening or reading it raises. *)
Definition Page : Type := list Block.
Definition Document : Type := option (list Page).

End Fitz.

(** ** The result *)

Module Out.

Record Heading : Type := mkHeading {
  level : string;
  text : string;
  page : Z
}.

Record OutlineResult : Type := mkResult {
  title : string;
  outline : list Heading
}.

Global Instance heading_eq_dec : EqDecision Heading.
Proof. solve_decision. Defined.

(** The tuple [(heading["level"], heading["text"], heading["page"])]. *)
Definition key (h : Heading) : string * string * Z :=
  (level h, text h, page h).

End Out.

(** ** Code that the two files share

    [app.py] and [simple_extractor.py] contain the following pieces word
    for word: the descending sort of the distinct sizes and the four
    guarded assignments (app.py l.94-104, simple_extractor.py l.64-75),
    the [if]/[elif] chain choosing the level (l.171-177, l.100-106) and
    the removal of duplicates (l.208-214, l.116-122).  The ranking by
    frequency exists in [app.py] only (l.84-91). *)

(** [sorted(s, reverse=True)] on a set of floats.  The members of a set
    are pairwise different, so the descending arrangement is unique and
    any sorting algorithm produces it. *)
Definition sorted_reverse (s : gset Qc) : list Qc :=
  merge_sort (flip Qcle) (elements s).

(** The comparison of the sort keys [(-font_size_counts[x], -x)]: tuples
    compare lexicographically. *)
Definition freq_key (counts : gmap Qc Z) (x : Qc) : Z * Qc :=
  (- default 0 (counts !! x), (- x)%Qc).

Definition key_le (a b : Z * Qc) : Prop :=
  a.1 < b.1 ∨ (a.1 = b.1 ∧ (a.2 ≤ b.2)%Qc).

Global Instance key_le_dec : RelDecision key_le.
Proof. intros a b. unfold key_le. apply _. Defined.

(** [sorted(counts.keys(), key=lambda x: (-counts[x], -x))]; the keys are
    pairwise different, hence so are their sort keys. *)
Definition sorted_by_frequency (counts : gmap Qc Z) : list Qc :=
  merge_sort (λ x y, key_le (freq_key counts x) (freq_key counts y))
             (elements (dom counts)).

(** The four guarded assignments [hierarchy[tier] = unique_sizes[i]]:
    [len(unique_sizes) >= i + 1] holds exactly when index [i] exists. *)
Definition assign_tier (tier : string) (i : nat) (unique_sizes : list Qc)
  (hierarchy : gmap string Qc) : gmap string Qc :=
  match unique_sizes !! i with
  | Some size => <[tier := size]> hierarchy
  | None => hierarchy
  end.

Definition assign_tiers (unique_sizes : list Qc) : gmap string Qc :=
  let hierarchy := ∅ in
  let hierarchy := assign_tier "title" 0 unique_sizes hierarchy in
  let hierarchy := assign_tier "H1" 1 unique_sizes hierarchy in
  let hierarchy := assign_tier "H2" 2 unique_sizes hierarchy in
  let hierarchy := assign_tier "H3" 3 unique_sizes hierarchy in
  hierarchy.

(** The level chosen by the [if]/[elif] chain on
    [font_size == font_hierarchy.get(tier)]; [None] stays when no tier
    has that size. *)
Definition heading_level (font_size : Qc) (font_hierarchy : gmap string Qc)
  : option string :=
  if bool_decide (font_hierarchy !! "H1" = Some font_size) then Some "H1"
  else if bool_decide (font_hierarchy !! "H2" = Some font_size) then Some "H2"
  else if bool_decide (font_hierarchy !! "H3" = Some font_size) then Some "H3"
  else None.

(** The loop that removes duplicates: [seen] is the set of keys met so
    far, [unique_headings] the list built so far. *)
Fixpoint unique_loop (headings : list Out.Heading)
  (seen : gset (string * string * Z)) (unique_headings : list Out.Heading)
  : list Out.Heading :=
  match headings with
  | [] => unique_headings
  | heading :: rest =>
      let key := Out.key heading in
      if bool_decide (key ∉ seen)
      then unique_loop rest ({[key]} ∪ seen) (unique_headings ++ [heading])
      else unique_loop rest seen unique_headings
  end.

Definition remove_duplicates (headings : list Out.Heading)
  : list Out.Heading :=
  unique_loop headings ∅ [].

(** ** [app.py]: class [PDFOutlineExtractor] *)

Module App.
Import Re.

(** The fields set by [__init__]. *)
Record PDFOutlineExtractor : Type := mkExtractor {
  min_font_size : Z;
  max_font_size : Z;
  min_heading_length : Z;
  max_heading_length : Z
}.

Definition init : PDFOutlineExtractor :=
  {| min_font_size := 8; max_font_size := 72;
     min_heading_length := 3; max_heading_length := 200 |}.

(** [self] after [self.min_font_size = lo; self.max_font_size = hi]. *)
Definition set_font_size_limits (self : PDFOutlineExtractor) (lo hi : Z)
  : PDFOutlineExtractor :=
  {| min_font_size := lo; max_font_size := hi;
     min_heading_length := min_heading_length self;
     max_heading_length := max_heading_length self |}.

(** One entry of [text_blocks]. *)
Record TextBlock : Type := mkTextBlock {
  text : string;
  font_size : Qc;
  font_name : string;
  flags : Z;
  page : Z;
  bbox : Qc * Qc * Qc * Qc
}.

(** The body of the loop over the spans of one line. *)
Definition block_of_span (self : PDFOutlineExtractor) (page_num : nat)
  (span : Fitz.Span) : list TextBlock :=
  let text := Py.strip (Fitz.span_text span) in
  if negb (String.eqb text "") && (min_heading_length self <=? Py.len text)
  then [ {| text := text;
            font_size := Fitz.span_size span;
            font_name := Fitz.span_font span;
            flags := Fitz.span_flags span;
            page := Z.of_nat page_num + 1;
            bbox := Fitz.span_bbox span |} ]
  else [].

Definition blocks_of_page (self : PDFOutlineExtractor) (page_num : nat)
  (blocks : Fitz.Page) : list TextBlock :=
  block ← blocks;
  if Fitz.block_type block =? 0
  then line ← Fitz.block_lines block;
       span ← line;
       block_of_span self page_num span
  else [].

(** [extract_text_blocks]: the [except] branch returns the empty list. *)
Definition extract_text_blocks (self : PDFOutlineExtractor)
  (doc : Fitz.Document) : list TextBlock :=
  match doc with
  | Some pages => mjoin (imap (blocks_of_page self) pages)
  | None => []
  end.

(** [font_size_counts[size] += 1] on a [defaultdict(int)]. *)
Definition count_size (counts : gmap Qc Z) (size : Qc) : gmap Qc Z :=
  <[size := default 0 (counts !! size) + 1]> counts.

Definition analyze_font_hierarchy (self : PDFOutlineExtractor)
  (text_blocks : list TextBlock) : gmap string Qc :=
  let font_sizes := font_size <$> text_blocks in
  let font_size_counts := foldl count_size ∅ font_sizes in
  let sorted_sizes := sorted_by_frequency font_size_counts in
  let unique_sizes := sorted_reverse (list_to_set font_sizes) in
  assign_tiers unique_sizes.

Definition non_heading_patterns : list regex :=
  [ Cat [Caret; Plus (Atom ClsD); Atom (Lit "."); Plus (Atom ClsD)];
    Cat [Caret; Str "Page "; Plus (Atom ClsD)];
    Cat [Caret; Str "Figure "; Plus (Atom ClsD)];
    Cat [Caret; Str "Table "; Plus (Atom ClsD)];
    Cat [Caret; Str "www"; Atom (Lit ".")];
    Cat [Caret; Str "http"; Opt (Atom (Lit "s")); Str "://"];
    Cat [Caret; Plus (Atom ClsW); Atom (Lit "@"); Plus (Atom ClsW)] ].

(** [^[\d\s\.\-\(\)]+$] *)
Definition numbers_only : regex :=
  Cat [Caret;
       Plus (Set_ [ClsD; ClsS; Lit "."; Lit "-"; Lit "("; Lit ")"]);
       Dollar].

Definition heading_endings : list ascii := ["."; ":"; "?"; "!"]%char.

Definition is_potential_heading (self : PDFOutlineExtractor)
  (text : string) (font_size : Qc) (flags : Z) : bool :=
  if (Py.len text <? min_heading_length self)
     || (max_heading_length self <? Py.len text) then false
  else if match_ numbers_only text false then false
  else if existsb (λ pattern, match_ pattern text true)
                  non_heading_patterns then false
  else if negb (existsb (λ ending, Py.endswith text ending)
                        heading_endings)
          && (negb (Py.isupper text) && negb (Py.istitle text)) then false
  else true.

(** The loop of [extract_title]. *)
Fixpoint first_title (self : PDFOutlineExtractor) (title_size : Qc)
  (text_blocks : list TextBlock) : string :=
  match text_blocks with
  | [] => ""
  | block :: rest =>
      if bool_decide (font_size block = title_size)
         && (page block =? 1)
         && is_potential_heading self (text block) (font_size block)
                                 (flags block)
      then text block
      else first_title self title_size rest
  end.

Definition extract_title (self : PDFOutlineExtractor)
  (text_blocks : list TextBlock) (font_hierarchy : gmap string Qc)
  : string :=
  match text_blocks, font_hierarchy !! "title" with
  | [], _ => ""
  | _, None => ""
  | _, Some title_size => first_title self title_size text_blocks
  end.

(** The loop of [extract_headings]; [headings] is the list built so
    far. *)
Fixpoint headings_loop (self : PDFOutlineExtractor)
  (font_hierarchy : gmap string Qc) (text_blocks : list TextBlock)
  (headings : list Out.Heading) : list Out.Heading :=
  match text_blocks with
  | [] => headings
  | block :: rest =>
      let font_size := font_size block in
      let text := text block in
      if negb (is_potential_heading self text font_size (flags block))
      then headings_loop self font_hierarchy rest headings
      else
        match heading_level font_size font_hierarchy with
        | Some level =>
            headings_loop self font_hierarchy rest
              (headings ++ [ {| Out.level := level; Out.text := text;
                                Out.page := page block |} ])
        | None => headings_loop self font_hierarchy rest headings
        end
  end.

Definition extract_headings (self : PDFOutlineExtractor)
  (text_blocks : list TextBlock) (font_hierarchy : gmap string Qc)
  : list Out.Heading :=
  headings_loop self font_hierarchy text_blocks [].

(** [extract_outline], where [doc] is what [fitz.open(pdf_path)] gives.
    Nothing between the two [return]s of the [try] block can raise on
    these data, so its [except] branch is the one of
    [extract_text_blocks]. *)
Definition extract_outline (self : PDFOutlineExtractor)
  (doc : Fitz.Document) (pdf_path : string) : Out.OutlineResult :=
  let text_blocks := extract_text_blocks self doc in
  match text_blocks with
  | [] => {| Out.title := ""; Out.outline := [] |}
  | _ =>
      let font_hierarchy := analyze_font_hierarchy self text_blocks in
      let title := extract_title self text_blocks font_hierarchy in
      let headings := extract_headings self text_blocks font_hierarchy in
      let unique_headings := remove_duplicates headings in
      {| Out.title :=
           if negb (String.eqb title "") then title
           else Py.splitext_root (Py.basename pdf_path);
         Out.outline := unique_headings |}
  end.

End App.

(** ** [simple_extractor.py]: function [extract_pdf_outline] *)

Module Simple.
Import Re.

(** One entry of [text_blocks]. *)
Record TextBlock : Type := mkTextBlock {
  text : string;
  font_size : Qc;
  page : Z;
  flags : Z
}.

Definition non_heading_patterns : list regex :=
  [ Cat [Caret; Plus (Atom ClsD); Atom (Lit "."); Plus (Atom ClsD)];
    Cat [Caret; Str "Page "; Plus (Atom ClsD)];
    Cat [Caret; Str "Figure "; Plus (Atom ClsD)];
    Cat [Caret; Str "Table "; Plus (Atom ClsD)];
    Cat [Caret; Str "www"; Atom (Lit ".")];
    Cat [Caret; Str "http"; Opt (Atom (Lit "s")); Str "://"];
    Cat [Caret; Plus (Atom ClsW); Atom (Lit "@"); Plus (Atom ClsW)];
    Cat [Caret;
         Plus (Set_ [ClsD; ClsS; Lit "."; Lit "-"; Lit "("; Lit ")"]);
         Dollar] ].

Definition is_valid_heading (text : string) : bool :=
  if (Py.len text <? 3) || (200 <? Py.len text) then false
  else if existsb (λ pattern, match_ pattern text true)
                  non_heading_patterns then false
  else true.

(** The body of the loop over the spans of one line. *)
Definition block_of_span (page_num : nat) (span : Fitz.Span)
  : list TextBlock :=
  let text := Py.strip (Fitz.span_text span) in
  if negb (String.eqb text "") && (3 <=? Py.len text)
  then [ {| text := text;
            font_size := Fitz.span_size span;
            page := Z.of_nat page_num + 1;
            flags := Fitz.span_flags span |} ]
  else [].

Definition blocks_of_page (page_num : nat) (blocks : Fitz.Page)
  : list TextBlock :=
  block ← blocks;
  if Fitz.block_type block =? 0
  then line ← Fitz.block_lines block;
       span ← line;
       block_of_span page_num span
  else [].

(** Step 3: the loop that looks for the title; it leaves [title] empty
    when no block qualifies. *)
Fixpoint first_title (title_size : Qc) (text_blocks : list TextBlock)
  : string :=
  match text_blocks with
  | [] => ""
  | block :: rest =>
      if bool_decide (font_size block = title_size)
         && (page block =? 1)
         && is_valid_heading (text block)
      then text block
      else first_title title_size rest
  end.

(** Step 4: the loop that collects the headings. *)
Fixpoint headings_loop (font_hierarchy : gmap string Qc)
  (text_blocks : list TextBlock) (headings : list Out.Heading)
  : list Out.Heading :=
  match text_blocks with
  | [] => headings
  | block :: rest =>
      let font_size := font_size block in
      let text := text block in
      if negb (is_valid_heading text)
      then headings_loop font_hierarchy rest headings
      else
        match heading_level font_size font_hierarchy with
        | Some level =>
            headings_loop font_hierarchy rest
              (headings ++ [ {| Out.level := level; Out.text := text;
                                Out.page := page block |} ])
        | None => headings_loop font_hierarchy rest headings
        end
  end.

(** [extract_pdf_outline], where [doc] is what [fitz.open(pdf_path)]
    gives; a float is true in [if title_size:] when it is not zero. *)
Definition extract_pdf_outline (doc : Fitz.Document) (pdf_path : string)
  : Out.OutlineResult :=
  match doc with
  | None => {| Out.title := ""; Out.outline := [] |}
  | Some pages =>
      let text_blocks := mjoin (imap blocks_of_page pages) in
      let font_sizes := font_size <$> text_blocks in
      match text_blocks with
      | [] => {| Out.title := ""; Out.outline := [] |}
      | _ =>
          let unique_sizes := sorted_reverse (list_to_set font_sizes) in
          let font_hierarchy := assign_tiers unique_sizes in
          let title := "" in
          let title_size := font_hierarchy !! "title" in
          let title :=
            match title_size with
            | Some size =>
                if bool_decide (size ≠ 0%Qc)
                then first_title size text_blocks
                else title
            | None => title
            end in
          let title :=
            if String.eqb title ""
            then Py.splitext_root (Py.basename pdf_path)
            else title in
          let headings := headings_loop font_hierarchy text_blocks [] in
          let unique_headings := remove_duplicates headings in
          {| Out.title := title; Out.outline := unique_headings |}
      end
  end.

End Simple.

(** ** Sample documents *)

Module Samples.

Definition span (t : string) (size : Z) : Fitz.Span :=
  {| Fitz.span_text := t; Fitz.span_size := Qc_of_Z size;
     Fitz.span_font := "Helvetica"; Fitz.span_flags := 0;
     Fitz.span_bbox := (0, 0, 0, 0)%Qc |}.

(** A page with one text block holding one line per span. *)
Definition page_of (spans : list Fitz.Span) : Fitz.Page :=
  [ {| Fitz.block_type := 0; Fitz.block_lines := (λ s, [s]) <$> spans |} ].

(** The four-fragment document of the specification. *)
Definition synthetic : Fitz.Document :=
  Some [ page_of [span "Doc Title" 24; span "Introduction" 18];
         page_of [span "Background." 14];
         page_of [span "Page 3" 10] ].

(** Two fragments at one font size. *)
Definition single_size : Fitz.Document :=
  Some [ page_of [span "First Heading" 12; span "Second Heading." 12] ].

(** A readable document without usable text: a span that is too short
    once stripped, and an image block. *)
Definition no_text : Fitz.Document :=
  Some [ page_of [span "  ab " 12];
         [ {| Fitz.block_type := 1; Fitz.block_lines := [] |} ] ].

(** A document with a lower-case phrase at the second largest size. *)
Definition lower_case_heading : Fitz.Document :=
  Some [ page_of [span "Annual Report" 24; span "summary of results" 18] ].

(** A single fragment whose font size is zero. *)
Definition zero_size : Fitz.Document :=
  Some [ page_of [span "Annual Report" 0] ].

End Samples.


(** ** The specification's wording *)

Module Spec.

(** A title candidate: a fragment on page 1 whose font size is the
    title-tier size of the hierarchy and which passes the structural
    gate. *)
Definition qualifies_as_title (self : App.PDFOutlineExtractor)
  (fh : gmap string Qc) (block : App.TextBlock) : Prop :=
  App.page block = 1
  ∧ fh !! "title" = Some (App.font_size block)
  ∧ App.is_potential_heading self (App.text block) (App.font_size block)
      (App.flags block) = true.

(** The same candidates, given the title-tier size itself: the test of
    the loop of [extract_title]. *)
Definition title_test (self : App.PDFOutlineExtractor) (title_size : Qc)
  (block : App.TextBlock) : Prop :=
  App.font_size block = title_size ∧ App.page block = 1
  ∧ App.is_potential_heading self (App.text block) (App.font_size block)
      (App.flags block) = true.

Global Instance title_test_dec self t b : Decision (title_test self t b).
Proof. unfold title_test. apply _. Defined.

(** The last rule of the structural gate: the text ends in one of
    [. : ? !], or is fully upper-case, or is title-case. *)
Definition punctuated_or_capitalised (text : string) : bool :=
  existsb (λ ending, Py.endswith text ending) App.heading_endings
  || Py.isupper text || Py.istitle text.

(** A fragment of the class-based pipeline without the two fields the
    function-based pipeline does not keep. *)
Definition to_simple (block : App.TextBlock) : Simple.TextBlock :=
  {| Simple.text := App.text block;
     Simple.font_size := App.font_size block;
     Simple.page := App.page block;
     Simple.flags := App.flags block |}.

End Spec.

(** ** Notions used to state further properties *)

Module Derived.

(** The first character of a string, if any. *)
Definition first_char (s : string) : option ascii :=
  match s with
  | String c _ => Some c
  | EmptyString => None
  end.

(** Neither the first nor the last character is white space. *)
Definition trimmed (s : string) : Prop :=
  (∀ c, first_char s = Some c → Py.is_space c = false)
  ∧ (∀ c, Py.last_char s = Some c → Py.is_space c = false).

(** The fragment [block] with its page number increased by [n]. *)
Definition shift_page (n : nat) (block : App.TextBlock) : App.TextBlock :=
  {| App.text := App.text block;
     App.font_size := App.font_size block;
     App.font_name := App.font_name block;
     App.flags := App.flags block;
     App.page := App.page block + Z.of_nat n;
     App.bbox := App.bbox block |}.

(** The number of pages of a document that could be read. *)
Definition page_count (doc : Fitz.Document) : Z :=
  match doc with
  | Some pages => Z.of_nat (length pages)
  | None => 0
  end.

(** A page without its non-text blocks. *)
Definition text_blocks_only (page : Fitz.Page) : Fitz.Page :=
  List.filter (λ block, Fitz.block_type block =? 0) page.

(** How often the size [x] occurs in a list of sizes. *)
Definition occurrences (x : Qc) (sizes : list Qc) : Z :=
  Z.of_nat (count_occ Qc_eq_dec sizes x).

(** The fragments that [extract_pdf_outline] collects in Step 1. *)
Definition simple_text_blocks (doc : Fitz.Document)
  : list Simple.TextBlock :=
  match doc with
  | Some pages => mjoin (imap Simple.blocks_of_page pages)
  | None => []
  end.

(** The test of the loop of Step 3 of [extract_pdf_outline]. *)
Definition simple_title_test (title_size : Qc) (block : Simple.TextBlock)
  : Prop :=
  Simple.font_size block = title_size ∧ Simple.page block = 1
  ∧ Simple.is_valid_heading (Simple.text block) = true.

Global Instance simple_title_test_dec t b :
  Decision (simple_title_test t b).
Proof. unfold simple_title_test. apply _. Defined.

(** How many headings of a list have the level [level]. *)
Definition headings_at (level : string) (hs : list Out.Heading) : Z :=
  Z.of_nat (length (List.filter (λ h, String.eqb (Out.level h) level) hs)).

(** Do all characters of [s] satisfy [f]? *)
Fixpoint all_chars (f : ascii → bool) (s : string) : bool :=
  match s with
  | EmptyString => true
  | String c s' => f c && all_chars f s'
  end.

(** [s] without its longest prefix of characters that satisfy [f]. *)
Fixpoint skip_while (f : ascii → bool) (s : string) : string :=
  match s with
  | EmptyString => EmptyString
  | String c s' => if f c then skip_while f s' else s
  end.

(** What is left of [text] after [prefix], when [text] starts with
    [prefix] up to the case of the letters. *)
Fixpoint strip_prefix_ci (prefix text : string) : option string :=
  match prefix, text with
  | EmptyString, _ => Some text
  | String a prefix', String c text' =>
      if Ascii.eqb (Py.to_lower a) (Py.to_lower c)
      then strip_prefix_ci prefix' text'
      else None
  | String _ _, EmptyString => None
  end.

Definition starts_with_ci (prefix text : string) : bool :=
  match strip_prefix_ci prefix text with
  | Some _ => true
  | None => false
  end.

(** [text] starts with [word], up to case, and a digit follows. *)
Definition word_then_digit (word text : string) : bool :=
  match strip_prefix_ci word text with
  | Some (String d _) => Py.is_digit d
  | _ => false
  end.

(** [text] starts with one or more characters that satisfy [f], then
    comes [sep], then a character that satisfies [f]. *)
Definition run_sep_run (f : ascii → bool) (sep : ascii) (text : string)
  : bool :=
  match text with
  | String c _ =>
      f c
      && match skip_while f text with
         | String s (String d _) => Ascii.eqb sep s && f d
         | _ => false
         end
  | EmptyString => false
  end.

(** A digit, white space, or one of [. - ( )]. *)
Definition number_like (c : ascii) : bool :=
  Py.is_digit c || Py.is_space c || Ascii.eqb "." c || Ascii.eqb "-" c
  || Ascii.eqb "(" c || Ascii.eqb ")" c.

(** The texts that the non-heading patterns of the two gates exclude,
    said without patterns: a version number at the start, "Page",
    "Figure" or "Table" with a space and a digit, a web or mail address
    at the start, or nothing but number-like characters. *)
Definition non_heading (text : string) : bool :=
  run_sep_run Py.is_digit "." text
  || word_then_digit "Page " text
  || word_then_digit "Figure " text
  || word_then_digit "Table " text
  || starts_with_ci "www." text
  || starts_with_ci "http://" text
  || starts_with_ci "https://" text
  || run_sep_run Py.is_word "@" text
  || (negb (String.eqb text "") && all_chars number_like text).

(** No character of [s] is a slash. *)
Definition no_slash (s : string) : bool :=
  all_chars (λ c, negb (Ascii.eqb c "/")) s.

End Derived.

(** ** File names, in the words of [os.path] *)

Module PathSpec.

(** The character [c] occurs nowhere in [s]. *)
Definition free_of (c : ascii) (s : string) : bool :=
  Derived.all_chars (λ a, negb (Ascii.eqb a c)) s.

(** Every character of [s] is [c]. *)
Definition only (c : ascii) (s : string) : bool :=
  Derived.all_chars (Ascii.eqb c) s.

(** [base] is the base name of [path]: what follows the last slash of
    [path], or all of [path] when it has no slash. *)
Definition is_basename (path base : string) : Prop :=
  free_of "/" base = true
  ∧ (path = base ∨ ∃ dir, path = dir +:+ String "/" base).

(** [root] is [base] with its extension stripped.  The extension starts
    at the last dot of [base], provided some character before that dot
    is not a dot; otherwise [base] has no extension. *)
Definition is_root (base root : string) : Prop :=
  (∃ ext, base = root +:+ String "." ext
          ∧ free_of "." ext = true ∧ only "." root = false)
  ∨ (root = base
     ∧ ∃ dots rest, base = dots +:+ rest
                    ∧ only "." dots = true ∧ free_of "." rest = true).

(** [stem] is the base name of [path] with its extension stripped. *)
Definition is_stem (path stem : string) : Prop :=
  ∃ base, is_basename path base ∧ is_root base stem.

End PathSpec.

(** ** Further sample documents *)
Module MoreSamples.

(** A single fragment, in lower case without final punctuation. *)
Definition lower_case_only : Fitz.Document :=
  Some [ Samples.page_of [Samples.span "summary of results" 18] ].

(** Five font sizes: headings at the four largest, and body text in
    lower case at the fifth. *)
Definition five_sizes : Fitz.Document :=
  Some [ Samples.page_of [Samples.span "Doc Title" 24;
                          Samples.span "Introduction" 18;
                          Samples.span "Background." 14;
                          Samples.span "Methods:" 12;
                          Samples.span "body text in lower case" 10] ].

End MoreSamples.

(** ** When the two pipelines agree *)

Module Agreement.

(** [x] is the first element of [l] that satisfies [P]. *)
Definition first_such {A : Type} (P : A → Prop) (l : list A) (x : A)
  : Prop :=
  ∃ i : nat, l !! i = Some x ∧ P x
             ∧ ∀ j y, l !! j = Some y → (j < i)%nat → ¬ P y.

(** The test of the title loop of [extract_pdf_outline], on a fragment
    of the class-based pipeline. *)
Definition title_candidate (title_size : Qc) (block : App.TextBlock)
  : Prop :=
  App.font_size block = title_size ∧ App.page block = 1
  ∧ Simple.is_valid_heading (App.text block) = true.

(** The font size of [block] is the size of the H1, H2 or H3 tier. *)
Definition at_heading_tier (fh : gmap string Qc) (block : App.TextBlock)
  : Prop :=
  ∃ level, level ∈ ["H1"; "H2"; "H3"]
           ∧ fh !! level = Some (App.font_size block).

(** The fragments on which the answer of the gate reaches the result
    have the ending or the capitals that only [is_potential_heading]
    asks for: every fragment at a heading tier that [is_valid_heading]
    accepts; and the first fragment on page 1 at the title size that
    [is_valid_heading] accepts.  When the title size is zero, where
    [if title_size:] skips the search, no fragment qualifies as title
    in the class-based pipeline either. *)
Definition gates_agree_on_tiers (doc : Fitz.Document) : Prop :=
  let blocks := App.extract_text_blocks App.init doc in
  let fh := App.analyze_font_hierarchy App.init blocks in
  (∀ block, block ∈ blocks → at_heading_tier fh block →
            Simple.is_valid_heading (App.text block) = true →
            Spec.punctuated_or_capitalised (App.text block) = true)
  ∧ (∀ title_size, fh !! "title" = Some title_size →
       (title_size ≠ 0%Qc →
        ∀ block, first_such (title_candidate title_size) blocks block →
                 Spec.punctuated_or_capitalised (App.text block) = true)
       ∧ (title_size = 0%Qc →
          ∀ block, block ∈ blocks →
                   ¬ Spec.title_test App.init title_size block)).

End Agreement.


(** ** [test_extractor.py]: the check of the output format *)

#[local] Set Warnings "-register-all".

Module Json.

(** The Python values that [json] can load or dump. *)
Inductive pyval : Type :=
| PNone
| PBool (b : bool)
| PInt (z : Z)
| PFloat (q : Qc)
| PStr (s : string)
| PList (l : list pyval)
| PDict (d : gmap string pyval).

(** The second component of the returned pair: a fixed text, or
    [f"Invalid level: {v}"] for the value [v] found. *)
Inductive message : Type :=
| Msg (s : string)
| Invalid_level (v : pyval).

(** What a call does: it returns a pair or raises [TypeError]. *)
Inductive outcome : Type :=
| Returns (ok : bool) (msg : message)
| Raises_TypeError.

(** [v == s] for a string [s]: only a string is equal to a string. *)
Definition eq_str (s : string) (v : pyval) : bool :=
  match v with
  | PStr s' => String.eqb s' s
  | _ => false
  end.

(** [sub in s] for strings. *)
Definition is_substring (sub s : string) : bool :=
  match String.index 0 sub s with
  | Some _ => true
  | None => false
  end.

(** [key in v]: keys of a dict, members of a list, substrings of a
    string; [None] when [v] is not a container ([TypeError]). *)
Definition contains (key : string) (v : pyval) : option bool :=
  match v with
  | PDict d => Some (bool_decide (is_Some (d !! key)))
  | PList l => Some (existsb (eq_str key) l)
  | PStr s => Some (is_substring key s)
  | PNone | PBool _ | PInt _ | PFloat _ => None
  end.

(** [d[key]] for a key that is present. *)
Definition subscript (d : gmap string pyval) (key : string) : pyval :=
  default PNone (d !! key).

(** [isinstance(v, str)], [isinstance(v, list)], [isinstance(v, dict)]
    and [isinstance(v, int)]; [bool] is a subclass of [int]. *)
Definition is_str (v : pyval) : bool :=
  match v with PStr _ => true | _ => false end.

Definition is_list (v : pyval) : bool :=
  match v with PList _ => true | _ => false end.

Definition is_dict (v : pyval) : bool :=
  match v with PDict _ => true | _ => false end.

Definition is_int (v : pyval) : bool :=
  match v with PInt _ | PBool _ => true | _ => false end.

(** [len(v) == 0] for a string [v] and [v < 1] for an int [v]. *)
Definition len_is_zero (v : pyval) : bool :=
  match v with PStr s => Py.len s =? 0 | _ => false end.

Definition less_than_one (v : pyval) : bool :=
  match v with
  | PInt z => z <? 1
  | PBool b => negb b
  | _ => false
  end.

(** The loop [for key in keys: if key not in d: return ...]: the first
    key that is missing. *)
Fixpoint first_missing (keys : list string) (d : gmap string pyval)
  : option string :=
  match keys with
  | [] => None
  | key :: rest =>
      if bool_decide (d !! key = None) then Some key
      else first_missing rest d
  end.

(** The body of the loop over the items of the outline: the message of
    the [return False, ...] it takes, if any. *)
Definition check_item (item : pyval) : option message :=
  match item with
  | PDict d =>
      match first_missing ["level"; "text"; "page"] d with
      | Some key => Some (Msg ("Missing key in outline item: " +:+ key))
      | None =>
          if negb (existsb (λ s, eq_str s (subscript d "level"))
                           ["H1"; "H2"; "H3"])
          then Some (Invalid_level (subscript d "level"))
          else if negb (is_str (subscript d "text"))
                  || len_is_zero (subscript d "text")
          then Some (Msg "Text must be a non-empty string")
          else if negb (is_int (subscript d "page"))
                  || less_than_one (subscript d "page")
          then Some (Msg "Page must be a positive integer")
          else None
      end
  | _ => Some (Msg "Outline items must be dictionaries")
  end.

Fixpoint check_items (items : list pyval) : option message :=
  match items with
  | [] => None
  | item :: rest =>
      match check_item item with
      | Some msg => Some msg
      | None => check_items rest
      end
  end.

(** The part of [validate_json_output] after the required keys have
    been found in a dict. *)
Definition validate_dict (d : gmap string pyval) : outcome :=
  if negb (is_str (subscript d "title"))
  then Returns false (Msg "Title must be a string")
  else
    match subscript d "outline" with
    | PList items =>
        match check_items items with
        | Some msg => Returns false msg
        | None => Returns true (Msg "JSON format is valid")
        end
    | _ => Returns false (Msg "Outline must be a list")
    end.

(** [validate_json_output].  A list or a string that contains both
    required keys gets past the first loop and makes
    [json_data["title"]] raise. *)
Definition validate_json_output (json_data : pyval) : outcome :=
  match contains "title" json_data with
  | None => Raises_TypeError
  | Some false => Returns false (Msg "Missing required key: title")
  | Some true =>
      match contains "outline" json_data with
      | None => Raises_TypeError
      | Some false => Returns false (Msg "Missing required key: outline")
      | Some true =>
          match json_data with
          | PDict d => validate_dict d
          | _ => Raises_TypeError
          end
      end
  end.

(** The dicts that the pipelines return, as Python values. *)
Definition heading_to_json (h : Out.Heading) : pyval :=
  PDict (<["level" := PStr (Out.level h)]>
           (<["text" := PStr (Out.text h)]>
              (<["page" := PInt (Out.page h)]> ∅))).

Definition result_to_json (r : Out.OutlineResult) : pyval :=
  PDict (<["title" := PStr (Out.title r)]>
           (<["outline" := PList (heading_to_json <$> Out.outline r)]> ∅)).

(** An item that the check accepts. *)
Definition item_ok (item : pyval) : Prop :=
  ∃ d level text,
    item = PDict d
    ∧ d !! "level" = Some (PStr level) ∧ level ∈ ["H1"; "H2"; "H3"]
    ∧ d !! "text" = Some (PStr text) ∧ text ≠ ""
    ∧ ((∃ page, d !! "page" = Some (PInt page) ∧ 1 ≤ page)
       ∨ d !! "page" = Some (PBool true)).

(** The loop of [test_pdf_processing] that counts the headings of each
    level: [heading_counts[item['level']] += 1] raises when the level is
    not one of the keys. *)
Fixpoint count_levels (items : list pyval)
  (heading_counts : gmap string Z) : option (gmap string Z) :=
  match items with
  | [] => Some heading_counts
  | item :: rest =>
      match item with
      | PDict d =>
          match d !! "level" with
          | Some (PStr level) =>
              match heading_counts !! level with
              | Some n => count_levels rest (<[level := n + 1]> heading_counts)
              | None => None
              end
          | _ => None
          end
      | _ => None
      end
  end.

Definition heading_counts (items : list pyval) : option (gmap string Z) :=
  count_levels items (<["H1" := 0]> (<["H2" := 0]> (<["H3" := 0]> ∅))).

End Json.

(** ** What the patterns mean *)

Module ReSem.
Import Re.

Definition is_empty (s : string) : bool :=
  match s with
  | EmptyString => true
  | String _ _ => false
  end.

(** [den ic r bol p rest]: the pattern [r] can match exactly the
    characters [p] when they are followed by [rest]; [bol] says that [p]
    starts at the beginning of the text, [ic] is [re.IGNORECASE]. *)
Inductive den (ic : bool) : regex → bool → string → string → Prop :=
| den_eps bol rest :
    den ic Eps bol "" rest
| den_caret rest :
    den ic Caret true "" rest
| den_dollar bol rest :
    is_newline_or_end rest = true → den ic Dollar bol "" rest
| den_atom a c bol rest :
    atom_matches ic a c = true → den ic (Atom a) bol (String c "") rest
| den_set items c bol rest :
    existsb (λ a, atom_matches ic a c) items = true →
    den ic (Set_ items) bol (String c "") rest
| den_seq r1 r2 bol p1 p2 rest :
    den ic r1 bol p1 (p2 +:+ rest) →
    den ic r2 (bol && is_empty p1) p2 rest →
    den ic (Seq r1 r2) bol (p1 +:+ p2) rest
| den_alt_l r1 r2 bol p rest :
    den ic r1 bol p rest → den ic (Alt r1 r2) bol p rest
| den_alt_r r1 r2 bol p rest :
    den ic r2 bol p rest → den ic (Alt r1 r2) bol p rest
| den_star_nil r bol rest :
    den ic (Star r) bol "" rest
| den_star_more r bol p1 p2 rest :
    den ic r bol p1 (p2 +:+ rest) →
    den ic (Star r) (bol && is_empty p1) p2 rest →
    den ic (Star r) bol (p1 +:+ p2) rest.

End ReSem.

(** ** [app.py]: the batch driver *)

Module Batch.

(** [s.lower()]. *)
Fixpoint lower (s : string) : string :=
  match s with
  | EmptyString => EmptyString
  | String c s' => String (Py.to_lower c) (lower s')
  end.

(** [s.endswith(suffix)]. *)
Fixpoint endswith (s suffix : string) : bool :=
  String.eqb s suffix
  || match s with
     | EmptyString => false
     | String _ s' => endswith s' suffix
     end.

(** [os.path.join(a, b)] of [posixpath]. *)
Definition join (a b : string) : string :=
  match b with
  | String "/" _ => b
  | _ =>
      if String.eqb a "" || Py.endswith a "/" then a +:+ b
      else a +:+ "/" +:+ b
  end.

(** The part of the file system that the driver touches, described
    path by path.  A path is the string handed to the system call: two
    spellings of one file are two paths, and the description says of
    each what the system answers for it.
    - [readable]: the files that [fitz.open] can read, with what it
      delivers; at any other path it raises.
    - [directories]: the paths that name a directory.
    - [uncreatable]: the paths at which [os.mkdir] is refused, once the
      directories above are there, although no directory is at the path
      (another kind of file is in the way, or the system does not
      permit it).
    - [unwritable]: the paths at which [open(path, 'w')] is refused
      although the directory of the path exists and the path is not
      itself a directory.
    - [files]: the JSON files written so far, each as the value that was
      dumped. *)
Record World : Type := mkWorld {
  readable : gmap string (list Fitz.Page);
  directories : gset string;
  uncreatable : gset string;
  unwritable : gset string;
  files : gmap string Out.OutlineResult
}.






(** The name of the output file for [pdf_path] in [output_dir]. *)
Definition output_path (pdf_path output_dir : string) : string :=
  let pdf_filename := Py.splitext_root (Py.basename pdf_path) in
  join output_dir (pdf_filename +:+ ".json").






(** What a call of [process_directory] does: it raises, or it returns
    and leaves a world; [success_count] is the number of successes that
    it logs, when it gets that far. *)
Inductive outcome : Type :=
| Raises
| Returns (success_count : option Z) (w : World).


End Batch.

(** A sample run: two PDFs and a text file in the listing; the first PDF
    can be read, the second cannot; the output directory is not there
    yet, and nothing is refused. *)
Module BatchSamples.



End BatchSamples.

(** ** The batch run, in words *)

Module BatchSpec.


(** [path] is [name] inside [dir], as [os.path.join] spells it for a
    relative [name]: one slash between the two, unless [dir] is empty
    or ends in a slash already. *)
Definition joined (dir name path : string) : Prop :=
  (dir = "" ∧ path = name)
  ∨ ((∃ d, dir = d +:+ "/") ∧ path = dir +:+ name)
  ∨ (dir ≠ "" ∧ (∀ d, dir ≠ d +:+ "/") ∧ path = dir +:+ "/" +:+ name).



End BatchSpec.

(** * Properties *)

(** ** Removing duplicates *)

Section Dedup.
Implicit Types (h : Out.Heading) (hs acc : list Out.Heading).
Implicit Types (seen : gset (string * string * Z)).

Lemma if_bool_decide_ext {A} (P Q : Prop) `{Decision P, Decision Q}
  (a b : A) :
  (P ↔ Q) →
  (if bool_decide P then a else b) = (if bool_decide Q then a else b).
Proof. intros Hiff. by rewrite (bool_decide_ext P Q). Qed.

Lemma key_inj h1 h2 : Out.key h1 = Out.key h2 → h1 = h2.
Proof. destruct h1, h2; unfold Out.key; simpl; congruence. Qed.

Lemma key_elem_of h hs :
  Out.key h ∈ (list_to_set (Out.key <$> hs) : gset _) ↔ h ∈ hs.
Proof.
  rewrite elem_of_list_to_set, list_elem_of_fmap. split.
  - intros (h' & Hk & Hin). by rewrite (key_inj _ _ Hk).
  - intros Hin. by exists h.
Qed.

(** One more heading at the end of the input: it is appended to the
    result unless its key was already in [seen] or met on the way. *)
Lemma unique_loop_snoc hs h seen acc :
  unique_loop (hs ++ [h]) seen acc =
  if bool_decide (Out.key h ∈ seen ∪ list_to_set (Out.key <$> hs))
  then unique_loop hs seen acc
  else unique_loop hs seen acc ++ [h].
Proof.
  revert seen acc.
  induction hs as [|x hs IH]; intros seen acc; cbn [app unique_loop];
    rewrite ?fmap_cons, ?list_to_set_cons.
  - rewrite fmap_nil, list_to_set_nil, (right_id_L ∅ (∪)).
    destruct (decide (Out.key h ∈ seen)) as [Hin|Hout].
    + rewrite (bool_decide_eq_false_2 (_ ∉ _)) by tauto.
      by rewrite bool_decide_eq_true_2.
    + rewrite (bool_decide_eq_true_2 (_ ∉ _)) by done.
      by rewrite bool_decide_eq_false_2.
  - destruct (decide (Out.key x ∈ seen)) as [Hin|Hout].
    + rewrite (bool_decide_eq_false_2 (_ ∉ _)) by tauto.
      rewrite IH. apply if_bool_decide_ext. clear IH. revert Hin.
      generalize (Out.key h) (Out.key x)
        (list_to_set (Out.key <$> hs) : gset _).
      set_solver.
    + rewrite (bool_decide_eq_true_2 (_ ∉ _)) by done.
      rewrite IH. apply if_bool_decide_ext. clear IH Hout.
      generalize (Out.key h) (Out.key x)
        (list_to_set (Out.key <$> hs) : gset _).
      set_solver.
Qed.

Lemma remove_duplicates_snoc hs h :
  remove_duplicates (hs ++ [h]) =
  if bool_decide (h ∈ hs) then remove_duplicates hs
  else remove_duplicates hs ++ [h].
Proof.
  unfold remove_duplicates. rewrite unique_loop_snoc.
  apply if_bool_decide_ext. rewrite <- key_elem_of.
  by rewrite (left_id_L ∅ (∪)).
Qed.

Lemma remove_duplicates_elem_of hs h :
  h ∈ remove_duplicates hs ↔ h ∈ hs.
Proof.
  induction hs as [|x hs IH] using rev_ind; [done|].
  rewrite remove_duplicates_snoc. case_bool_decide as Hx.
  - set_solver.
  - rewrite !elem_of_app, IH. tauto.
Qed.

Lemma remove_duplicates_NoDup hs : NoDup (remove_duplicates hs).
Proof.
  induction hs as [|x hs IH] using rev_ind; [constructor|].
  rewrite remove_duplicates_snoc. case_bool_decide as Hx; [done|].
  apply NoDup_app. split_and!; [done| |apply NoDup_singleton].
  intros y Hy. rewrite remove_duplicates_elem_of in Hy. set_solver.
Qed.

Lemma remove_duplicates_sublist hs : remove_duplicates hs `sublist_of` hs.
Proof.
  induction hs as [|x hs IH] using rev_ind; [done|].
  rewrite remove_duplicates_snoc. case_bool_decide.
  - by apply sublist_inserts_r.
  - by apply sublist_app.
Qed.

Lemma remove_duplicates_idemp hs :
  remove_duplicates (remove_duplicates hs) = remove_duplicates hs.
Proof.
  induction hs as [|x hs IH] using rev_ind; [done|].
  rewrite remove_duplicates_snoc. case_bool_decide as Hx; [done|].
  rewrite remove_duplicates_snoc, IH.
  rewrite bool_decide_eq_false_2; [done|].
  by rewrite remove_duplicates_elem_of.
Qed.

End Dedup.

(** C8.  The deduplication step of [extract_outline] starts from nothing,
    appends a heading exactly when its (level, text, page) triple has not
    occurred earlier in the list, and so keeps the first occurrences in
    their original order: the result is duplicate-free, has the members
    of the input and is a subsequence of it.  Applying the step to its
    own output changes nothing. *)
Theorem C8_dedup_first_occurrence_idempotent :
  remove_duplicates [] = []
  ∧ (∀ (hs : list Out.Heading) (h : Out.Heading),
       remove_duplicates (hs ++ [h]) =
       if bool_decide (h ∈ hs) then remove_duplicates hs
       else remove_duplicates hs ++ [h])
  ∧ (∀ hs : list Out.Heading,
       NoDup (remove_duplicates hs)
       ∧ (∀ h, h ∈ remove_duplicates hs ↔ h ∈ hs)
       ∧ remove_duplicates hs `sublist_of` hs
       ∧ remove_duplicates (remove_duplicates hs) = remove_duplicates hs).
Proof.
  split; [done|]. split; [apply remove_duplicates_snoc|].
  intros hs. split_and!.
  - apply remove_duplicates_NoDup.
  - intros h. apply remove_duplicates_elem_of.
  - apply remove_duplicates_sublist.
  - apply remove_duplicates_idemp.
Qed.

(** ** The structural gate *)

(** C5.  With the lengths set by [__init__], [is_potential_heading]
    rejects "Page 12", "www.example.com" and "1.2.3" and accepts
    "INTRODUCTION" and "Chapter One: Foundations.", whatever font size and
    flags come with them. *)
Theorem C5_structural_gate_examples (font_size : Qc) (flags : Z) :
  App.is_potential_heading App.init "Page 12" font_size flags = false
  ∧ App.is_potential_heading App.init "www.example.com" font_size flags
    = false
  ∧ App.is_potential_heading App.init "1.2.3" font_size flags = false
  ∧ App.is_potential_heading App.init "INTRODUCTION" font_size flags = true
  ∧ App.is_potential_heading App.init "Chapter One: Foundations."
      font_size flags = true.
Proof. repeat split; vm_compute; reflexivity. Qed.

(** The function-based gate gives the same five answers. *)
Lemma is_valid_heading_examples :
  Simple.is_valid_heading "Page 12" = false
  ∧ Simple.is_valid_heading "www.example.com" = false
  ∧ Simple.is_valid_heading "1.2.3" = false
  ∧ Simple.is_valid_heading "INTRODUCTION" = true
  ∧ Simple.is_valid_heading "Chapter One: Foundations." = true.
Proof. repeat split; vm_compute; reflexivity. Qed.

(** ** The configured fields *)

Section Config.
Variables self self' : App.PDFOutlineExtractor.
Hypothesis Hmin :
  App.min_heading_length self' = App.min_heading_length self.
Hypothesis Hmax :
  App.max_heading_length self' = App.max_heading_length self.

Lemma is_potential_heading_config text fs fl fs' fl' :
  App.is_potential_heading self' text fs' fl'
  = App.is_potential_heading self text fs fl.
Proof. unfold App.is_potential_heading. by rewrite Hmin, Hmax. Qed.

Lemma extract_text_blocks_config doc :
  App.extract_text_blocks self' doc = App.extract_text_blocks self doc.
Proof.
  unfold App.extract_text_blocks, App.blocks_of_page, App.block_of_span.
  by rewrite Hmin.
Qed.

Lemma first_title_config title_size text_blocks :
  App.first_title self' title_size text_blocks
  = App.first_title self title_size text_blocks.
Proof.
  induction text_blocks as [|block rest IH]; [done|]. cbn [App.first_title].
  by rewrite IH, (is_potential_heading_config _ (App.font_size block)
                    (App.flags block)).
Qed.

Lemma extract_title_config text_blocks font_hierarchy :
  App.extract_title self' text_blocks font_hierarchy
  = App.extract_title self text_blocks font_hierarchy.
Proof.
  unfold App.extract_title.
  destruct text_blocks; [done|]. destruct (_ !! _); [|done].
  apply first_title_config.
Qed.

Lemma headings_loop_config font_hierarchy text_blocks headings :
  App.headings_loop self' font_hierarchy text_blocks headings
  = App.headings_loop self font_hierarchy text_blocks headings.
Proof.
  revert headings.
  induction text_blocks as [|block rest IH]; intros headings; [done|].
  cbn [App.headings_loop]. cbv zeta.
  rewrite (is_potential_heading_config _ (App.font_size block)
             (App.flags block)).
  destruct (negb _); [apply IH|]. destruct (heading_level _ _); apply IH.
Qed.

Lemma extract_outline_config doc pdf_path :
  App.extract_outline self' doc pdf_path
  = App.extract_outline self doc pdf_path.
Proof.
  unfold App.extract_outline, App.extract_headings.
  rewrite extract_text_blocks_config.
  destruct (App.extract_text_blocks self doc) as [|block rest]; [done|].
  cbv zeta. by rewrite extract_title_config, headings_loop_config.
Qed.

End Config.

(** C10.  [is_potential_heading] gives the same answer for a text under
    any two font sizes and flags, and no operation reads
    [min_font_size] or [max_font_size]: setting them to any values leaves
    the extracted fragments, the hierarchy, the title, the headings and
    the result of [extract_outline] unchanged. *)
Theorem C10_gate_depends_on_text_only :
  (∀ self text (fs1 fs2 : Qc) (fl1 fl2 : Z),
     App.is_potential_heading self text fs1 fl1
     = App.is_potential_heading self text fs2 fl2)
  ∧ (∀ self lo hi,
       let self' := App.set_font_size_limits self lo hi in
       (∀ doc, App.extract_text_blocks self' doc
               = App.extract_text_blocks self doc)
       ∧ (∀ blocks, App.analyze_font_hierarchy self' blocks
                    = App.analyze_font_hierarchy self blocks)
       ∧ (∀ blocks fh, App.extract_title self' blocks fh
                       = App.extract_title self blocks fh)
       ∧ (∀ blocks fh, App.extract_headings self' blocks fh
                       = App.extract_headings self blocks fh)
       ∧ (∀ doc pdf_path, App.extract_outline self' doc pdf_path
                          = App.extract_outline self doc pdf_path)).
Proof.
  split; [done|]. intros self lo hi self'. split_and!.
  - intros doc. by apply extract_text_blocks_config.
  - done.
  - intros blocks fh. by apply extract_title_config.
  - intros blocks fh. by apply headings_loop_config.
  - intros doc pdf_path. by apply extract_outline_config.
Qed.

(** ** Failures and empty documents *)

(** C9.  When opening or reading the document fails, and when the
    document yields no text fragment, [extract_outline] returns exactly
    the empty title and the empty outline; the file name is not used.
    The function is total: there is no exceptional outcome. *)
Theorem C9_failure_gives_empty_result
  (self : App.PDFOutlineExtractor) (doc : Fitz.Document)
  (pdf_path : string) :
  doc = None ∨ App.extract_text_blocks self doc = [] →
  App.extract_outline self doc pdf_path
  = {| Out.title := ""; Out.outline := [] |}.
Proof.
  intros [-> | Hnone]; [done|].
  unfold App.extract_outline. by rewrite Hnone.
Qed.

Lemma C9_failure_gives_empty_result_witness :
  App.extract_outline App.init None "/app/input/broken.pdf"
  = {| Out.title := ""; Out.outline := [] |}
  ∧ App.extract_outline App.init Samples.no_text "/app/input/scan.pdf"
    = {| Out.title := ""; Out.outline := [] |}.
Proof.
  split; apply C9_failure_gives_empty_result.
  - left. reflexivity.
  - right. vm_compute. reflexivity.
Defined.

(** The function-based pipeline behaves the same way. *)
Lemma extract_pdf_outline_failure pdf_path :
  Simple.extract_pdf_outline None pdf_path
  = {| Out.title := ""; Out.outline := [] |}.
Proof. done. Qed.

(** ** The heading classifier *)

Section Classifier.
Variable self : App.PDFOutlineExtractor.
Variable fh : gmap string Qc.

Lemma headings_loop_acc text_blocks headings :
  App.headings_loop self fh text_blocks headings
  = headings ++ App.headings_loop self fh text_blocks [].
Proof.
  revert headings.
  induction text_blocks as [|block rest IH]; intros headings.
  - cbn [App.headings_loop]. by rewrite app_nil_r.
  - cbn [App.headings_loop]. cbv zeta.
    destruct (negb _); [apply IH|].
    destruct (heading_level _ _) as [level|]; [|apply IH].
    rewrite IH. rewrite (IH ([] ++ _)). by rewrite <- (assoc_L (++)).
Qed.

Lemma extract_headings_cons block rest :
  App.extract_headings self (block :: rest) fh
  = App.extract_headings self [block] fh
    ++ App.extract_headings self rest fh.
Proof.
  unfold App.extract_headings. cbn [App.headings_loop]. cbv zeta.
  destruct (negb _); [done|].
  destruct (heading_level _ _) as [level|]; [|done].
  by rewrite headings_loop_acc.
Qed.

Lemma heading_level_Some fs level :
  heading_level fs fh = Some level →
  level ∈ ["H1"; "H2"; "H3"] ∧ fh !! level = Some fs.
Proof.
  unfold heading_level. repeat case_bool_decide; intros [= <-];
    (split; [set_solver|done]).
Qed.

Lemma heading_level_None fs :
  heading_level fs fh = None ↔
  ¬ (fh !! "H1" = Some fs ∨ fh !! "H2" = Some fs ∨ fh !! "H3" = Some fs).
Proof.
  unfold heading_level. repeat case_bool_decide; split; try done; tauto.
Qed.

End Classifier.

(** C3.  For one fragment and any hierarchy, [extract_headings] emits the
    heading with the fragment's text and page, at a level among H1, H2,
    H3 whose size in the hierarchy is the fragment's size, when the
    fragment passes [is_potential_heading] and its size is equal to the
    hierarchy's H1, H2 or H3 value; otherwise it emits nothing.  No other
    tier counts, so a size that only equals the title tier emits nothing.
    Fragments are classified one by one, in order. *)
Theorem C3_classifier_emits_iff_both_gates
  (self : App.PDFOutlineExtractor) (fh : gmap string Qc) :
  (∀ block : App.TextBlock,
     let size := App.font_size block in
     let emitted := App.extract_headings self [block] fh in
     let structural :=
       App.is_potential_heading self (App.text block) size (App.flags block)
       = true in
     let tier :=
       fh !! "H1" = Some size ∨ fh !! "H2" = Some size
       ∨ fh !! "H3" = Some size in
     (structural ∧ tier
      ∧ ∃ level, level ∈ ["H1"; "H2"; "H3"] ∧ fh !! level = Some size
                 ∧ emitted = [ {| Out.level := level;
                                  Out.text := App.text block;
                                  Out.page := App.page block |} ])
     ∨ (¬ (structural ∧ tier) ∧ emitted = []))
  ∧ (∀ block rest,
       App.extract_headings self (block :: rest) fh
       = App.extract_headings self [block] fh
         ++ App.extract_headings self rest fh)
  ∧ App.extract_headings self [] fh = [].
Proof.
  split; [|split; [apply extract_headings_cons|done]].
  intros block size emitted structural tier.
  subst emitted structural tier. unfold App.extract_headings.
  cbn [App.headings_loop]. cbv zeta. fold size.
  destruct (App.is_potential_heading _ _ _ _) eqn:Hgate; cbn [negb].
  - destruct (heading_level size fh) as [level|] eqn:Hlevel.
    + destruct (heading_level_Some _ _ _ Hlevel) as [Hin Hsize].
      left. split; [done|]. split.
      * destruct (decide (fh !! "H1" = Some size ∨ fh !! "H2" = Some size
                          ∨ fh !! "H3" = Some size)) as [?|Hno]; [done|].
        apply heading_level_None in Hno. congruence.
      * by exists level.
    + right. split; [|done]. intros [_ Htier].
      by apply heading_level_None in Hlevel.
  - right. split; [|done]. by intros [? _].
Qed.

(** ** The font hierarchy *)

Section Hierarchy.
Implicit Types (s : gset Qc) (l : list Qc) (x y : Qc).

Local Instance Qcge_trans : Transitive (flip Qcle).
Proof. intros x y z Hxy Hyz. unfold flip in *. by etrans. Qed.

Local Instance Qcge_total : Total (flip Qcle).
Proof. intros x y. unfold flip. apply (total Qcle). Qed.

Lemma sorted_reverse_Permutation s : sorted_reverse s ≡ₚ elements s.
Proof. apply merge_sort_Permutation. Qed.

Lemma sorted_reverse_elem_of s x : x ∈ sorted_reverse s ↔ x ∈ s.
Proof. by rewrite sorted_reverse_Permutation, elem_of_elements. Qed.

Lemma sorted_reverse_NoDup s : NoDup (sorted_reverse s).
Proof. rewrite sorted_reverse_Permutation. apply NoDup_elements. Qed.

Lemma sorted_reverse_length s : length (sorted_reverse s) = size s.
Proof. by rewrite sorted_reverse_Permutation. Qed.

(** Descending and duplicate-free is strictly descending. *)
Lemma descending_strict l :
  StronglySorted (flip Qcle) l → NoDup l →
  StronglySorted (λ x y, (y < x)%Qc) l.
Proof.
  induction l as [|x l IH]; intros Hs Hn; [constructor|].
  apply StronglySorted_cons in Hs as [Hall Hs].
  apply NoDup_cons in Hn as [Hx Hn].
  apply StronglySorted_cons. split; [|by apply IH].
  apply Forall_forall. intros y Hy.
  rewrite Forall_forall in Hall. specialize (Hall y Hy). unfold flip in Hall.
  destruct (Qcle_lt_or_eq _ _ Hall) as [?| ->]; [done|]. by destruct Hx.
Qed.

Lemma sorted_reverse_sorted s :
  StronglySorted (λ x y, (y < x)%Qc) (sorted_reverse s).
Proof.
  apply descending_strict; [|apply sorted_reverse_NoDup].
  apply (StronglySorted_merge_sort (flip Qcle)).
Qed.

Lemma sorted_reverse_empty : sorted_reverse ∅ = [].
Proof. unfold sorted_reverse. by rewrite elements_empty. Qed.

Lemma sorted_reverse_singleton x : sorted_reverse {[x]} = [x].
Proof. unfold sorted_reverse. by rewrite elements_singleton. Qed.

(** The hierarchy of four or more sizes. *)
Lemma assign_tiers_four t h1 h2 h3 rest :
  assign_tiers (t :: h1 :: h2 :: h3 :: rest)
  = <["H3" := h3]> (<["H2" := h2]> (<["H1" := h1]> {["title" := t]})).
Proof. unfold assign_tiers, assign_tier. simpl. by rewrite insert_empty. Qed.

Lemma assign_tiers_one t : assign_tiers [t] = {["title" := t]}.
Proof. unfold assign_tiers, assign_tier. simpl. by rewrite insert_empty. Qed.

Lemma assign_tiers_title t rest :
  assign_tiers (t :: rest) !! "title" = Some t.
Proof.
  unfold assign_tiers, assign_tier. cbn [lookup list_lookup].
  repeat (case_match; simplify_map_eq; try done).
Qed.

End Hierarchy.

(** C2.  When the fragments have at least four distinct font sizes,
    [analyze_font_hierarchy] returns exactly the four tiers title, H1, H2,
    H3, bound to sizes of the document with title > H1 > H2 > H3, and
    every size of the document is one of the four or is below H3: they
    are the four largest distinct sizes.  The result is a function of the
    set of distinct sizes alone, so how often a size occurs, and the
    frequency ranking computed from it, change nothing. *)
Theorem C2_four_largest_distinct_sizes
  (self : App.PDFOutlineExtractor) (blocks : list App.TextBlock) :
  (4 ≤ size (list_to_set (App.font_size <$> blocks) : gset Qc))%nat →
  ∃ t h1 h2 h3 : Qc,
    App.analyze_font_hierarchy self blocks
    = <["H3" := h3]> (<["H2" := h2]> (<["H1" := h1]> {["title" := t]}))
    ∧ (h1 < t ∧ h2 < h1 ∧ h3 < h2)%Qc
    ∧ (t ∈ App.font_size <$> blocks) ∧ (h1 ∈ App.font_size <$> blocks)
    ∧ (h2 ∈ App.font_size <$> blocks) ∧ (h3 ∈ App.font_size <$> blocks)
    ∧ (∀ x, x ∈ App.font_size <$> blocks →
            x = t ∨ x = h1 ∨ x = h2 ∨ x = h3 ∨ (x < h3)%Qc)
    ∧ (∀ self' blocks',
         (list_to_set (App.font_size <$> blocks') : gset Qc)
         = list_to_set (App.font_size <$> blocks) →
         App.analyze_font_hierarchy self' blocks'
         = App.analyze_font_hierarchy self blocks).
Proof.
  intros Hsize. unfold App.analyze_font_hierarchy. cbv zeta.
  set (sizes := list_to_set (App.font_size <$> blocks) : gset Qc) in *.
  pose proof (sorted_reverse_length sizes) as Hlen.
  pose proof (sorted_reverse_sorted sizes) as Hsorted.
  assert (∀ x, x ∈ sorted_reverse sizes ↔ x ∈ App.font_size <$> blocks)
    as Hmem.
  { intros x. rewrite sorted_reverse_elem_of. apply elem_of_list_to_set. }
  destruct (sorted_reverse sizes) as [|t [|h1 [|h2 [|h3 rest]]]] eqn:Hsr;
    simpl in Hlen; try lia.
  exists t, h1, h2, h3. rewrite assign_tiers_four.
  apply StronglySorted_cons in Hsorted as [Ht Hsorted].
  apply StronglySorted_cons in Hsorted as [Hh1 Hsorted].
  apply StronglySorted_cons in Hsorted as [Hh2 Hsorted].
  apply StronglySorted_cons in Hsorted as [Hh3 _].
  rewrite Forall_forall in Ht, Hh1, Hh2, Hh3.
  split; [done|]. split.
  { split_and!; [apply Ht|apply Hh1|apply Hh2]; set_solver. }
  split_and!; try (apply Hmem; set_solver).
  - intros x Hx. apply Hmem in Hx.
    repeat (apply elem_of_cons in Hx as [->|Hx]; [tauto|]).
    do 4 right. by apply Hh3.
  - intros self' blocks' Heq. by rewrite Heq, Hsr, assign_tiers_four.
Qed.

Lemma C2_four_largest_distinct_sizes_witness :
  let blocks := App.extract_text_blocks App.init Samples.synthetic in
  (4 ≤ size (list_to_set (App.font_size <$> blocks) : gset Qc))%nat
  ∧ ∃ t h1 h2 h3 : Qc,
      App.analyze_font_hierarchy App.init blocks
      = <["H3" := h3]> (<["H2" := h2]> (<["H1" := h1]> {["title" := t]}))
      ∧ (h1 < t ∧ h2 < h1 ∧ h3 < h2)%Qc.
Proof.
  intros blocks.
  assert (4 ≤ size (list_to_set (App.font_size <$> blocks) : gset Qc))%nat
    as Hsize by (vm_compute; lia).
  split; [exact Hsize|].
  destruct (C2_four_largest_distinct_sizes App.init blocks Hsize)
    as (t & h1 & h2 & h3 & Hfh & Hlt & _).
  by exists t, h1, h2, h3.
Defined.

Section SingleSize.
Variable self : App.PDFOutlineExtractor.

Lemma sizes_singleton (blocks : list App.TextBlock) (x : Qc) :
  blocks ≠ [] → (∀ b, b ∈ blocks → App.font_size b = x) →
  (list_to_set (App.font_size <$> blocks) : gset Qc) = {[x]}.
Proof.
  intros Hne Hall. apply set_eq. intros y.
  rewrite elem_of_list_to_set, list_elem_of_fmap, elem_of_singleton. split.
  - intros (b & -> & Hb). by apply Hall.
  - intros ->. destruct blocks as [|b rest]; [done|].
    exists b. split; [symmetry; apply Hall|]; by left.
Qed.

(** Without H1, H2 and H3 no fragment gets a level. *)
Lemma headings_loop_no_tier (fh : gmap string Qc) text_blocks headings :
  fh !! "H1" = None → fh !! "H2" = None → fh !! "H3" = None →
  App.headings_loop self fh text_blocks headings = headings.
Proof.
  intros H1 H2 H3. revert headings.
  induction text_blocks as [|block rest IH]; intros headings; [done|].
  cbn [App.headings_loop]. cbv zeta.
  destruct (negb _); [apply IH|].
  unfold heading_level. rewrite H1, H2, H3.
  rewrite !bool_decide_eq_false_2 by done. apply IH.
Qed.

End SingleSize.

(** C4.  When all fragments have one font size, the hierarchy has no H1,
    H2 or H3 and [extract_headings] returns the empty list; with at least
    one fragment the hierarchy is exactly the title tier at that size. *)
Theorem C4_single_size_has_title_tier_only
  (self : App.PDFOutlineExtractor) (blocks : list App.TextBlock)
  (x : Qc) :
  (∀ b, b ∈ blocks → App.font_size b = x) →
  let fh := App.analyze_font_hierarchy self blocks in
  fh !! "H1" = None ∧ fh !! "H2" = None ∧ fh !! "H3" = None
  ∧ (blocks ≠ [] → fh = {["title" := x]})
  ∧ App.extract_headings self blocks fh = [].
Proof.
  intros Hall fh.
  assert (fh = ∅ ∨ fh = {["title" := x]}) as Hfh.
  { subst fh. unfold App.analyze_font_hierarchy. cbv zeta.
    destruct blocks as [|b rest]; [by left|]. right.
    rewrite (sizes_singleton (b :: rest) x) by done.
    by rewrite sorted_reverse_singleton, assign_tiers_one. }
  assert (fh !! "H1" = None ∧ fh !! "H2" = None ∧ fh !! "H3" = None)
    as (H1 & H2 & H3) by (destruct Hfh as [-> | ->]; done).
  split_and!; try done.
  - intros Hne. destruct Hfh as [Hfh|Hfh]; [|done].
    destruct blocks as [|b rest]; [done|]. exfalso.
    subst fh. unfold App.analyze_font_hierarchy in Hfh. cbv zeta in Hfh.
    rewrite (sizes_singleton (b :: rest) x) in Hfh by done.
    rewrite sorted_reverse_singleton, assign_tiers_one in Hfh.
    by apply (map_non_empty_singleton "title" x).
  - by apply headings_loop_no_tier.
Qed.

Lemma C4_single_size_has_title_tier_only_witness :
  let blocks := App.extract_text_blocks App.init Samples.single_size in
  let fh := App.analyze_font_hierarchy App.init blocks in
  (∀ b, b ∈ blocks → App.font_size b = Qc_of_Z 12)
  ∧ fh = {["title" := Qc_of_Z 12]}
  ∧ App.extract_headings App.init blocks fh = [].
Proof.
  intros blocks fh.
  assert (∀ b, b ∈ blocks → App.font_size b = Qc_of_Z 12) as Hall.
  { intros b Hb. vm_compute in Hb.
    repeat (apply elem_of_cons in Hb as [->|Hb]; [reflexivity|]).
    by apply elem_of_nil in Hb. }
  split; [exact Hall|].
  destruct (C4_single_size_has_title_tier_only App.init blocks _ Hall)
    as (_ & _ & _ & Hfh & Hnone).
  split; [by apply Hfh|exact Hnone].
Defined.

(** ** The synthetic document of the specification *)

Lemma C6_counterexample :
  let blocks := App.extract_text_blocks App.init Samples.synthetic in
  ¬ (App.extract_outline App.init Samples.synthetic "/app/input/doc.pdf"
     = {| Out.title := "Doc Title";
          Out.outline :=
            [ {| Out.level := "H1"; Out.text := "Introduction";
                 Out.page := 1 |};
              {| Out.level := "H2"; Out.text := "Background.";
                 Out.page := 2 |} ] |}
     ∧ size (list_to_set (App.font_size <$> blocks) : gset Qc) = 3%nat
     ∧ App.analyze_font_hierarchy App.init blocks !! "H3" = None).
Proof. intros blocks (_ & Hsize & _). vm_compute in Hsize. discriminate. Qed.

(** C6 (amended).  For the four-fragment document, and any path,
    [extract_outline] returns the title "Doc Title" and the outline
    H1 "Introduction" on page 1, H2 "Background." on page 2.  The
    fragment "Page 3" is rejected by the structural gate, and by it
    alone: the document has four distinct sizes, so the hierarchy binds
    H3 to size 10, the size of that fragment. *)
Theorem C6_synthetic_document (pdf_path : string) :
  let blocks := App.extract_text_blocks App.init Samples.synthetic in
  let fh := App.analyze_font_hierarchy App.init blocks in
  App.extract_outline App.init Samples.synthetic pdf_path
  = {| Out.title := "Doc Title";
       Out.outline :=
         [ {| Out.level := "H1"; Out.text := "Introduction";
              Out.page := 1 |};
           {| Out.level := "H2"; Out.text := "Background.";
              Out.page := 2 |} ] |}
  ∧ App.is_potential_heading App.init "Page 3" (Qc_of_Z 10) 0 = false
  ∧ size (list_to_set (App.font_size <$> blocks) : gset Qc) = 4%nat
  ∧ fh = <["H3" := Qc_of_Z 10]> (<["H2" := Qc_of_Z 14]>
           (<["H1" := Qc_of_Z 18]> {["title" := Qc_of_Z 24]}))
  ∧ heading_level (Qc_of_Z 10) fh = Some "H3".
Proof.
  intros blocks fh.
  assert (fh = <["H3" := Qc_of_Z 10]> (<["H2" := Qc_of_Z 14]>
                 (<["H1" := Qc_of_Z 18]> {["title" := Qc_of_Z 24]})))
    as Hfh.
  { subst fh. unfold App.analyze_font_hierarchy. cbv zeta.
    rewrite <- assign_tiers_four with (rest := []). f_equal.
    vm_compute.
    repeat (apply (f_equal2 (@cons Qc)); [by apply Qc_is_canon|]). done. }
  split_and!; [vm_compute; reflexivity.. | exact Hfh | ].
  rewrite Hfh. vm_compute. reflexivity.
Qed.

(** ** The title *)

Section Title.
Variable self : App.PDFOutlineExtractor.

Lemma is_potential_heading_nonempty text fs fl :
  App.is_potential_heading self text fs fl = true → text ≠ "".
Proof.
  intros Hgate ->. unfold App.is_potential_heading in Hgate.
  destruct (_ || _); [done|]. by vm_compute in Hgate.
Qed.

Lemma first_title_find title_size text_blocks :
  App.first_title self title_size text_blocks
  = match list_find (Spec.title_test self title_size) text_blocks with
    | Some (_, block) => App.text block
    | None => ""
    end.
Proof.
  induction text_blocks as [|block rest IH]; [done|].
  cbn [App.first_title list_find]. rewrite IH.
  destruct (decide (Spec.title_test self title_size block)) as [Hq|Hq].
  - destruct Hq as (Hs & Hp & Hg).
    rewrite bool_decide_eq_true_2 by done.
    rewrite Hg, (proj2 (Z.eqb_eq _ _) Hp). done.
  - destruct (list_find _ rest) as [[i b]|]; simpl.
    all: case_bool_decide as Hs; simpl; [|done].
    all: destruct (Z.eqb_spec (App.page block) 1) as [Hp|Hp];
      simpl; [|done].
    all: destruct (App.is_potential_heading _ _ _ _) eqn:Hg; [|done].
    all: by destruct Hq.
Qed.

Lemma analyze_nonempty (text_blocks : list App.TextBlock) :
  text_blocks ≠ [] →
  ∃ t, App.analyze_font_hierarchy self text_blocks !! "title" = Some t.
Proof.
  intros Hne. unfold App.analyze_font_hierarchy. cbv zeta.
  set (sizes := list_to_set (App.font_size <$> text_blocks) : gset Qc).
  destruct (sorted_reverse sizes) as [|t rest] eqn:Hsr.
  - destruct text_blocks as [|b bs]; [done|].
    assert (App.font_size b ∈ sorted_reverse sizes) as Hin.
    { apply sorted_reverse_elem_of. subst sizes.
      rewrite fmap_cons, list_to_set_cons. set_solver. }
    rewrite Hsr in Hin. by apply elem_of_nil in Hin.
  - exists t. apply assign_tiers_title.
Qed.

Lemma analyze_empty :
  App.analyze_font_hierarchy self [] = ∅.
Proof.
  unfold App.analyze_font_hierarchy. cbv zeta.
  rewrite fmap_nil, list_to_set_nil, sorted_reverse_empty. done.
Qed.

End Title.

(** ** The two pipelines *)

Section IgnoreCase.
Import Re.

Lemma existsb_caseless items c :
  Forall atom_caseless items →
  existsb (λ a, atom_matches true a c) items
  = existsb (λ a, atom_matches false a c) items.
Proof.
  induction 1 as [|a items Ha _ IH]; [done|]. simpl. by rewrite Ha, IH.
Qed.

Lemma deriv_caseless ic bol rest c r :
  caseless r → caseless (deriv ic bol rest c r).
Proof.
  induction r as [| | | |a|items|r1 IH1 r2 IH2|r1 IH1 r2 IH2|r1 IH1];
    simpl; try done.
  - by destruct (atom_matches _ _ _).
  - by destruct (existsb _ _).
  - intros [H1 H2]. destruct (nullable _ _ _); simpl; auto.
  - intros [H1 H2]. auto.
  - auto.
Qed.

Lemma deriv_ignorecase bol rest c r :
  caseless r → deriv true bol rest c r = deriv false bol rest c r.
Proof.
  induction r as [| | | |a|items|r1 IH1 r2 IH2|r1 IH1 r2 IH2|r1 IH1];
    simpl; try done.
  - intros Ha. by rewrite Ha.
  - intros Hitems. by rewrite existsb_caseless.
  - intros [H1 H2]. by rewrite IH1, IH2.
  - intros [H1 H2]. by rewrite IH1, IH2.
  - intros H1. by rewrite IH1.
Qed.

Lemma match_from_ignorecase bol r s :
  caseless r → match_from true bol r s = match_from false bol r s.
Proof.
  revert bol r. induction s as [|c s IH]; intros bol r Hr; [done|].
  cbn [match_from]. rewrite deriv_ignorecase by done.
  rewrite IH; [done|]. by apply deriv_caseless.
Qed.

Lemma lit_caseless (x : ascii) :
  Py.is_upper x = false → Py.is_lower x = false →
  (∀ c, Py.is_upper c = true → Py.to_lower c ≠ x) →
  atom_caseless (Lit x).
Proof.
  intros Hu Hl Hx c. unfold atom_matches, Py.to_lower at 1. rewrite Hu.
  unfold Py.to_lower. destruct (Py.is_upper c) eqn:Hc; [|done].
  rewrite (proj2 (Ascii.eqb_neq _ _)).
  - symmetry. apply Ascii.eqb_neq. intros <-. congruence.
  - intros Heq. apply (Hx c Hc). unfold Py.to_lower. by rewrite Hc.
Qed.

(** Lower-casing an upper-case letter gives a lower-case letter. *)
Lemma to_lower_is_lower c :
  Py.is_upper c = true → Py.is_lower (Py.to_lower c) = true.
Proof. destruct c as [[] [] [] [] [] [] [] []]; vm_compute; done. Qed.

Lemma uncased_lit_caseless (x : ascii) :
  Py.is_upper x = false → Py.is_lower x = false → atom_caseless (Lit x).
Proof.
  intros Hu Hl. apply lit_caseless; [done..|].
  intros c Hc <-. apply to_lower_is_lower in Hc. congruence.
Qed.

Lemma numbers_only_caseless : caseless App.numbers_only.
Proof.
  unfold App.numbers_only, Cat, Plus. simpl.
  assert (Forall atom_caseless
            [ClsD; ClsS; Lit "."; Lit "-"; Lit "("; Lit ")"]) as Hset.
  { repeat (apply Forall_cons; split); try apply Forall_nil;
      first [done | by apply uncased_lit_caseless]. }
  split_and!; done.
Qed.

Lemma numbers_only_ignorecase text :
  match_ App.numbers_only text true = match_ App.numbers_only text false.
Proof. apply match_from_ignorecase, numbers_only_caseless. Qed.

End IgnoreCase.

(** The class-based gate is the function-based gate together with the
    rule on endings and capitals. *)
Lemma is_potential_heading_is_valid_heading text (fs : Qc) (fl : Z) :
  App.is_potential_heading App.init text fs fl
  = Simple.is_valid_heading text && Spec.punctuated_or_capitalised text.
Proof.
  unfold App.is_potential_heading, Simple.is_valid_heading,
    Spec.punctuated_or_capitalised.
  change (App.min_heading_length App.init) with 3.
  change (App.max_heading_length App.init) with 200.
  destruct (_ || _); [done|].
  change Simple.non_heading_patterns
    with (App.non_heading_patterns ++ [App.numbers_only]).
  rewrite existsb_app. cbn [existsb]. rewrite numbers_only_ignorecase.
  destruct (Re.match_ App.numbers_only text false),
    (existsb _ App.non_heading_patterns),
    (existsb _ App.heading_endings), (Py.isupper text), (Py.istitle text);
    done.
Qed.

Section Pipelines.

Lemma fmap_bind_comm {A B C} (g : B → C) (f : A → list B) (l : list A) :
  g <$> (l ≫= f) = l ≫= (λ x, g <$> f x).
Proof.
  induction l as [|x l IH]; [done|].
  by rewrite !bind_cons, fmap_app, IH.
Qed.

Lemma fmap_mjoin_comm {A B} (g : A → B) (ls : list (list A)) :
  g <$> mjoin ls = mjoin (fmap g <$> ls).
Proof.
  induction ls as [|l ls IH]; [done|]. simpl. by rewrite fmap_app, IH.
Qed.

Lemma block_of_span_simple page_num span :
  Simple.block_of_span page_num span
  = Spec.to_simple <$> App.block_of_span App.init page_num span.
Proof.
  unfold Simple.block_of_span, App.block_of_span. cbv zeta.
  change (App.min_heading_length App.init) with 3.
  by destruct (_ && _).
Qed.

Lemma blocks_of_page_simple page_num blocks :
  Simple.blocks_of_page page_num blocks
  = Spec.to_simple <$> App.blocks_of_page App.init page_num blocks.
Proof.
  unfold Simple.blocks_of_page, App.blocks_of_page.
  rewrite fmap_bind_comm. apply list_bind_ext; [|done]. intros block.
  destruct (_ =? _); [|done].
  rewrite fmap_bind_comm. apply list_bind_ext; [|done]. intros line.
  rewrite fmap_bind_comm. apply list_bind_ext; [|done]. intros span.
  apply block_of_span_simple.
Qed.

Lemma text_blocks_simple pages :
  mjoin (imap Simple.blocks_of_page pages)
  = Spec.to_simple <$> App.extract_text_blocks App.init (Some pages).
Proof.
  unfold App.extract_text_blocks. rewrite fmap_mjoin_comm, fmap_imap.
  f_equal. apply imap_ext. intros i page _. apply blocks_of_page_simple.
Qed.

Lemma font_sizes_simple (blocks : list App.TextBlock) :
  Simple.font_size <$> (Spec.to_simple <$> blocks) = App.font_size <$> blocks.
Proof. by rewrite <- list_fmap_compose. Qed.

End Pipelines.

Lemma C1_counterexample :
  App.extract_outline App.init Samples.lower_case_heading
    "/app/input/report.pdf"
  ≠ Simple.extract_pdf_outline Samples.lower_case_heading
      "/app/input/report.pdf"
  ∧ App.is_potential_heading App.init "summary of results" (Qc_of_Z 18) 0
    ≠ Simple.is_valid_heading "summary of results".
Proof. split; vm_compute; discriminate. Qed.

(** With a largest font size of zero the titles differ as well:
    [if title_size:] skips the search for a title. *)
Lemma zero_title_size_differs :
  Out.title (App.extract_outline App.init Samples.zero_size
               "/app/input/report.pdf") = "Annual Report"
  ∧ Out.title (Simple.extract_pdf_outline Samples.zero_size
                 "/app/input/report.pdf") = "report".
Proof. split; vm_compute; reflexivity. Qed.

(** * Further properties *)

(** ** Text extraction *)

Section Strip.
Implicit Types (s : string) (c : ascii).

Lemma lstrip_first_char s c :
  Derived.first_char (Py.lstrip s) = Some c → Py.is_space c = false.
Proof.
  induction s as [|a s IH]; [done|]. cbn [Py.lstrip].
  destruct (Py.is_space a) eqn:Ha; [done|]. by intros [= <-].
Qed.

Lemma rstrip_last_char s c :
  Py.last_char (Py.rstrip s) = Some c → Py.is_space c = false.
Proof.
  induction s as [|a s IH]; [done|]. cbn [Py.rstrip].
  destruct (Py.rstrip s) as [|b r].
  - destruct (Py.is_space a) eqn:Ha; [done|]. by intros [= <-].
  - exact IH.
Qed.

Lemma rstrip_first_char s c :
  Derived.first_char (Py.rstrip s) = Some c → Derived.first_char s = Some c.
Proof.
  destruct s as [|a s]; [done|]. cbn [Py.rstrip].
  destruct (Py.rstrip s); [|done]. by destruct (Py.is_space a).
Qed.

Lemma strip_trimmed s : Derived.trimmed (Py.strip s).
Proof.
  split; intros c Hc.
  - apply rstrip_first_char in Hc. by eapply lstrip_first_char.
  - by eapply rstrip_last_char.
Qed.

Lemma lstrip_trimmed s : Derived.trimmed s → Py.lstrip s = s.
Proof.
  intros [Hfirst _]. destruct s as [|a s]; [done|].
  cbn [Py.lstrip]. by rewrite (Hfirst a).
Qed.

Lemma rstrip_trimmed s : Derived.trimmed s → Py.rstrip s = s.
Proof.
  intros [_ Hlast]. induction s as [|a s IH]; [done|].
  cbn [Py.rstrip]. destruct s as [|b t].
  - cbn [Py.rstrip]. by rewrite (Hlast a).
  - rewrite IH; [done|]. intros c Hc. by apply Hlast.
Qed.

Lemma strip_fixed s : Derived.trimmed s → Py.strip s = s.
Proof.
  intros Hs. unfold Py.strip. rewrite (lstrip_trimmed s Hs).
  by apply rstrip_trimmed.
Qed.

End Strip.

Section Extraction.
Variable self : App.PDFOutlineExtractor.

(** Where the fragments of a page come from. *)
Lemma elem_of_blocks_of_page (b : App.TextBlock) page_num page :
  b ∈ App.blocks_of_page self page_num page ↔
  ∃ block line span,
    block ∈ page ∧ Fitz.block_type block = 0
    ∧ line ∈ Fitz.block_lines block ∧ span ∈ line
    ∧ b ∈ App.block_of_span self page_num span.
Proof.
  unfold App.blocks_of_page. rewrite list_elem_of_bind. split.
  - intros (block & Hb & Hblock).
    destruct (Z.eqb_spec (Fitz.block_type block) 0) as [Ht|Ht];
      [|by apply elem_of_nil in Hb].
    apply list_elem_of_bind in Hb as (line & Hb & Hline).
    apply list_elem_of_bind in Hb as (span & Hb & Hspan).
    by exists block, line, span.
  - intros (block & line & span & Hblock & Ht & Hline & Hspan & Hb).
    exists block. split; [|done]. rewrite Ht. cbn [Z.eqb].
    apply list_elem_of_bind. exists line. split; [|done].
    apply list_elem_of_bind. by exists span.
Qed.

Lemma elem_of_block_of_span (b : App.TextBlock) page_num span :
  b ∈ App.block_of_span self page_num span →
  App.text b = Py.strip (Fitz.span_text span)
  ∧ App.text b ≠ ""
  ∧ App.min_heading_length self ≤ Py.len (App.text b)
  ∧ App.font_size b = Fitz.span_size span
  ∧ App.flags b = Fitz.span_flags span
  ∧ App.page b = Z.of_nat page_num + 1.
Proof.
  unfold App.block_of_span. cbv zeta.
  destruct (String.eqb_spec (Py.strip (Fitz.span_text span)) "") as [He|He];
    cbn [negb andb]; [by intros ?%elem_of_nil|].
  destruct (Z.leb_spec (App.min_heading_length self)
              (Py.len (Py.strip (Fitz.span_text span)))) as [Hl|Hl];
    [|by intros ?%elem_of_nil].
  intros ->%list_elem_of_singleton. done.
Qed.

Lemma elem_of_extract_text_blocks (b : App.TextBlock) doc :
  b ∈ App.extract_text_blocks self doc ↔
  ∃ pages i page,
    doc = Some pages ∧ pages !! i = Some page
    ∧ b ∈ App.blocks_of_page self i page.
Proof.
  destruct doc as [pages|]; cbn [App.extract_text_blocks].
  - rewrite list_elem_of_join. split.
    + intros (l & Hb & Hl).
      apply elem_of_lookup_imap in Hl as (i & page & -> & Hi).
      by exists pages, i, page.
    + intros (pages' & i & page & [= <-] & Hi & Hb).
      exists (App.blocks_of_page self i page). split; [done|].
      by apply elem_of_lookup_imap_2.
  - split; [by intros ?%elem_of_nil|]. by intros (? & ? & ? & [=] & _).
Qed.

End Extraction.

(** X1.  Every fragment that [extract_text_blocks] returns has a text
    that is stripped (stripping it again changes nothing; its first and
    last characters are not white space), not empty and at least
    [min_heading_length] long, and a page number between 1 and the number
    of pages of the document. *)
Theorem X1_extracted_fragments_are_trimmed
  (self : App.PDFOutlineExtractor) (doc : Fitz.Document)
  (b : App.TextBlock) :
  b ∈ App.extract_text_blocks self doc →
  Py.strip (App.text b) = App.text b
  ∧ Derived.trimmed (App.text b)
  ∧ App.text b ≠ ""
  ∧ App.min_heading_length self ≤ Py.len (App.text b)
  ∧ 1 ≤ App.page b ≤ Derived.page_count doc.
Proof.
  intros (pages & i & page & -> & Hi & Hb)%elem_of_extract_text_blocks.
  apply elem_of_blocks_of_page in Hb
    as (block & line & span & _ & _ & _ & _ & Hb).
  apply elem_of_block_of_span in Hb as (Ht & Hne & Hlen & _ & _ & Hp).
  assert (Derived.trimmed (App.text b)) as Htrim
    by (rewrite Ht; apply strip_trimmed).
  split_and!; [by apply strip_fixed|done..| |].
  - lia.
  - apply lookup_lt_Some in Hi. cbn [Derived.page_count]. lia.
Qed.

Lemma X1_extracted_fragments_are_trimmed_witness :
  let b := {| App.text := "Background."; App.font_size := Qc_of_Z 14;
              App.font_name := "Helvetica"; App.flags := 0; App.page := 2;
              App.bbox := (0, 0, 0, 0)%Qc |} in
  b ∈ App.extract_text_blocks App.init Samples.synthetic
  ∧ Py.strip (App.text b) = App.text b
  ∧ 1 ≤ App.page b ≤ Derived.page_count Samples.synthetic.
Proof.
  intros b.
  assert (b ∈ App.extract_text_blocks App.init Samples.synthetic) as Hb.
  { vm_compute. do 2 right. left. }
  split; [exact Hb|].
  destruct (X1_extracted_fragments_are_trimmed _ _ _ Hb)
    as (Hs & _ & _ & _ & Hp).
  by split.
Defined.

Section PageOrder.
Variable self : App.PDFOutlineExtractor.

Lemma block_of_span_shift (n i : nat) span :
  App.block_of_span self (n + i) span
  = Derived.shift_page n <$> App.block_of_span self i span.
Proof.
  unfold App.block_of_span. cbv zeta. destruct (_ && _); [|done].
  cbn [fmap list_fmap]. unfold Derived.shift_page. cbn.
  do 2 f_equal. lia.
Qed.

Lemma blocks_of_page_shift (n i : nat) page :
  App.blocks_of_page self (n + i) page
  = Derived.shift_page n <$> App.blocks_of_page self i page.
Proof.
  unfold App.blocks_of_page.
  rewrite fmap_bind_comm. apply list_bind_ext; [|done]. intros block.
  destruct (_ =? _); [|done].
  rewrite fmap_bind_comm. apply list_bind_ext; [|done]. intros line.
  rewrite fmap_bind_comm. apply list_bind_ext; [|done]. intros span.
  apply block_of_span_shift.
Qed.

Lemma mjoin_app {A} (ls1 ls2 : list (list A)) :
  mjoin (ls1 ++ ls2) = mjoin ls1 ++ mjoin ls2.
Proof.
  induction ls1 as [|l ls1 IH]; [done|]. simpl. by rewrite IH, app_assoc.
Qed.

Lemma extract_text_blocks_app pages1 pages2 :
  App.extract_text_blocks self (Some (pages1 ++ pages2))
  = App.extract_text_blocks self (Some pages1)
    ++ (Derived.shift_page (length pages1)
        <$> App.extract_text_blocks self (Some pages2)).
Proof.
  cbn [App.extract_text_blocks]. rewrite imap_app, mjoin_app. f_equal.
  rewrite fmap_mjoin_comm, fmap_imap. f_equal.
  apply imap_ext. intros i page _. apply blocks_of_page_shift.
Qed.

Lemma blocks_of_page_page (b : App.TextBlock) i page :
  b ∈ App.blocks_of_page self i page → App.page b = Z.of_nat i + 1.
Proof.
  intros (block & line & span & _ & _ & _ & _ & Hb)%elem_of_blocks_of_page.
  by apply elem_of_block_of_span in Hb as (_ & _ & _ & _ & _ & Hp).
Qed.

Lemma same_page_sorted (l : list App.TextBlock) (c : Z) :
  (∀ b, b ∈ l → App.page b = c) →
  StronglySorted (λ b1 b2, App.page b1 ≤ App.page b2) l.
Proof.
  intros Hc. induction l as [|b l IH]; constructor.
  - apply IH. intros b' Hb'. apply Hc. by right.
  - apply Forall_forall. intros b' Hb'.
    rewrite (Hc b) by left. rewrite (Hc b') by (by right). done.
Qed.

Lemma extract_text_blocks_sorted pages :
  StronglySorted (λ b1 b2, App.page b1 ≤ App.page b2)
    (App.extract_text_blocks self (Some pages)).
Proof.
  induction pages as [|page pages IH] using rev_ind; [constructor|].
  rewrite extract_text_blocks_app. apply StronglySorted_app. split_and!.
  - intros b1 b2 Hb1 Hb2.
    apply list_elem_of_fmap in Hb2 as (b & -> & Hb).
    apply elem_of_extract_text_blocks in Hb1
      as (? & i & p & [= <-] & Hi & Hb1).
    apply blocks_of_page_page in Hb1. apply lookup_lt_Some in Hi.
    assert (1 ≤ App.page b).
    { apply elem_of_extract_text_blocks in Hb
        as (? & j & q & _ & _ & Hb).
      apply blocks_of_page_page in Hb. lia. }
    cbn [Derived.shift_page App.page]. lia.
  - exact IH.
  - apply same_page_sorted with (c := Z.of_nat (length pages) + 1).
    intros b' (b & -> & Hb)%list_elem_of_fmap.
    apply elem_of_extract_text_blocks in Hb as (? & j & q & [= <-] & Hj & Hb).
    apply blocks_of_page_page in Hb.
    apply list_lookup_singleton_Some in Hj as [-> _].
    cbn [Derived.shift_page App.page]. lia.
Qed.

Lemma blocks_of_page_text_only i page :
  App.blocks_of_page self i (Derived.text_blocks_only page)
  = App.blocks_of_page self i page.
Proof.
  unfold App.blocks_of_page.
  induction page as [|block page IH]; [done|].
  unfold Derived.text_blocks_only in *. cbn [List.filter].
  rewrite (bind_cons _ block page).
  destruct (Fitz.block_type block =? 0) eqn:Ht.
  - by rewrite bind_cons, IH, Ht.
  - by rewrite IH.
Qed.

End PageOrder.

(** X2.  The fragments come out in page order: along the list returned
    by [extract_text_blocks] the page numbers never decrease. *)
Theorem X2_fragments_in_page_order
  (self : App.PDFOutlineExtractor) (doc : Fitz.Document) :
  StronglySorted (λ b1 b2, App.page b1 ≤ App.page b2)
    (App.extract_text_blocks self doc)
  ∧ (∀ (i j : nat) b1 b2,
       App.extract_text_blocks self doc !! i = Some b1 →
       App.extract_text_blocks self doc !! j = Some b2 →
       (i < j)%nat → App.page b1 ≤ App.page b2).
Proof.
  assert (StronglySorted (λ b1 b2, App.page b1 ≤ App.page b2)
            (App.extract_text_blocks self doc)) as Hs.
  { destruct doc as [pages|]; [apply extract_text_blocks_sorted|].
    constructor. }
  split; [exact Hs|]. intros i j b1 b2 Hi Hj Hlt.
  revert Hs i j Hi Hj Hlt.
  generalize (App.extract_text_blocks self doc). intros l Hs.
  induction Hs as [|b l Hs IH Hall]; intros i j Hi Hj Hlt; [done|].
  destruct j as [|j]; [lia|]. destruct i as [|i]; simplify_eq/=.
  - rewrite Forall_forall in Hall. apply Hall.
    by eapply list_elem_of_lookup_2.
  - eapply IH; [done..|lia].
Qed.

(** X3.  Reading a document made of the pages of one document followed
    by the pages of another gives the fragments of the first followed by
    the fragments of the second, the page numbers of the latter shifted
    by the number of pages of the first. *)
Theorem X3_extraction_of_concatenated_pages
  (self : App.PDFOutlineExtractor) (pages1 pages2 : list Fitz.Page) :
  App.extract_text_blocks self (Some (pages1 ++ pages2))
  = App.extract_text_blocks self (Some pages1)
    ++ (Derived.shift_page (length pages1)
        <$> App.extract_text_blocks self (Some pages2)).
Proof. apply extract_text_blocks_app. Qed.

(** X4.  Blocks whose type is not 0 (images) contribute nothing: a
    document and the same document without these blocks give the same
    fragments, hence the same outline. *)
Theorem X4_non_text_blocks_are_ignored
  (self : App.PDFOutlineExtractor) (pages : list Fitz.Page)
  (pdf_path : string) :
  App.extract_text_blocks self (Some (Derived.text_blocks_only <$> pages))
  = App.extract_text_blocks self (Some pages)
  ∧ App.extract_outline self (Some (Derived.text_blocks_only <$> pages))
      pdf_path
    = App.extract_outline self (Some pages) pdf_path.
Proof.
  assert (App.extract_text_blocks self
            (Some (Derived.text_blocks_only <$> pages))
          = App.extract_text_blocks self (Some pages)) as Heq.
  { cbn [App.extract_text_blocks]. rewrite imap_fmap. f_equal.
    apply imap_ext. intros i page _. apply blocks_of_page_text_only. }
  split; [exact Heq|]. unfold App.extract_outline. by rewrite Heq.
Qed.

(** ** The font hierarchy *)

Section Tiers.
Implicit Types (l : list Qc) (x y : Qc).

Lemma assign_tiers_lookup l :
  assign_tiers l !! "title" = l !! 0%nat
  ∧ assign_tiers l !! "H1" = l !! 1%nat
  ∧ assign_tiers l !! "H2" = l !! 2%nat
  ∧ assign_tiers l !! "H3" = l !! 3%nat
  ∧ (∀ k, is_Some (assign_tiers l !! k) →
          k ∈ ["title"; "H1"; "H2"; "H3"]).
Proof.
  unfold assign_tiers, assign_tier.
  destruct l as [|a [|b [|c [|d rest]]]]; cbn [lookup list_lookup];
    (split_and!; [by simplify_map_eq..|]);
    intros k [v Hk];
    repeat (apply lookup_insert_Some in Hk as [[<- _]|[_ Hk]];
            [set_solver|]);
    by rewrite lookup_empty in Hk.
Qed.

(** Positions in a strictly descending list. *)
Lemma descending_lookup l (i j : nat) x y :
  StronglySorted (λ a b, (b < a)%Qc) l →
  l !! i = Some x → l !! j = Some y → (i < j)%nat → (y < x)%Qc.
Proof.
  intros Hs. revert i j.
  induction Hs as [|a l Hs IH Hall]; intros i j Hi Hj Hlt; [done|].
  destruct j as [|j]; [lia|]. destruct i as [|i]; simplify_eq/=.
  - rewrite Forall_forall in Hall. apply Hall.
    by eapply list_elem_of_lookup_2.
  - eapply IH; [done..|lia].
Qed.

Lemma descending_next l (i : nat) x y z :
  StronglySorted (λ a b, (b < a)%Qc) l →
  l !! i = Some x → l !! S i = Some y →
  (y < x)%Qc ∧ (z ∈ l → (z < x)%Qc → (z ≤ y)%Qc).
Proof.
  intros Hs Hi HSi.
  split; [eapply (descending_lookup l i (S i)); [done..|lia]|].
  intros [k Hk]%list_elem_of_lookup Hlt.
  destruct (decide (k ≤ i)%nat) as [Hle|Hgt].
  - exfalso. destruct (decide (k = i)) as [->|Hne].
    + simplify_eq. by apply Qclt_not_eq in Hlt.
    + assert (x < z)%Qc
        by (eapply (descending_lookup l k i); [done..|lia]).
      eapply Qclt_not_le; [exact Hlt|]. by apply Qclt_le_weak.
  - destruct (decide (k = S i)) as [->|Hne].
    + simplify_eq. apply Qcle_refl.
    + apply Qclt_le_weak.
      eapply (descending_lookup l (S i) k); [done..|lia].
Qed.

Lemma descending_first l x z :
  StronglySorted (λ a b, (b < a)%Qc) l →
  l !! 0%nat = Some x → z ∈ l → (z ≤ x)%Qc.
Proof.
  intros Hs H0 [k Hk]%list_elem_of_lookup. destruct k as [|k].
  - simplify_eq. apply Qcle_refl.
  - apply Qclt_le_weak.
    eapply (descending_lookup l 0 (S k)); [done..|lia].
Qed.

End Tiers.

(** X5.  The hierarchy has as many tiers as the document has distinct
    font sizes, up to four, filled in the order title, H1, H2, H3; it has
    no other key. *)
Theorem X5_tiers_follow_number_of_sizes
  (self : App.PDFOutlineExtractor) (blocks : list App.TextBlock) :
  let fh := App.analyze_font_hierarchy self blocks in
  let n := size (list_to_set (App.font_size <$> blocks) : gset Qc) in
  (is_Some (fh !! "title") ↔ (1 ≤ n)%nat)
  ∧ (is_Some (fh !! "H1") ↔ (2 ≤ n)%nat)
  ∧ (is_Some (fh !! "H2") ↔ (3 ≤ n)%nat)
  ∧ (is_Some (fh !! "H3") ↔ (4 ≤ n)%nat)
  ∧ (∀ k, is_Some (fh !! k) → k ∈ ["title"; "H1"; "H2"; "H3"]).
Proof.
  intros fh n. subst fh n. unfold App.analyze_font_hierarchy. cbv zeta.
  set (sizes := list_to_set (App.font_size <$> blocks) : gset Qc).
  rewrite <- (sorted_reverse_length sizes).
  destruct (assign_tiers_lookup (sorted_reverse sizes))
    as (-> & -> & -> & -> & Hk).
  rewrite !lookup_lt_is_Some. split_and!; [lia..|exact Hk].
Qed.

(** X6.  Whatever the number of sizes, the tiers are ranked: the title
    size is a size of the document and the largest one; each of H1, H2,
    H3, when set, is a size of the document, strictly below the tier
    before it, and the largest size strictly below that tier. *)
Theorem X6_tiers_are_the_largest_sizes_in_order
  (self : App.PDFOutlineExtractor) (blocks : list App.TextBlock) :
  let fh := App.analyze_font_hierarchy self blocks in
  let sizes := App.font_size <$> blocks in
  (∀ t, fh !! "title" = Some t →
        t ∈ sizes ∧ ∀ x, x ∈ sizes → (x ≤ t)%Qc)
  ∧ (∀ upper lower, 
       (fh !! "title" = Some upper ∧ fh !! "H1" = Some lower)
       ∨ (fh !! "H1" = Some upper ∧ fh !! "H2" = Some lower)
       ∨ (fh !! "H2" = Some upper ∧ fh !! "H3" = Some lower) →
       lower ∈ sizes ∧ (lower < upper)%Qc
       ∧ ∀ x, x ∈ sizes → (x < upper)%Qc → (x ≤ lower)%Qc).
Proof.
  intros fh sizes. subst fh. unfold App.analyze_font_hierarchy. cbv zeta.
  fold sizes. set (s := list_to_set sizes : gset Qc).
  pose proof (sorted_reverse_sorted s) as Hs.
  assert (∀ x, x ∈ sorted_reverse s ↔ x ∈ sizes) as Hmem.
  { intros x. rewrite sorted_reverse_elem_of. apply elem_of_list_to_set. }
  destruct (assign_tiers_lookup (sorted_reverse s))
    as (-> & -> & -> & -> & _).
  split.
  - intros t Ht. split.
    + apply Hmem. by eapply list_elem_of_lookup_2.
    + intros x Hx. eapply descending_first; [done..|]. by apply Hmem.
  - intros upper lower Hul.
    assert (∃ i : nat, sorted_reverse s !! i = Some upper
                       ∧ sorted_reverse s !! S i = Some lower)
      as (i & Hi & HSi) by (destruct Hul as [[??]|[[??]|[??]]]; eauto).
    split; [apply Hmem; by eapply list_elem_of_lookup_2|].
    split; [by eapply (descending_next _ i upper lower lower)|].
    intros x Hx Hlt. apply Hmem in Hx.
    by eapply (descending_next _ i upper lower x).
Qed.

(** ** The ranking by frequency *)

Section Frequency.
Implicit Types (x y : Qc) (sizes : list Qc) (counts : gmap Qc Z).

Lemma count_sizes_lookup sizes counts x :
  foldl App.count_size counts sizes !! x
  = if decide (x ∈ sizes)
    then Some (default 0 (counts !! x) + Derived.occurrences x sizes)
    else counts !! x.
Proof.
  revert counts. unfold Derived.occurrences.
  induction sizes as [|a sizes IH]; intros counts.
  - rewrite decide_False by apply not_elem_of_nil. done.
  - cbn [foldl]. rewrite IH. unfold App.count_size.
    destruct (decide (a = x)) as [->|Hne].
    + rewrite count_occ_cons_eq by done. rewrite lookup_insert_eq.
      rewrite (decide_True (P := x ∈ x :: sizes)) by left.
      cbn [default]. destruct (decide (x ∈ sizes)) as [Hin|Hout].
      * f_equal; unfold id; lia.
      * assert (count_occ Qc_eq_dec sizes x = 0%nat) as ->.
        { apply count_occ_not_In. by rewrite <- list_elem_of_In. }
        f_equal; unfold id; lia.
    + rewrite count_occ_cons_neq by done.
      rewrite lookup_insert_ne by done.
      destruct (decide (x ∈ sizes)) as [Hin|Hout].
      * by rewrite (decide_True (P := x ∈ a :: sizes)) by (by right).
      * rewrite (decide_False (P := x ∈ a :: sizes)); [done|].
        intros [?|?]%elem_of_cons; by simplify_eq.
Qed.

Lemma count_sizes_dom sizes :
  dom (foldl App.count_size ∅ sizes) = (list_to_set sizes : gset Qc).
Proof.
  apply set_eq. intros x.
  rewrite elem_of_dom, count_sizes_lookup, elem_of_list_to_set.
  destruct (decide (x ∈ sizes)); [by split; eauto|].
  rewrite lookup_empty. split; [by intros [? ?]|done].
Qed.

Local Instance freq_order_total counts :
  Total (λ x y, key_le (freq_key counts x) (freq_key counts y)).
Proof.
  intros x y. unfold key_le, freq_key. cbn [fst snd].
  destruct (Z.lt_trichotomy (- default 0 (counts !! x))
              (- default 0 (counts !! y))) as [?|[Heq|?]]; [tauto| |tauto].
  destruct (total Qcle (- x)%Qc (- y)%Qc); [left|right]; right; by split.
Qed.

Local Instance freq_order_trans counts :
  Transitive (λ x y, key_le (freq_key counts x) (freq_key counts y)).
Proof.
  intros x y z. unfold key_le, freq_key. cbn [fst snd].
  intros [?|[? ?]] [?|[? ?]]; try (left; lia).
  right. split; [lia|]. by etrans.
Qed.

Lemma sorted_by_frequency_sorted counts :
  StronglySorted (λ x y, key_le (freq_key counts x) (freq_key counts y))
    (sorted_by_frequency counts).
Proof. apply StronglySorted_merge_sort; apply _. Qed.

Lemma sorted_by_frequency_Permutation counts :
  sorted_by_frequency counts ≡ₚ elements (dom counts).
Proof. apply merge_sort_Permutation. Qed.

Lemma sorted_lookup {A} (R : relation A) (l : list A) (i j : nat) a b :
  StronglySorted R l → l !! i = Some a → l !! j = Some b → (i < j)%nat →
  R a b.
Proof.
  intros Hs. revert i j.
  induction Hs as [|c l Hs IH Hall]; intros i j Hi Hj Hlt; [done|].
  destruct j as [|j]; [lia|]. destruct i as [|i]; simplify_eq/=.
  - rewrite Forall_forall in Hall. apply Hall.
    by eapply list_elem_of_lookup_2.
  - eapply IH; [done..|lia].
Qed.

End Frequency.

(** X7.  The dead ranking of [analyze_font_hierarchy] does what its
    comment says: [font_size_counts] maps each size of the document to
    the number of fragments that have it and has no other key, and
    [sorted_sizes] lists every distinct size once, a size that occurs
    more often before one that occurs less often and, among sizes that
    occur equally often, the larger one first. *)
Theorem X7_sizes_ranked_by_frequency (blocks : list App.TextBlock) :
  let font_sizes := App.font_size <$> blocks in
  let font_size_counts := foldl App.count_size ∅ font_sizes in
  let sorted_sizes := sorted_by_frequency font_size_counts in
  (∀ x, font_size_counts !! x
        = if decide (x ∈ font_sizes)
          then Some (Derived.occurrences x font_sizes) else None)
  ∧ NoDup sorted_sizes
  ∧ (∀ x, x ∈ sorted_sizes ↔ x ∈ font_sizes)
  ∧ (∀ (i j : nat) x y,
       sorted_sizes !! i = Some x → sorted_sizes !! j = Some y →
       (i < j)%nat →
       Derived.occurrences y font_sizes < Derived.occurrences x font_sizes
       ∨ (Derived.occurrences x font_sizes
          = Derived.occurrences y font_sizes ∧ (y < x)%Qc)).
Proof.
  intros font_sizes font_size_counts sorted_sizes.
  assert (∀ x, font_size_counts !! x
               = if decide (x ∈ font_sizes)
                 then Some (Derived.occurrences x font_sizes) else None)
    as Hcount.
  { intros x. subst font_size_counts. rewrite count_sizes_lookup.
    rewrite lookup_empty. destruct (decide _); [|done].
    cbn [default]. f_equal; lia. }
  assert (NoDup sorted_sizes) as Hnd.
  { subst sorted_sizes. rewrite sorted_by_frequency_Permutation.
    apply NoDup_elements. }
  assert (∀ x, x ∈ sorted_sizes ↔ x ∈ font_sizes) as Hmem.
  { intros x. subst sorted_sizes font_size_counts.
    rewrite sorted_by_frequency_Permutation, elem_of_elements.
    by rewrite count_sizes_dom, elem_of_list_to_set. }
  split_and!; [done..|]. intros i j x y Hi Hj Hlt.
  pose proof (sorted_lookup _ _ i j x y
                (sorted_by_frequency_sorted font_size_counts) Hi Hj Hlt)
    as Hle.
  unfold key_le, freq_key in Hle. cbn [fst snd] in Hle.
  rewrite !Hcount in Hle.
  rewrite !decide_True in Hle
    by (apply Hmem; by eapply list_elem_of_lookup_2).
  cbn [default from_option] in Hle. unfold id in Hle.
  destruct Hle as [Hle|[Heq Hle]]; [left; lia|].
  right. split; [lia|].
  apply Qcopp_le_compat in Hle. rewrite !Qcopp_involutive in Hle.
  destruct (Qcle_lt_or_eq _ _ Hle) as [?| ->]; [done|].
  exfalso. eapply NoDup_lookup in Hnd; [|exact Hi|exact Hj]. lia.
Qed.

(** ** Headings and the outline *)

Section Headings.
Variable self : App.PDFOutlineExtractor.

Lemma is_potential_heading_bounds text (fs : Qc) (fl : Z) :
  App.is_potential_heading self text fs fl = true →
  App.min_heading_length self ≤ Py.len text ≤ App.max_heading_length self.
Proof.
  unfold App.is_potential_heading.
  destruct (Z.ltb_spec (Py.len text) (App.min_heading_length self));
    [done|].
  destruct (Z.ltb_spec (App.max_heading_length self) (Py.len text));
    [done|].
  intros _. lia.
Qed.

Lemma extract_headings_single (fh : gmap string Qc) (b : App.TextBlock) :
  App.extract_headings self [b] fh
  = if App.is_potential_heading self (App.text b) (App.font_size b)
         (App.flags b)
    then match heading_level (App.font_size b) fh with
         | Some level => [ {| Out.level := level; Out.text := App.text b;
                              Out.page := App.page b |} ]
         | None => []
         end
    else [].
Proof.
  unfold App.extract_headings. cbn [App.headings_loop]. cbv zeta.
  destruct (App.is_potential_heading _ _ _ _); cbn [negb]; [|done].
  by destruct (heading_level _ _).
Qed.

Lemma elem_of_extract_headings (fh : gmap string Qc) blocks h :
  h ∈ App.extract_headings self blocks fh ↔
  ∃ b, b ∈ blocks
       ∧ App.is_potential_heading self (App.text b) (App.font_size b)
           (App.flags b) = true
       ∧ heading_level (App.font_size b) fh = Some (Out.level h)
       ∧ Out.text h = App.text b ∧ Out.page h = App.page b.
Proof.
  induction blocks as [|b blocks IH].
  - split; [by intros ?%elem_of_nil|]. by intros (? & ?%elem_of_nil & _).
  - rewrite extract_headings_cons, elem_of_app, IH, extract_headings_single.
    split.
    + intros [Hh|(b' & Hb' & Hrest)].
      * exists b. split; [by left|].
        destruct (App.is_potential_heading _ _ _ _);
          [|by apply elem_of_nil in Hh].
        destruct (heading_level _ _) as [level|];
          [|by apply elem_of_nil in Hh].
        by apply list_elem_of_singleton in Hh as ->.
      * exists b'. split; [by right|done].
    + intros (b' & [->|Hb']%elem_of_cons & Hg & Hl & Ht & Hp).
      * left. rewrite Hg, Hl. apply list_elem_of_singleton.
        destruct h. cbn in *. by subst.
      * right. by exists b'.
Qed.

Lemma extract_headings_pages (fh : gmap string Qc) blocks :
  (Out.page <$> App.extract_headings self blocks fh)
    `sublist_of` (App.page <$> blocks).
Proof.
  induction blocks as [|b blocks IH]; [done|].
  rewrite extract_headings_cons, fmap_app, fmap_cons.
  change (App.page b :: ?l) with ([App.page b] ++ l).
  apply sublist_app; [|done].
  rewrite extract_headings_single.
  destruct (App.is_potential_heading _ _ _ _); [|apply sublist_nil_l].
  destruct (heading_level _ _); [done|apply sublist_nil_l].
Qed.

(** In a hierarchy made by [analyze_font_hierarchy] the tiers have
    pairwise different sizes. *)
Lemma analyze_tiers_distinct blocks (k1 k2 : string) (x : Qc) :
  let fh := App.analyze_font_hierarchy self blocks in
  k1 ≠ k2 → fh !! k1 = Some x → fh !! k2 = Some x → False.
Proof.
  intros fh Hne H1 H2. subst fh.
  unfold App.analyze_font_hierarchy in *. cbv zeta in *.
  set (l := sorted_reverse _) in *.
  assert (NoDup l) as Hnd by apply sorted_reverse_NoDup.
  destruct (assign_tiers_lookup l) as (Ht & Ha & Hb & Hc & Hk).
  assert (∀ k, is_Some (assign_tiers l !! k) →
               ∃ i : nat, assign_tiers l !! k = l !! i
                          ∧ ∀ k', assign_tiers l !! k' = l !! i →
                                  is_Some (assign_tiers l !! k') → k' = k)
    as Hidx.
  { intros k Hsome. pose proof (Hk k Hsome) as Hin.
    assert (∀ (i j : nat) y, l !! i = Some y → l !! j = Some y → i = j)
      as Hinj by (intros; by eapply NoDup_lookup).
    repeat (apply elem_of_cons in Hin as [->|Hin]);
      [exists 0%nat|exists 1%nat|exists 2%nat|exists 3%nat|
       by apply elem_of_nil in Hin];
      (split; [done|]); intros k' Hk' [y Hy]; pose proof (Hk k' (ex_intro _ y Hy)) as Hin';
      rewrite Hy in Hk'; symmetry in Hk';
      repeat (apply elem_of_cons in Hin' as [->|Hin']);
      try done; try (by apply elem_of_nil in Hin');
      rewrite ?Ht, ?Ha, ?Hb, ?Hc in Hy;
      by pose proof (Hinj _ _ _ Hy Hk'). }
  destruct (Hidx k1 (ex_intro _ x H1)) as (i & Hi & Huniq).
  apply Hne. symmetry. apply Huniq; [|by eexists].
  rewrite H2, <- H1. exact Hi.
Qed.

End Headings.

Section Outline.
Variable self : App.PDFOutlineExtractor.

Lemma heading_level_analyzed blocks (fs : Qc) (level : string) :
  let fh := App.analyze_font_hierarchy self blocks in
  heading_level fs fh = Some level ↔
  level ∈ ["H1"; "H2"; "H3"] ∧ fh !! level = Some fs.
Proof.
  intros fh. split; [apply heading_level_Some|]. intros [Hin Hl].
  assert (∀ k, k ≠ level → fh !! k ≠ Some fs) as Hother.
  { intros k Hk Hk'. by eapply (analyze_tiers_distinct self blocks k level). }
  unfold heading_level. fold fh.
  repeat (apply elem_of_cons in Hin as [->|Hin]);
    [| | |by apply elem_of_nil in Hin].
  - by rewrite bool_decide_eq_true_2.
  - rewrite (bool_decide_eq_false_2 (fh !! "H1" = Some fs))
      by (apply Hother; discriminate).
    by rewrite bool_decide_eq_true_2.
  - rewrite (bool_decide_eq_false_2 (fh !! "H1" = Some fs))
      by (apply Hother; discriminate).
    rewrite (bool_decide_eq_false_2 (fh !! "H2" = Some fs))
      by (apply Hother; discriminate).
    by rewrite bool_decide_eq_true_2.
Qed.

Lemma outline_eq doc pdf_path :
  Out.outline (App.extract_outline self doc pdf_path)
  = remove_duplicates
      (App.extract_headings self (App.extract_text_blocks self doc)
         (App.analyze_font_hierarchy self
            (App.extract_text_blocks self doc))).
Proof.
  unfold App.extract_outline.
  by destruct (App.extract_text_blocks self doc).
Qed.

Lemma sublist_sorted {A} (R : relation A) (l1 l2 : list A) :
  l1 `sublist_of` l2 → StronglySorted R l2 → StronglySorted R l1.
Proof.
  induction 1 as [|x l1 l2 Hsub IH|x l1 l2 Hsub IH]; intros Hs; [done| |].
  - apply StronglySorted_cons in Hs as [Hall Hs].
    apply StronglySorted_cons. split; [|by apply IH].
    rewrite !Forall_forall in *. intros y Hy. apply Hall.
    by eapply sublist_subseteq.
  - apply StronglySorted_cons in Hs as [_ Hs]. by apply IH.
Qed.

End Outline.

(** X8.  A heading is in the outline returned by [extract_outline]
    exactly when its level is H1, H2 or H3 and some fragment of the
    document passes [is_potential_heading], has the size that the
    hierarchy gives to that level, and has the heading's text and
    page. *)
Theorem X8_outline_membership
  (self : App.PDFOutlineExtractor) (doc : Fitz.Document)
  (pdf_path : string) (h : Out.Heading) :
  let blocks := App.extract_text_blocks self doc in
  let fh := App.analyze_font_hierarchy self blocks in
  h ∈ Out.outline (App.extract_outline self doc pdf_path) ↔
  Out.level h ∈ ["H1"; "H2"; "H3"]
  ∧ ∃ b, b ∈ blocks
         ∧ App.is_potential_heading self (App.text b) (App.font_size b)
             (App.flags b) = true
         ∧ fh !! Out.level h = Some (App.font_size b)
         ∧ Out.text h = App.text b ∧ Out.page h = App.page b.
Proof.
  intros blocks fh. rewrite outline_eq, remove_duplicates_elem_of.
  fold blocks. fold fh. rewrite elem_of_extract_headings. split.
  - intros (b & Hb & Hg & Hl & Ht & Hp).
    apply heading_level_analyzed in Hl as [Hin Hl]. split; [done|].
    by exists b.
  - intros (Hin & b & Hb & Hg & Hl & Ht & Hp). exists b.
    split_and!; [done..| |done|done]. by apply heading_level_analyzed.
Qed.

(** X9.  Every heading of the outline is well formed: its level is H1,
    H2 or H3, its text is stripped and between [min_heading_length] and
    [max_heading_length] characters long, and its page lies between 1 and
    the number of pages of the document. *)
Theorem X9_outline_headings_are_well_formed
  (self : App.PDFOutlineExtractor) (doc : Fitz.Document)
  (pdf_path : string) (h : Out.Heading) :
  h ∈ Out.outline (App.extract_outline self doc pdf_path) →
  Out.level h ∈ ["H1"; "H2"; "H3"]
  ∧ Derived.trimmed (Out.text h)
  ∧ Out.text h ≠ ""
  ∧ App.min_heading_length self ≤ Py.len (Out.text h)
    ≤ App.max_heading_length self
  ∧ 1 ≤ Out.page h ≤ Derived.page_count doc.
Proof.
  rewrite outline_eq, remove_duplicates_elem_of, elem_of_extract_headings.
  intros (b & Hb & Hg & Hl & -> & ->).
  apply heading_level_Some in Hl as [Hin _].
  apply elem_of_extract_text_blocks in Hb
    as (pages & i & page & -> & Hi & Hb).
  apply elem_of_blocks_of_page in Hb
    as (block & line & span & _ & _ & _ & _ & Hb).
  apply elem_of_block_of_span in Hb as (Ht & Hne & _ & _ & _ & Hp).
  split_and!; [done| |done| | | |].
  - rewrite Ht. apply strip_trimmed.
  - by apply is_potential_heading_bounds in Hg as [? _].
  - by apply is_potential_heading_bounds in Hg as [_ ?].
  - lia.
  - apply lookup_lt_Some in Hi. cbn [Derived.page_count]. lia.
Qed.

Lemma X9_outline_headings_are_well_formed_witness :
  let h := {| Out.level := "H2"; Out.text := "Background.";
              Out.page := 2 |} in
  h ∈ Out.outline (App.extract_outline App.init Samples.synthetic
                     "/app/input/doc.pdf")
  ∧ 3 ≤ Py.len (Out.text h) ≤ 200
  ∧ 1 ≤ Out.page h ≤ 3.
Proof.
  intros h.
  assert (h ∈ Out.outline (App.extract_outline App.init Samples.synthetic
                             "/app/input/doc.pdf")) as Hh.
  { vm_compute. right. left. }
  split; [exact Hh|].
  destruct (X9_outline_headings_are_well_formed _ _ _ _ Hh)
    as (_ & _ & _ & Hlen & Hpage).
  split; [exact Hlen|exact Hpage].
Defined.

(** X10.  In the hierarchy of a document the sizes of the tiers are
    pairwise different.  So the order of the tests in the [if]/[elif]
    chain does not matter: a size gets level H1, H2 or H3 exactly when
    the hierarchy binds that level to it; and a fragment at the title
    size, the largest of the document, gets no level. *)
Theorem X10_level_is_determined_by_size
  (self : App.PDFOutlineExtractor) (blocks : list App.TextBlock) :
  let fh := App.analyze_font_hierarchy self blocks in
  (∀ k1 k2 x, fh !! k1 = Some x → fh !! k2 = Some x → k1 = k2)
  ∧ (∀ fs level,
       heading_level fs fh = Some level ↔
       level ∈ ["H1"; "H2"; "H3"] ∧ fh !! level = Some fs)
  ∧ (∀ fs, fh !! "title" = Some fs → heading_level fs fh = None).
Proof.
  intros fh. split_and!.
  - intros k1 k2 x H1 H2. destruct (decide (k1 = k2)) as [|Hne]; [done|].
    by destruct (analyze_tiers_distinct self blocks k1 k2 x).
  - intros fs level. apply heading_level_analyzed.
  - intros fs Ht. destruct (heading_level fs fh) as [level|] eqn:Hl; [|done].
    apply heading_level_analyzed in Hl as [Hin Hl].
    destruct (analyze_tiers_distinct self blocks "title" level fs);
      [|done..].
    intros <-. set_solver.
Qed.

(** X11.  The headings of the outline are in page order: their page
    numbers never decrease along the outline. *)
Theorem X11_outline_in_page_order
  (self : App.PDFOutlineExtractor) (doc : Fitz.Document)
  (pdf_path : string) :
  StronglySorted Z.le
    (Out.page <$> Out.outline (App.extract_outline self doc pdf_path)).
Proof.
  rewrite outline_eq.
  apply (sublist_sorted _ _
           (App.page <$> App.extract_text_blocks self doc)).
  - etrans; [|apply extract_headings_pages].
    apply fmap_sublist, remove_duplicates_sublist.
  - destruct doc as [pages|]; [|constructor].
    pose proof (extract_text_blocks_sorted self pages) as Hs.
    induction Hs as [|b l Hs IH Hall]; [constructor|].
    rewrite fmap_cons. constructor; [done|].
    apply Forall_forall. intros p (b' & -> & Hb')%list_elem_of_fmap.
    rewrite Forall_forall in Hall. by apply Hall.
Qed.

(** ** More on the removal of duplicates *)

Section DedupMore.
Implicit Types (h : Out.Heading) (hs : list Out.Heading).

Lemma remove_duplicates_NoDup_fixed hs :
  NoDup hs → remove_duplicates hs = hs.
Proof.
  induction hs as [|h hs IH] using rev_ind; [done|].
  intros [Hhs [Hdisj _]]%NoDup_app.
  rewrite remove_duplicates_snoc, IH by done.
  rewrite bool_decide_eq_false_2; [done|].
  intros Hin. apply (Hdisj h Hin). by left.
Qed.

Lemma remove_duplicates_filter (keep : Out.Heading → bool) hs :
  remove_duplicates (List.filter keep hs)
  = List.filter keep (remove_duplicates hs).
Proof.
  induction hs as [|h hs IH] using rev_ind; [done|].
  rewrite remove_duplicates_snoc, !List.filter_app. cbn [List.filter].
  destruct (keep h) eqn:Hk.
  - rewrite remove_duplicates_snoc, IH.
    rewrite (bool_decide_ext (h ∈ List.filter keep hs) (h ∈ hs)).
    + case_bool_decide; [done|].
      rewrite List.filter_app. cbn [List.filter]. by rewrite Hk.
    + rewrite !list_elem_of_In, List.filter_In. tauto.
  - rewrite app_nil_r, IH. case_bool_decide; [done|].
    rewrite List.filter_app. cbn [List.filter]. by rewrite Hk, app_nil_r.
Qed.

End DedupMore.

(** X12.  The removal of duplicates leaves a list unchanged exactly when
    the list has no duplicates, never makes a list longer, and commutes
    with dropping the headings that fail any test. *)
Theorem X12_dedup_fixed_points_and_filter :
  (∀ hs : list Out.Heading, remove_duplicates hs = hs ↔ NoDup hs)
  ∧ (∀ hs : list Out.Heading,
       (length (remove_duplicates hs) ≤ length hs)%nat)
  ∧ (∀ (keep : Out.Heading → bool) (hs : list Out.Heading),
       remove_duplicates (List.filter keep hs)
       = List.filter keep (remove_duplicates hs)).
Proof.
  split_and!.
  - intros hs. split.
    + intros <-. apply remove_duplicates_NoDup.
    + apply remove_duplicates_NoDup_fixed.
  - intros hs. apply sublist_length, remove_duplicates_sublist.
  - apply remove_duplicates_filter.
Qed.

(** ** The two pipelines on any document *)

Section Superset.

Lemma simple_headings_loop_acc fh blocks headings :
  Simple.headings_loop fh blocks headings
  = headings ++ Simple.headings_loop fh blocks [].
Proof.
  revert headings.
  induction blocks as [|block rest IH]; intros headings.
  - cbn [Simple.headings_loop]. by rewrite app_nil_r.
  - cbn [Simple.headings_loop]. cbv zeta.
    destruct (negb _); [apply IH|].
    destruct (heading_level _ _) as [level|]; [|apply IH].
    rewrite IH. rewrite (IH ([] ++ _)). by rewrite <- (assoc_L (++)).
Qed.

Lemma simple_headings_loop_cons fh block rest :
  Simple.headings_loop fh (block :: rest) []
  = (if Simple.is_valid_heading (Simple.text block)
     then match heading_level (Simple.font_size block) fh with
          | Some level => [ {| Out.level := level;
                               Out.text := Simple.text block;
                               Out.page := Simple.page block |} ]
          | None => []
          end
     else [])
    ++ Simple.headings_loop fh rest [].
Proof.
  cbn [Simple.headings_loop]. cbv zeta.
  destruct (Simple.is_valid_heading _); cbn [negb]; [|done].
  destruct (heading_level _ _); [|done].
  by rewrite simple_headings_loop_acc.
Qed.

Lemma headings_filter_simple fh (blocks : list App.TextBlock) :
  App.extract_headings App.init blocks fh
  = List.filter (λ h, Spec.punctuated_or_capitalised (Out.text h))
      (Simple.headings_loop fh (Spec.to_simple <$> blocks) []).
Proof.
  induction blocks as [|b blocks IH]; [done|].
  rewrite extract_headings_cons, fmap_cons, simple_headings_loop_cons.
  rewrite List.filter_app, <- IH. f_equal.
  rewrite extract_headings_single, is_potential_heading_is_valid_heading.
  cbn [Spec.to_simple Simple.text Simple.font_size Simple.page].
  destruct (Simple.is_valid_heading _); [|done].
  destruct (heading_level _ _) as [level|];
    [|by destruct (Spec.punctuated_or_capitalised _)].
  cbn [andb List.filter Out.text].
  by destruct (Spec.punctuated_or_capitalised _).
Qed.

Lemma simple_outline_eq pages pdf_path :
  Out.outline (Simple.extract_pdf_outline (Some pages) pdf_path)
  = remove_duplicates
      (Simple.headings_loop
         (App.analyze_font_hierarchy App.init
            (App.extract_text_blocks App.init (Some pages)))
         (Spec.to_simple <$> App.extract_text_blocks App.init (Some pages))
         []).
Proof.
  unfold Simple.extract_pdf_outline. rewrite text_blocks_simple.
  destruct (App.extract_text_blocks App.init (Some pages)) as [|b bs] eqn:Hb;
    [done|].
  rewrite <- Hb. destruct (Spec.to_simple <$> _) eqn:Hs;
    [by rewrite Hb in Hs|].
  rewrite <- Hs. cbv zeta. cbn [Out.outline].
  by rewrite font_sizes_simple.
Qed.

End Superset.

(** X13.  On every document the outline of the class-based pipeline is
    the outline of the function-based pipeline without the headings
    whose text neither ends in one of [. : ? !] nor is upper-case or
    title-case; so it is a subsequence of it. *)
Theorem X13_class_outline_is_filtered_function_outline
  (doc : Fitz.Document) (pdf_path : string) :
  Out.outline (App.extract_outline App.init doc pdf_path)
  = List.filter (λ h, Spec.punctuated_or_capitalised (Out.text h))
      (Out.outline (Simple.extract_pdf_outline doc pdf_path))
  ∧ Out.outline (App.extract_outline App.init doc pdf_path)
      `sublist_of` Out.outline (Simple.extract_pdf_outline doc pdf_path).
Proof.
  assert (Out.outline (App.extract_outline App.init doc pdf_path)
          = List.filter (λ h, Spec.punctuated_or_capitalised (Out.text h))
              (Out.outline (Simple.extract_pdf_outline doc pdf_path)))
    as Heq.
  { destruct doc as [pages|]; [|done].
    rewrite outline_eq, simple_outline_eq, headings_filter_simple.
    apply remove_duplicates_filter. }
  split; [exact Heq|]. rewrite Heq.
  generalize (Out.outline (Simple.extract_pdf_outline doc pdf_path)).
  intros hs. induction hs as [|h hs IH]; [done|]. cbn [List.filter].
  destruct (Spec.punctuated_or_capitalised _);
    [by apply sublist_skip|by apply sublist_cons].
Qed.

Section SimpleTitle.

Lemma is_valid_heading_bounds text :
  Simple.is_valid_heading text = true → 3 ≤ Py.len text ≤ 200.
Proof.
  unfold Simple.is_valid_heading.
  destruct (Z.ltb_spec (Py.len text) 3); [done|].
  destruct (Z.ltb_spec 200 (Py.len text)); [done|]. intros _. lia.
Qed.

Lemma is_valid_heading_nonempty text :
  Simple.is_valid_heading text = true → text ≠ "".
Proof.
  intros Hb%is_valid_heading_bounds ->. unfold Py.len in Hb.
  simpl in Hb. lia.
Qed.

Lemma simple_first_title_find title_size text_blocks :
  Simple.first_title title_size text_blocks
  = match list_find (Derived.simple_title_test title_size) text_blocks with
    | Some (_, block) => Simple.text block
    | None => ""
    end.
Proof.
  induction text_blocks as [|block rest IH]; [done|].
  cbn [Simple.first_title list_find]. rewrite IH.
  destruct (decide (Derived.simple_title_test title_size block)) as [Hq|Hq].
  - destruct Hq as (Hs & Hp & Hg).
    rewrite bool_decide_eq_true_2 by done.
    rewrite Hg, (proj2 (Z.eqb_eq _ _) Hp). done.
  - destruct (list_find _ rest) as [[i b]|]; simpl.
    all: case_bool_decide as Hs; simpl; [|done].
    all: destruct (Z.eqb_spec (Simple.page block) 1) as [Hp|Hp];
      simpl; [|done].
    all: destruct (Simple.is_valid_heading _) eqn:Hg; [|done].
    all: by destruct Hq.
Qed.

End SimpleTitle.

(** ** The check of the output format *)

Section Validation.
Import Json.

Lemma first_missing_None keys (d : gmap string pyval) :
  first_missing keys d = None ↔ ∀ key, key ∈ keys → is_Some (d !! key).
Proof.
  induction keys as [|key keys IH]; cbn [first_missing].
  - split; [|done]. by intros _ key ?%elem_of_nil.
  - case_bool_decide as Hk.
    + split; [done|]. intros Hall.
      destruct (Hall key) as [v Hv]; [by left|]. congruence.
    + rewrite IH. split.
      * intros Hall k [->|Hin]%elem_of_cons; [|by apply Hall].
        by apply not_eq_None_Some.
      * intros Hall k Hin. apply Hall. by right.
Qed.

Lemma eq_str_true s v : eq_str s v = true ↔ v = PStr s.
Proof.
  destruct v; cbn [eq_str]; try (split; [done|by intros [=]]).
  rewrite String.eqb_eq. split; [by intros ->|by intros [= ->]].
Qed.

Lemma check_item_None item : check_item item = None ↔ item_ok item.
Proof.
  split.
  - destruct item as [| | | | | |d]; try done. cbn [check_item].
    destruct (first_missing _ d) as [key|] eqn:Hm; [done|].
    rewrite first_missing_None in Hm.
    destruct (Hm "level") as [vl Hl]; [set_solver|].
    destruct (Hm "text") as [vt Ht]; [set_solver|].
    destruct (Hm "page") as [vp Hp]; [set_solver|].
    unfold subscript. rewrite Hl, Ht, Hp. cbn [default from_option id].
    destruct (existsb _ _) eqn:He; cbn [negb]; [|done].
    apply existsb_exists in He as (level & Hin%list_elem_of_In & He).
    apply eq_str_true in He as ->.
    destruct vt as [| | | |text| |]; try done. cbn [is_str negb orb].
    cbn [len_is_zero].
    destruct (Z.eqb_spec (Py.len text) 0) as [|Hlen]; [done|].
    destruct vp as [|b|page| | | |]; try done; cbn [is_int negb orb].
    + destruct b; cbn [less_than_one negb]; [|done]. intros _.
      exists d, level, text. split_and!; try done; [|by right].
      intros ->. by apply Hlen.
    + cbn [less_than_one]. destruct (Z.ltb_spec page 1); [done|]. intros _.
      exists d, level, text. split_and!; try done.
      * intros ->. by apply Hlen.
      * left. by exists page.
  - intros (d & level & text & -> & Hl & Hin & Ht & Hne & Hp).
    cbn [check_item].
    assert (∃ vp, d !! "page" = Some vp ∧ is_int vp = true
                  ∧ less_than_one vp = false) as (vp & Hvp & Hi & Hlt).
    { destruct Hp as [(page & Hp & Hge)|Hp].
      - exists (PInt page). split_and!; [done..|].
        cbn [less_than_one]. by apply Z.ltb_ge.
      - by exists (PBool true). }
    rewrite (proj2 (first_missing_None _ d)).
    2: { intros key Hkey.
         repeat (apply elem_of_cons in Hkey as [->|Hkey]); eauto.
         by apply elem_of_nil in Hkey. }
    unfold subscript. rewrite Hl, Ht, Hvp. cbn [default from_option id].
    rewrite (proj2 (existsb_exists _ _)).
    2: { exists level. split; [by apply list_elem_of_In|].
         by apply eq_str_true. }
    cbn [negb is_str orb len_is_zero]. rewrite Hi, Hlt. cbn [negb orb].
    destruct (Z.eqb_spec (Py.len text) 0) as [Hlen|]; [|done].
    destruct text; [done|]. unfold Py.len in Hlen. cbn in Hlen. lia.
Qed.

Lemma check_items_None items :
  check_items items = None ↔ Forall item_ok items.
Proof.
  induction items as [|item items IH]; cbn [check_items].
  - split; [constructor|done].
  - rewrite Forall_cons, <- IH, <- check_item_None.
    destruct (check_item item); [|tauto]. split; [done|by intros [? _]].
Qed.

Lemma validate_dict_true (d : gmap string pyval) msg :
  is_Some (d !! "title") → is_Some (d !! "outline") →
  validate_dict d = Returns true msg ↔
  msg = Msg "JSON format is valid"
  ∧ ∃ title items,
      d !! "title" = Some (PStr title)
      ∧ d !! "outline" = Some (PList items)
      ∧ Forall item_ok items.
Proof.
  intros [vt Ht] [vo Ho]. unfold validate_dict, subscript.
  rewrite Ht, Ho. cbn [default from_option id]. split.
  - destruct vt as [| | | |title| |]; try done. cbn [is_str negb].
    destruct vo as [| | | | |items|]; try done.
    destruct (check_items items) eqn:Hc; [done|]. intros [= <-].
    split; [done|]. exists title, items. by rewrite <- check_items_None.
  - intros (-> & title & items & [= ->] & [= ->] & Hok).
    cbn [is_str negb]. by rewrite (proj2 (check_items_None items) Hok).
Qed.

Lemma heading_to_json_ok (h : Out.Heading) :
  Out.level h ∈ ["H1"; "H2"; "H3"] → Out.text h ≠ "" → 1 ≤ Out.page h →
  item_ok (heading_to_json h).
Proof.
  intros Hl Ht Hp. unfold heading_to_json.
  eexists _, (Out.level h), (Out.text h). split; [done|]. split_and!; [by simplify_map_eq|done|
    by simplify_map_eq|done|].
  left. exists (Out.page h). split; [by simplify_map_eq|done].
Qed.

Lemma result_to_json_valid (r : Out.OutlineResult) :
  validate_json_output (result_to_json r)
  = validate_dict (<["title" := PStr (Out.title r)]>
      (<["outline" := PList (heading_to_json <$> Out.outline r)]> ∅)).
Proof.
  unfold validate_json_output, result_to_json. cbn [contains].
  rewrite !bool_decide_eq_true_2; [done| |]; by simplify_map_eq.
Qed.

End Validation.

Section SimpleOutline.

Lemma elem_of_simple_headings_loop fh blocks h :
  h ∈ Simple.headings_loop fh blocks [] →
  ∃ b, b ∈ blocks
       ∧ Simple.is_valid_heading (Simple.text b) = true
       ∧ heading_level (Simple.font_size b) fh = Some (Out.level h)
       ∧ Out.text h = Simple.text b ∧ Out.page h = Simple.page b.
Proof.
  induction blocks as [|b blocks IH]; [by intros ?%elem_of_nil|].
  rewrite simple_headings_loop_cons, elem_of_app.
  intros [Hh|Hh].
  - exists b. split; [by left|].
    destruct (Simple.is_valid_heading _); [|by apply elem_of_nil in Hh].
    destruct (heading_level _ _) as [level|];
      [|by apply elem_of_nil in Hh].
    by apply list_elem_of_singleton in Hh as ->.
  - destruct (IH Hh) as (b' & Hb' & Hrest). exists b'.
    split; [by right|done].
Qed.

Lemma simple_outline_well_formed doc pdf_path h :
  h ∈ Out.outline (Simple.extract_pdf_outline doc pdf_path) →
  Out.level h ∈ ["H1"; "H2"; "H3"]
  ∧ 3 ≤ Py.len (Out.text h) ≤ 200
  ∧ 1 ≤ Out.page h ≤ Derived.page_count doc.
Proof.
  destruct doc as [pages|]; [|by intros ?%elem_of_nil].
  rewrite simple_outline_eq, remove_duplicates_elem_of.
  intros (sb & Hsb & Hg & Hl & -> & ->)%elem_of_simple_headings_loop.
  apply heading_level_Some in Hl as [Hin _].
  apply list_elem_of_fmap in Hsb as (b & -> & Hb).
  apply elem_of_extract_text_blocks in Hb
    as (? & i & page & [= <-] & Hi & Hb).
  apply blocks_of_page_page in Hb. apply lookup_lt_Some in Hi.
  cbn [Spec.to_simple Simple.text Simple.page] in *.
  split; [done|]. split; [by apply is_valid_heading_bounds|].
  cbn [Derived.page_count]. lia.
Qed.

End SimpleOutline.

(** X15.  The result of either pipeline always passes the format check
    of [test_extractor.py]: for every document and path
    [validate_json_output] returns [(True, "JSON format is valid")] on
    the dict returned by [extract_pdf_outline], and on the one returned
    by [extract_outline], whatever the configuration. *)
Theorem X15_pipeline_output_passes_validation
  (self : App.PDFOutlineExtractor) (doc : Fitz.Document)
  (pdf_path : string) :
  Json.validate_json_output
    (Json.result_to_json (Simple.extract_pdf_outline doc pdf_path))
  = Json.Returns true (Json.Msg "JSON format is valid")
  ∧ Json.validate_json_output
      (Json.result_to_json (App.extract_outline self doc pdf_path))
    = Json.Returns true (Json.Msg "JSON format is valid").
Proof.
  split; rewrite result_to_json_valid; apply validate_dict_true;
    try (by simplify_map_eq); (split; [done|]);
    eexists _, _; (split_and!; [by simplify_map_eq..|]);
    apply Forall_fmap, Forall_forall; intros h Hh;
    apply heading_to_json_ok.
  - by apply simple_outline_well_formed in Hh as (? & _ & _).
  - apply simple_outline_well_formed in Hh as (_ & Hlen & _).
    intros Ht. rewrite Ht in Hlen. unfold Py.len in Hlen. cbn in Hlen. lia.
  - apply simple_outline_well_formed in Hh as (_ & _ & Hp). lia.
  - rewrite outline_eq, remove_duplicates_elem_of,
      elem_of_extract_headings in Hh.
    destruct Hh as (b & _ & _ & Hl & _).
    by apply heading_level_Some in Hl as [? _].
  - rewrite outline_eq, remove_duplicates_elem_of,
      elem_of_extract_headings in Hh.
    destruct Hh as (b & _ & Hg & _ & -> & _).
    by eapply is_potential_heading_nonempty.
  - rewrite outline_eq, remove_duplicates_elem_of,
      elem_of_extract_headings in Hh.
    destruct Hh as (b & Hb & _ & _ & _ & ->).
    apply elem_of_extract_text_blocks in Hb
      as (? & i & page & _ & _ & Hb).
    apply blocks_of_page_page in Hb. lia.
Qed.

(** X16.  On a dict [validate_json_output] never raises, and it returns
    [True] exactly when the title is a string and the outline is a list
    of dicts each with a level among "H1", "H2", "H3", a non-empty
    string as text and as page an int that is at least 1, where [True]
    counts as such an int; the message is then "JSON format is valid".
    The title may be empty. *)
Theorem X16_validator_accepts_exactly_well_formed_dicts
  (d : gmap string Json.pyval) :
  Json.validate_json_output (Json.PDict d) ≠ Json.Raises_TypeError
  ∧ (∀ msg,
       Json.validate_json_output (Json.PDict d) = Json.Returns true msg ↔
       msg = Json.Msg "JSON format is valid"
       ∧ ∃ title items,
           d !! "title" = Some (Json.PStr title)
           ∧ d !! "outline" = Some (Json.PList items)
           ∧ Forall Json.item_ok items).
Proof.
  unfold Json.validate_json_output. cbn [Json.contains].
  destruct (d !! "title") as [vt|] eqn:Ht.
  2: { rewrite bool_decide_eq_false_2 by (by intros [? ?]).
       split; [done|]. intros msg. split; [done|].
       by intros (_ & ? & ? & ? & _). }
  rewrite bool_decide_eq_true_2 by done.
  destruct (d !! "outline") as [vo|] eqn:Ho.
  2: { rewrite bool_decide_eq_false_2 by (by intros [? ?]).
       split; [done|]. intros msg. split; [done|].
       by intros (_ & ? & ? & _ & ? & _). }
  rewrite bool_decide_eq_true_2 by done. split.
  - unfold Json.validate_dict. destruct (negb _); [done|].
    destruct (Json.subscript d "outline"); try done.
    by destruct (Json.check_items _).
  - intros msg. rewrite validate_dict_true by (by eexists).
    by rewrite Ht, Ho.
Qed.

Section Breakdown.
Import Json.

Lemma count_levels_headings (hs : list Out.Heading) (m0 : gmap string Z) :
  (∀ h, h ∈ hs → is_Some (m0 !! Out.level h)) →
  ∃ m, count_levels (heading_to_json <$> hs) m0 = Some m
       ∧ ∀ k, m !! k = (λ n, n + Derived.headings_at k hs) <$> m0 !! k.
Proof.
  revert m0. induction hs as [|h hs IH]; intros m0 Hall.
  - exists m0. split; [done|]. intros k. unfold Derived.headings_at.
    cbn. destruct (m0 !! k); cbn; [f_equal; lia|done].
  - destruct (Hall h) as [n Hn]; [by left|].
    rewrite fmap_cons. cbn [count_levels heading_to_json].
    rewrite lookup_insert_eq, Hn.
    destruct (IH (<[Out.level h := n + 1]> m0)) as (m & Hm & Hk).
    { intros h' Hh'. destruct (decide (Out.level h = Out.level h')) as [<-|].
      - rewrite lookup_insert_eq. by eexists.
      - rewrite lookup_insert_ne by done. apply Hall. by right. }
    exists m. split; [done|]. intros k. rewrite Hk.
    unfold Derived.headings_at. cbn [List.filter].
    destruct (String.eqb_spec (Out.level h) k) as [<-|Hne].
    + rewrite lookup_insert_eq, Hn. cbn [fmap option_fmap option_map length].
      f_equal. lia.
    + rewrite lookup_insert_ne by done. done.
Qed.

Lemma headings_at_total (hs : list Out.Heading) :
  (∀ h, h ∈ hs → Out.level h ∈ ["H1"; "H2"; "H3"]) →
  Derived.headings_at "H1" hs + Derived.headings_at "H2" hs
  + Derived.headings_at "H3" hs = Z.of_nat (length hs).
Proof.
  unfold Derived.headings_at.
  induction hs as [|h hs IH]; intros Hall; [done|].
  assert (Out.level h ∈ ["H1"; "H2"; "H3"]) as Hin by (apply Hall; by left).
  specialize (IH (λ h' Hh', Hall h' (list_elem_of_further _ _ _ Hh'))).
  cbn [List.filter length].
  repeat (apply elem_of_cons in Hin as [->|Hin]);
    [| | |by apply elem_of_nil in Hin]; cbn [String.eqb Ascii.eqb
      Bool.eqb andb length]; lia.
Qed.

End Breakdown.

(** X17.  The breakdown that [test_pdf_processing] prints for a result
    of [extract_pdf_outline] never raises: the counter of each of "H1",
    "H2", "H3" ends as the number of headings of that level, and the
    three counters add up to the number of headings. *)
Theorem X17_breakdown_counts_every_heading
  (doc : Fitz.Document) (pdf_path : string) :
  let outline := Out.outline (Simple.extract_pdf_outline doc pdf_path) in
  ∃ counts,
    Json.heading_counts (Json.heading_to_json <$> outline) = Some counts
    ∧ counts !! "H1" = Some (Derived.headings_at "H1" outline)
    ∧ counts !! "H2" = Some (Derived.headings_at "H2" outline)
    ∧ counts !! "H3" = Some (Derived.headings_at "H3" outline)
    ∧ Derived.headings_at "H1" outline + Derived.headings_at "H2" outline
      + Derived.headings_at "H3" outline = Z.of_nat (length outline).
Proof.
  intros outline.
  assert (∀ h, h ∈ outline → Out.level h ∈ ["H1"; "H2"; "H3"]) as Hall.
  { intros h Hh. by apply simple_outline_well_formed in Hh as (? & _). }
  destruct (count_levels_headings outline
              (<["H1" := 0]> (<["H2" := 0]> (<["H3" := 0]> ∅))))
    as (counts & Hc & Hk).
  { intros h Hh. specialize (Hall h Hh).
    repeat (apply elem_of_cons in Hall as [->|Hall]);
      [| | |by apply elem_of_nil in Hall]; by simplify_map_eq. }
  exists counts. split; [exact Hc|].
  split_and!; [rewrite Hk; by simplify_map_eq..|].
  by apply headings_at_total.
Qed.

(** ** The meaning of the patterns *)

Section Strings.
Implicit Types (s p q r : string) (c : ascii).

Lemma sapp_nil_l s : "" +:+ s = s.
Proof. reflexivity. Qed.

Lemma sapp_cons c p q : String c p +:+ q = String c (p +:+ q).
Proof. reflexivity. Qed.


Lemma sapp_assoc p q r : (p +:+ q) +:+ r = p +:+ (q +:+ r).
Proof.
  induction p as [|c p IH]; [done|]. by rewrite !sapp_cons, IH.
Qed.

Lemma sapp_eq_nil p q : p +:+ q = "" → p = "" ∧ q = "".
Proof. destruct p; [done|]. by rewrite sapp_cons. Qed.

Lemma sapp_eq_cons p q c s :
  p +:+ q = String c s →
  (p = "" ∧ q = String c s) ∨ (∃ p', p = String c p' ∧ s = p' +:+ q).
Proof.
  destruct p as [|a p]; [by left|]. rewrite sapp_cons.
  intros [= -> <-]. right. by exists p.
Qed.

End Strings.

Section Matcher.
Import Re ReSem.
Variable ic : bool.

Lemma nullable_den bol rest r :
  nullable bol rest r = true → den ic r bol "" rest.
Proof.
  induction r as [| | | |a|items|r1 IH1 r2 IH2|r1 IH1 r2 IH2|r1 IH1];
    cbn [nullable]; try done.
  - intros _. constructor.
  - intros ->. constructor.
  - intros H. by constructor.
  - intros [H1 H2]%andb_true_iff.
    apply (den_seq ic r1 r2 bol "" "" rest); [by apply IH1|].
    cbn [is_empty]. rewrite andb_true_r. by apply IH2.
  - intros [H|H]%orb_true_iff; [apply den_alt_l|apply den_alt_r]; auto.
  - intros _. constructor.
Qed.

Lemma den_nullable bol rest r p :
  den ic r bol p rest → p = "" → nullable bol rest r = true.
Proof.
  induction 1 as [| | | | |r1 r2 bol p1 p2 rest H1 IH1 H2 IH2| | |
                  |r bol p1 p2 rest H1 IH1 H2 IH2];
    intros Hp; cbn [nullable]; try done.
  - apply sapp_eq_nil in Hp as [-> ->]. cbn [is_empty] in IH2.
    rewrite andb_true_r in IH2. specialize (IH1 eq_refl).
    rewrite sapp_nil_l in IH1. by rewrite IH1, IH2.
  - by rewrite IHden.
  - rewrite IHden by done. by rewrite orb_true_r.
Qed.

Lemma den_deriv bol rest r q :
  den ic r bol q rest →
  ∀ c p, q = String c p →
         den ic (deriv ic bol (String c (p +:+ rest)) c r) false p rest.
Proof.
  induction 1 as [| | |a c' bol rest Ha|items c' bol rest Hi
                  |r1 r2 bol p1 p2 rest H1 IH1 H2 IH2
                  |r1 r2 bol p rest H1 IH1|r1 r2 bol p rest H1 IH1|
                  |r bol p1 p2 rest H1 IH1 H2 IH2];
    intros c p0 Hq; try done; cbn [deriv].
  - injection Hq as -> <-. rewrite Ha. constructor.
  - injection Hq as -> <-. rewrite Hi. constructor.
  - apply sapp_eq_cons in Hq as [[-> ->]|(p1' & -> & ->)].
    + cbn [is_empty] in *. rewrite andb_true_r in *.
      rewrite sapp_cons in H1.
      rewrite (den_nullable _ _ _ _ H1 eq_refl).
      apply den_alt_r. by apply IH2.
    + cbn [is_empty] in *. rewrite andb_false_r in *.
      specialize (IH1 c p1' eq_refl). rewrite <- sapp_assoc in IH1.
      assert (den ic (Seq (deriv ic bol (String c ((p1' +:+ p2) +:+ rest))
                             c r1) r2) false (p1' +:+ p2) rest) as Hseq
        by (by apply den_seq).
      destruct (nullable _ _ r1); [by apply den_alt_l|done].
  - apply den_alt_l. by apply IH1.
  - apply den_alt_r. by apply IH1.
  - apply sapp_eq_cons in Hq as [[-> ->]|(p1' & -> & ->)].
    + cbn [is_empty] in *. rewrite andb_true_r in *. by apply IH2.
    + cbn [is_empty] in *. rewrite andb_false_r in *.
      specialize (IH1 c p1' eq_refl). rewrite <- sapp_assoc in IH1.
      by apply den_seq.
Qed.

Lemma deriv_den r : ∀ bol rest c p,
  den ic (deriv ic bol (String c (p +:+ rest)) c r) false p rest →
  den ic r bol (String c p) rest.
Proof.
  induction r as [| | | |a|items|r1 IH1 r2 IH2|r1 IH1 r2 IH2|r1 IH1];
    intros bol rest c p; cbn [deriv]; try (by inversion 1).
  - destruct (atom_matches ic a c) eqn:Ha; inversion 1; subst.
    by constructor.
  - destruct (existsb _ items) eqn:Hi; inversion 1; subst.
    by constructor.
  - assert (∀ p rest,
              den ic (Seq (deriv ic bol (String c (p +:+ rest)) c r1) r2)
                false p rest →
              den ic (Seq r1 r2) bol (String c p) rest) as Hleft.
    { clear p rest. intros p rest. inversion 1 as [| | | | |? ? ? p1 p2 ? Hd1 Hd2| | | |]; subst.
      rewrite sapp_assoc in Hd1. apply IH1 in Hd1.
      apply (den_seq ic r1 r2 bol (String c p1) p2 rest); [done|].
      cbn [is_empty]. by rewrite andb_false_r. }
    destruct (nullable bol _ r1) eqn:Hn; [|apply Hleft].
    inversion 1 as [| | | | | |? ? ? ? ? Hd|? ? ? ? ? Hd| |]; subst;
      [by apply Hleft|].
    apply IH2 in Hd.
    apply (den_seq ic r1 r2 bol "" (String c p) rest);
      [by apply nullable_den|].
    cbn [is_empty]. by rewrite andb_true_r.
  - inversion 1 as [| | | | | |? ? ? ? ? Hd|? ? ? ? ? Hd| |]; subst;
      [apply den_alt_l; by apply IH1|apply den_alt_r; by apply IH2].
  - inversion 1 as [| | | | |? ? ? p1 p2 ? Hd1 Hd2| | | |]; subst.
    rewrite sapp_assoc in Hd1. apply IH1 in Hd1.
    apply (den_star_more ic r1 bol (String c p1) p2 rest); [done|].
    cbn [is_empty]. by rewrite andb_false_r.
Qed.

(** The matcher finds a match exactly when some prefix of the text is
    matched by the pattern. *)
Lemma match_from_den s : ∀ bol r,
  match_from ic bol r s = true ↔
  ∃ p rest, s = p +:+ rest ∧ den ic r bol p rest.
Proof.
  induction s as [|c s IH]; intros bol r; cbn [match_from].
  - rewrite orb_false_r. split.
    + intros Hn. exists "", "". split; [done|]. by apply nullable_den.
    + intros (p & rest & Hs & Hd). symmetry in Hs.
      apply sapp_eq_nil in Hs as [-> ->]. by eapply den_nullable.
  - rewrite orb_true_iff, IH. split.
    + intros [Hn|(p & rest & -> & Hd)].
      * exists "", (String c s). split; [done|]. by apply nullable_den.
      * exists (String c p), rest. split; [done|]. by apply deriv_den.
    + intros (p & rest & Hs & Hd). destruct p as [|c' p].
      * left. rewrite sapp_nil_l in Hs. subst rest. by eapply den_nullable.
      * right. rewrite sapp_cons in Hs. injection Hs as <- ->.
        exists p, rest.
        split; [done|]. by eapply den_deriv.
Qed.

End Matcher.

Section MatcherEquations.
Import Re ReSem.
Variable ic : bool.
Implicit Types (r : regex) (s p : string) (c : ascii) (bol : bool).

Lemma den_cast r bol bol' p p' rest rest' :
  den ic r bol p rest → bol = bol' → p = p' → rest = rest' →
  den ic r bol' p' rest'.
Proof. by intros H <- <- <-. Qed.

Lemma is_empty_app p1 p2 :
  is_empty (p1 +:+ p2) = is_empty p1 && is_empty p2.
Proof. by destruct p1. Qed.

Lemma bool_eq_of_iff (b1 b2 : bool) : (b1 = true ↔ b2 = true) → b1 = b2.
Proof. destruct b1, b2; intros [H1 H2]; auto; symmetry; auto. Qed.

Lemma den_seq_inv r1 r2 bol p rest :
  den ic (Seq r1 r2) bol p rest ↔
  ∃ p1 p2, p = p1 +:+ p2 ∧ den ic r1 bol p1 (p2 +:+ rest)
           ∧ den ic r2 (bol && is_empty p1) p2 rest.
Proof.
  split.
  - inversion 1; subst. eauto.
  - intros (p1 & p2 & -> & H1 & H2). by constructor.
Qed.

Lemma den_atom_inv a bol p rest :
  den ic (Atom a) bol p rest ↔
  ∃ c, p = String c "" ∧ atom_matches ic a c = true.
Proof.
  split.
  - inversion 1; subst. eauto.
  - intros (c & -> & H). by constructor.
Qed.

Lemma den_set_inv items bol p rest :
  den ic (Set_ items) bol p rest ↔
  ∃ c, p = String c ""
       ∧ existsb (λ a, atom_matches ic a c) items = true.
Proof.
  split.
  - inversion 1; subst. eauto.
  - intros (c & -> & H). by constructor.
Qed.

Lemma den_eps_inv bol p rest : den ic Eps bol p rest ↔ p = "".
Proof. split; [by inversion 1|intros ->; constructor]. Qed.

Lemma den_caret_inv bol p rest :
  den ic Caret bol p rest ↔ p = "" ∧ bol = true.
Proof. split; [by inversion 1|intros [-> ->]; constructor]. Qed.

Lemma den_dollar_inv bol p rest :
  den ic Dollar bol p rest ↔ p = "" ∧ is_newline_or_end rest = true.
Proof. split; [by inversion 1|intros [-> ?]; by constructor]. Qed.

Lemma den_alt_inv r1 r2 bol p rest :
  den ic (Alt r1 r2) bol p rest ↔
  den ic r1 bol p rest ∨ den ic r2 bol p rest.
Proof.
  split.
  - inversion 1; subst; eauto.
  - intros [H|H]; [by apply den_alt_l|by apply den_alt_r].
Qed.

Lemma den_star_inv r bol p rest :
  den ic (Star r) bol p rest ↔
  p = ""
  ∨ ∃ p1 p2, p = p1 +:+ p2 ∧ den ic r bol p1 (p2 +:+ rest)
             ∧ den ic (Star r) (bol && is_empty p1) p2 rest.
Proof.
  split.
  - inversion 1; subst; eauto 10.
  - intros [->|(p1 & p2 & -> & H1 & H2)]; by constructor.
Qed.

Lemma match_from_eps bol s : match_from ic bol Eps s = true.
Proof. by destruct s. Qed.

Lemma match_from_seq_caret r s :
  match_from ic true (Seq Caret r) s = match_from ic true r s.
Proof.
  apply bool_eq_of_iff. rewrite !match_from_den. split.
  - intros (p & rest & -> & Hd). apply den_seq_inv in Hd
      as (p1 & p2 & -> & [-> _]%den_caret_inv & H2).
    exists p2, rest. split; [done|]. exact H2.
  - intros (p & rest & -> & Hd). exists p, rest. split; [done|].
    apply (den_seq ic Caret r true "" p rest); [constructor|done].
Qed.

Lemma match_from_seq_eps r bol s :
  match_from ic bol (Seq Eps r) s = match_from ic bol r s.
Proof.
  apply bool_eq_of_iff. rewrite !match_from_den. split.
  - intros (p & rest & -> & Hd). apply den_seq_inv in Hd
      as (p1 & p2 & -> & ->%den_eps_inv & H2).
    exists p2, rest. split; [done|]. cbn [is_empty] in H2.
    by rewrite andb_true_r in H2.
  - intros (p & rest & -> & Hd). exists p, rest. split; [done|].
    apply (den_seq ic Eps r bol "" p rest); [constructor|].
    cbn [is_empty]. by rewrite andb_true_r.
Qed.

Lemma match_from_seq_assoc r1 r2 r3 bol s :
  match_from ic bol (Seq (Seq r1 r2) r3) s
  = match_from ic bol (Seq r1 (Seq r2 r3)) s.
Proof.
  apply bool_eq_of_iff. rewrite !match_from_den. split.
  - intros (p & rest & -> & Hd).
    apply den_seq_inv in Hd as (p12 & p3 & -> & H12 & H3).
    apply den_seq_inv in H12 as (p1 & p2 & -> & H1 & H2).
    exists (p1 +:+ (p2 +:+ p3)), rest. split; [by rewrite !sapp_assoc|].
    constructor; [by rewrite !sapp_assoc|]. constructor; [done|].
    by rewrite is_empty_app, andb_assoc in H3.
  - intros (p & rest & -> & Hd).
    apply den_seq_inv in Hd as (p1 & p23 & -> & H1 & H23).
    apply den_seq_inv in H23 as (p2 & p3 & -> & H2 & H3).
    exists ((p1 +:+ p2) +:+ p3), rest. split; [by rewrite !sapp_assoc|].
    constructor; [|by rewrite is_empty_app, andb_assoc].
    constructor; [by rewrite <- !sapp_assoc|done].
Qed.

Lemma match_from_seq_alt r1 r2 r bol s :
  match_from ic bol (Seq (Alt r1 r2) r) s
  = match_from ic bol (Seq r1 r) s || match_from ic bol (Seq r2 r) s.
Proof.
  apply bool_eq_of_iff. rewrite orb_true_iff, !match_from_den. split.
  - intros (p & rest & -> & Hd).
    apply den_seq_inv in Hd as (p1 & p2 & -> & [H1|H1]%den_alt_inv & H2);
      [left|right]; exists (p1 +:+ p2), rest; (split; [done|]);
      by constructor.
  - intros [(p & rest & -> & Hd)|(p & rest & -> & Hd)];
      apply den_seq_inv in Hd as (p1 & p2 & -> & H1 & H2);
      exists (p1 +:+ p2), rest; (split; [done|]); constructor;
      try done; [by apply den_alt_l|by apply den_alt_r].
Qed.

Lemma match_from_seq_dollar r bol s :
  match_from ic bol (Seq Dollar r) s
  = is_newline_or_end s && match_from ic bol r s.
Proof.
  apply bool_eq_of_iff. rewrite andb_true_iff, !match_from_den. split.
  - intros (p & rest & -> & Hd). apply den_seq_inv in Hd
      as (p1 & p2 & -> & [-> Hend]%den_dollar_inv & H2).
    rewrite sapp_nil_l. split; [done|]. exists p2, rest.
    split; [done|]. cbn [is_empty] in H2. by rewrite andb_true_r in H2.
  - intros [Hend (p & rest & -> & Hd)]. exists p, rest. split; [done|].
    apply (den_seq ic Dollar r bol "" p rest); [by constructor|].
    cbn [is_empty]. by rewrite andb_true_r.
Qed.

(** One character first: an item or a bracketed class. *)
Lemma match_from_seq_char (f : ascii → bool) r0 r bol s :
  (∀ b p rest, den ic r0 b p rest ↔ ∃ c, p = String c "" ∧ f c = true) →
  match_from ic bol (Seq r0 r) s
  = match s with
    | String c s' => f c && match_from ic false r s'
    | EmptyString => false
    end.
Proof.
  intros Hr0. apply bool_eq_of_iff. rewrite match_from_den. split.
  - intros (p & rest & -> & Hd). apply den_seq_inv in Hd
      as (p1 & p2 & -> & (c & -> & Hc)%Hr0 & H2).
    rewrite !sapp_cons, sapp_nil_l, Hc. cbn [andb is_empty] in *.
    rewrite andb_false_r in H2. apply match_from_den. by exists p2, rest.
  - destruct s as [|c s]; [done|].
    intros [Hc (p & rest & -> & Hd)%match_from_den]%andb_true_iff.
    exists (String c p), rest. split; [done|].
    apply (den_seq ic r0 r bol (String c "") p rest).
    + apply Hr0. by exists c.
    + cbn [is_empty]. by rewrite andb_false_r.
Qed.

Lemma match_from_seq_atom a r bol s :
  match_from ic bol (Seq (Atom a) r) s
  = match s with
    | String c s' => atom_matches ic a c && match_from ic false r s'
    | EmptyString => false
    end.
Proof. apply match_from_seq_char. intros. apply den_atom_inv. Qed.

Lemma match_from_seq_set items r bol s :
  match_from ic bol (Seq (Set_ items) r) s
  = match s with
    | String c s' =>
        existsb (λ a, atom_matches ic a c) items
        && match_from ic false r s'
    | EmptyString => false
    end.
Proof. apply match_from_seq_char. intros. apply den_set_inv. Qed.

(** A starred single character first. *)
Lemma match_from_seq_star_char (f : ascii → bool) r0 r bol s :
  (∀ b p rest, den ic r0 b p rest ↔ ∃ c, p = String c "" ∧ f c = true) →
  match_from ic bol (Seq (Star r0) r) s
  = match_from ic bol r s
    || match s with
       | String c s' => f c && match_from ic false (Seq (Star r0) r) s'
       | EmptyString => false
       end.
Proof.
  intros Hr0. apply bool_eq_of_iff.
  rewrite orb_true_iff, !match_from_den. split.
  - intros (p & rest & -> & Hd).
    apply den_seq_inv in Hd as (p1 & p2 & -> & H1 & H2).
    apply den_star_inv in H1
      as [->|(q1 & q2 & -> & (c & -> & Hc)%Hr0 & Hq2)].
    + left. exists p2, rest. split; [done|]. cbn [is_empty] in H2.
      by rewrite andb_true_r in H2.
    + right. rewrite !sapp_cons, !sapp_nil_l, Hc. cbn [andb].
      apply match_from_den. exists (q2 +:+ p2), rest.
      split; [by rewrite !sapp_assoc|].
      cbn [is_empty] in *. rewrite andb_false_r in *.
      constructor; [done|]. cbn [andb]. done.
  - intros [(p & rest & -> & Hd)|Hs].
    + exists p, rest. split; [done|].
      apply (den_seq ic (Star r0) r bol "" p rest); [constructor|].
      cbn [is_empty]. by rewrite andb_true_r.
    + destruct s as [|c s]; [done|].
      apply andb_true_iff in Hs
        as [Hc (p & rest & -> & Hd)%match_from_den].
      apply den_seq_inv in Hd as (p1 & p2 & -> & H1 & H2).
      exists (String c p1 +:+ p2), rest.
      split; [by rewrite !sapp_cons, !sapp_assoc|].
      constructor.
      * apply (den_star_more ic r0 bol (String c "") p1 (p2 +:+ rest)).
        -- apply Hr0. by exists c.
        -- cbn [is_empty]. by rewrite andb_false_r.
      * cbn [is_empty andb] in *. by rewrite andb_false_r.
Qed.

(** When what follows cannot start with such a character, the star
    takes them all. *)
Lemma match_from_seq_star_skip (f : ascii → bool) r0 r s :
  (∀ b p rest, den ic r0 b p rest ↔ ∃ c, p = String c "" ∧ f c = true) →
  (∀ c s', f c = true → match_from ic false r (String c s') = false) →
  match_from ic false (Seq (Star r0) r) s
  = match_from ic false r (Derived.skip_while f s).
Proof.
  intros Hr0 Hr. induction s as [|c s IH].
  - rewrite (match_from_seq_star_char f) by done. apply orb_false_r.
  - rewrite (match_from_seq_star_char f) by done.
    cbn [Derived.skip_while]. destruct (f c) eqn:Hc.
    + by rewrite Hr, IH.
    + apply orb_false_r.
Qed.

End MatcherEquations.

Section Patterns.
Import Re ReSem.
Implicit Types (r : regex) (s w : string) (c : ascii) (bol : bool).

Lemma den_atom_char ic a :
  ∀ b p rest, den ic (Atom a) b p rest ↔
              ∃ c, p = String c "" ∧ atom_matches ic a c = true.
Proof. intros. apply den_atom_inv. Qed.

(** A literal word first. *)
Lemma match_from_seq_str w : ∀ r bol s,
  match_from true bol (Seq (Str w) r) s
  = match Derived.strip_prefix_ci w s with
    | Some s' => match_from true (bol && is_empty w) r s'
    | None => false
    end.
Proof.
  induction w as [|a w IH]; intros r bol s; cbn [Str].
  - rewrite match_from_seq_eps. cbn [Derived.strip_prefix_ci is_empty].
    by rewrite andb_true_r.
  - rewrite match_from_seq_assoc, match_from_seq_atom.
    cbn [is_empty]. rewrite andb_false_r.
    destruct s as [|c s]; [done|]. cbn [Derived.strip_prefix_ci atom_matches].
    destruct (Ascii.eqb _ _); [|done]. cbn [andb]. rewrite IH.
    by destruct (Derived.strip_prefix_ci w s).
Qed.

(** One or more digits, then anything. *)
Lemma match_from_plus_end ic a bol s :
  match_from ic bol (Seq (Plus (Atom a)) Eps) s
  = match s with
    | String c _ => atom_matches ic a c
    | EmptyString => false
    end.
Proof.
  unfold Plus. rewrite match_from_seq_assoc, match_from_seq_atom.
  destruct s as [|c s]; [done|].
  rewrite (match_from_seq_star_char ic (atom_matches ic a))
    by apply den_atom_char.
  by rewrite match_from_eps, andb_true_r.
Qed.

Lemma match_word_then_digit w text :
  is_empty w = false →
  match_ (Cat [Caret; Str w; Plus (Atom ClsD)]) text true
  = Derived.word_then_digit w text.
Proof.
  intros Hw. unfold match_, Cat. cbn [foldr].
  rewrite match_from_seq_caret, match_from_seq_str.
  unfold Derived.word_then_digit.
  destruct (Derived.strip_prefix_ci w text) as [s|]; [|done].
  by rewrite match_from_plus_end.
Qed.

Lemma strip_prefix_ci_cons a w c s :
  Derived.strip_prefix_ci (String a w) (String c s)
  = if Ascii.eqb (Py.to_lower a) (Py.to_lower c)
    then Derived.strip_prefix_ci w s else None.
Proof. reflexivity. Qed.

Lemma strip_prefix_ci_app w1 w2 s :
  Derived.strip_prefix_ci (w1 +:+ w2) s
  = Derived.strip_prefix_ci w1 s ≫= Derived.strip_prefix_ci w2.
Proof.
  revert s. induction w1 as [|a w1 IH]; intros s.
  - rewrite sapp_nil_l. by destruct w2.
  - rewrite sapp_cons. destruct s as [|c s]; [done|].
    cbn [Derived.strip_prefix_ci]. by destruct (Ascii.eqb _ _).
Qed.

Lemma match_www text :
  match_ (Cat [Caret; Str "www"; Atom (Lit ".")]) text true
  = Derived.starts_with_ci "www." text.
Proof.
  unfold match_, Cat. cbn [foldr].
  rewrite match_from_seq_caret, match_from_seq_str.
  unfold Derived.starts_with_ci.
  change "www."%string with ("www" +:+ ".").
  rewrite strip_prefix_ci_app.
  destruct (Derived.strip_prefix_ci "www" text) as [s|]; [|done].
  rewrite match_from_seq_atom. cbn [mbind option_bind].
  destruct s as [|c s]; [done|].
  cbn [Derived.strip_prefix_ci atom_matches].
  rewrite match_from_eps, andb_true_r. by destruct (Ascii.eqb _ _).
Qed.

Lemma match_http text :
  match_ (Cat [Caret; Str "http"; Opt (Atom (Lit "s")); Str "://"])
    text true
  = Derived.starts_with_ci "http://" text
    || Derived.starts_with_ci "https://" text.
Proof.
  unfold match_, Cat, Opt. cbn [foldr].
  rewrite match_from_seq_caret, match_from_seq_str.
  unfold Derived.starts_with_ci.
  change "http://"%string with ("http" +:+ "://").
  change "https://"%string with ("http" +:+ "s://").
  rewrite !strip_prefix_ci_app.
  destruct (Derived.strip_prefix_ci "http" text) as [s|]; [|done].
  cbn [mbind option_bind].
  rewrite match_from_seq_alt, match_from_seq_eps, match_from_seq_atom.
  rewrite orb_comm. f_equal.
  - rewrite match_from_seq_str.
    destruct (Derived.strip_prefix_ci "://" s); [|done].
    apply match_from_eps.
  - destruct s as [|c s]; [done|].
    rewrite strip_prefix_ci_cons. cbn [atom_matches].
    destruct (Ascii.eqb _ _); [|done]. cbn [andb].
    rewrite match_from_seq_str.
    destruct (Derived.strip_prefix_ci "://" s); [|done].
    apply match_from_eps.
Qed.

(** One or more [f]-characters, a separator that is not one, one more
    [f]-character. *)
Lemma match_run_sep_run a (sep : ascii) text :
  atom_matches true a sep = false →
  (∀ c, atom_matches true (Lit sep) c = Ascii.eqb sep c) →
  match_ (Cat [Caret; Plus (Atom a); Atom (Lit sep); Plus (Atom a)])
    text true
  = Derived.run_sep_run (atom_matches true a) sep text.
Proof.
  intros Hsep Hlit. unfold match_, Cat, Plus. cbn [foldr].
  rewrite match_from_seq_caret, match_from_seq_assoc, match_from_seq_atom.
  unfold Derived.run_sep_run. destruct text as [|c text]; [done|].
  destruct (atom_matches true a c) eqn:Hc; [|reflexivity]. cbn [andb].
  cbn [Derived.skip_while]. rewrite Hc.
  rewrite (match_from_seq_star_skip true (atom_matches true a))
    by first [apply den_atom_char
             |intros c' s' Hc'; rewrite match_from_seq_atom, Hlit;
              destruct (Ascii.eqb_spec sep c') as [<-|]; [congruence|done]].
  rewrite match_from_seq_atom.
  destruct (Derived.skip_while _ text) as [|s rest]; [done|].
  rewrite Hlit. destruct (Ascii.eqb sep s); [|by destruct rest].
  cbn [andb].
  change (Seq (Seq (Atom a) (Star (Atom a))) Eps)
    with (Seq (Plus (Atom a)) Eps).
  by rewrite match_from_plus_end.
Qed.

Lemma number_like_set ic c :
  existsb (λ a, atom_matches ic a c)
    [ClsD; ClsS; Lit "."; Lit "-"; Lit "("; Lit ")"]
  = Derived.number_like c.
Proof.
  cbn [existsb]. unfold Derived.number_like.
  rewrite orb_false_r, !orb_assoc.
  destruct ic; [|done].
  rewrite (uncased_lit_caseless "."%char eq_refl eq_refl),
    (uncased_lit_caseless "-"%char eq_refl eq_refl),
    (uncased_lit_caseless "("%char eq_refl eq_refl),
    (uncased_lit_caseless ")"%char eq_refl eq_refl).
  done.
Qed.

Lemma newline_number_like c s :
  is_newline_or_end (String c s) = true →
  s = "" ∧ Derived.number_like c = true.
Proof.
  cbn [is_newline_or_end]. destruct s; [|done].
  intros ->%Ascii.eqb_eq. done.
Qed.

Lemma match_number_like_tail ic s :
  match_from ic false
    (Seq (Star (Set_ [ClsD; ClsS; Lit "."; Lit "-"; Lit "("; Lit ")"]))
         (Seq Dollar Eps)) s
  = Derived.all_chars Derived.number_like s.
Proof.
  induction s as [|c s IH].
  - rewrite (match_from_seq_star_char ic Derived.number_like).
    + by rewrite match_from_seq_dollar.
    + intros. rewrite den_set_inv.
      by setoid_rewrite number_like_set.
  - rewrite (match_from_seq_star_char ic Derived.number_like).
    + rewrite IH, match_from_seq_dollar, match_from_eps, andb_true_r.
      cbn [Derived.all_chars].
      destruct (is_newline_or_end (String c s)) eqn:Hend; [|done].
      apply newline_number_like in Hend as [-> ->]. done.
    + intros. rewrite den_set_inv.
      by setoid_rewrite number_like_set.
Qed.

Lemma match_numbers_only ic text :
  match_ App.numbers_only text ic
  = negb (String.eqb text "") && Derived.all_chars Derived.number_like text.
Proof.
  unfold match_, App.numbers_only, Cat, Plus. cbn [foldr].
  replace (match_from ic true) with (match_from ic true) by done.
  rewrite match_from_seq_caret, match_from_seq_assoc, match_from_seq_set.
  destruct text as [|c text]; [done|].
  rewrite number_like_set, match_number_like_tail. done.
Qed.

(** The eight patterns of [is_valid_heading], said without patterns. *)
Lemma non_heading_patterns_spec text :
  existsb (λ pattern, match_ pattern text true) Simple.non_heading_patterns
  = Derived.non_heading text.
Proof.
  unfold Simple.non_heading_patterns. cbn [existsb].
  change (Cat [Caret;
               Plus (Set_ [ClsD; ClsS; Lit "."; Lit "-"; Lit "("; Lit ")"]);
               Dollar]) with App.numbers_only.
  rewrite (match_run_sep_run ClsD ".") by
    first [done|apply (uncased_lit_caseless "." eq_refl eq_refl)].
  rewrite (match_run_sep_run ClsW "@") by
    first [done|apply (uncased_lit_caseless "@" eq_refl eq_refl)].
  rewrite !match_word_then_digit by done.
  rewrite match_www, match_http, match_numbers_only.
  unfold Derived.non_heading. cbn [atom_matches].
  rewrite orb_false_r, !orb_assoc. done.
Qed.

Lemma app_non_heading_patterns_spec text :
  Re.match_ App.numbers_only text false
  || existsb (λ pattern, match_ pattern text true) App.non_heading_patterns
  = Derived.non_heading text.
Proof.
  rewrite <- non_heading_patterns_spec.
  change Simple.non_heading_patterns
    with (App.non_heading_patterns ++ [App.numbers_only]).
  rewrite existsb_app. cbn [existsb].
  rewrite orb_false_r, numbers_only_ignorecase. apply orb_comm.
Qed.

End Patterns.

(** X18.  [is_valid_heading] without patterns: it accepts a text exactly
    when the text is 3 to 200 characters long and is none of: a version
    number at the start (digits, a dot, a digit); "Page", "Figure" or
    "Table", in any letter case, followed by one space and a digit; a
    text starting with "www.", "http://" or "https://" in any letter
    case; a mail address at the start (word characters, "@", a word
    character); a text made only of digits, white space and
    [. - ( )]. *)
Theorem X18_is_valid_heading_without_patterns (text : string) :
  Simple.is_valid_heading text
  = (3 <=? Py.len text) && (Py.len text <=? 200)
    && negb (Derived.non_heading text).
Proof.
  unfold Simple.is_valid_heading. rewrite non_heading_patterns_spec.
  destruct (Z.ltb_spec (Py.len text) 3), (Z.leb_spec 3 (Py.len text));
    try lia; cbn [orb andb]; try done.
  destruct (Z.ltb_spec 200 (Py.len text)),
    (Z.leb_spec (Py.len text) 200); try lia; cbn [orb andb]; try done.
  all: by destruct (Derived.non_heading text).
Qed.

(** X19.  [is_potential_heading] without patterns: it accepts a text
    exactly when the length of the text lies between
    [min_heading_length] and [max_heading_length], the text is none of
    the non-heading shapes of X18, and it ends in one of [. : ? !] or is
    upper-case or title-case. *)
Theorem X19_is_potential_heading_without_patterns
  (self : App.PDFOutlineExtractor) (text : string) (fs : Qc) (fl : Z) :
  App.is_potential_heading self text fs fl
  = (App.min_heading_length self <=? Py.len text)
    && (Py.len text <=? App.max_heading_length self)
    && negb (Derived.non_heading text)
    && Spec.punctuated_or_capitalised text.
Proof.
  unfold App.is_potential_heading, Spec.punctuated_or_capitalised.
  rewrite <- app_non_heading_patterns_spec.
  destruct (Z.ltb_spec (Py.len text) (App.min_heading_length self)),
    (Z.leb_spec (App.min_heading_length self) (Py.len text));
    try lia; cbn [orb andb]; try done.
  destruct (Z.ltb_spec (App.max_heading_length self) (Py.len text)),
    (Z.leb_spec (Py.len text) (App.max_heading_length self));
    try lia; cbn [orb andb]; try done.
  all: destruct (Re.match_ App.numbers_only text false); [done|].
  all: destruct (existsb _ App.non_heading_patterns); [done|].
  all: cbn [orb negb andb].
  all: by destruct (existsb _ App.heading_endings), (Py.isupper text),
    (Py.istitle text).
Qed.

(** ** The batch driver *)

Section OutputName.
Implicit Types (s p : string) (c : ascii).

Lemma after_last_no_slash s :
  Derived.no_slash s = true → Py.after_last "/" s = None.
Proof.
  unfold Derived.no_slash. induction s as [|c s IH]; [done|].
  cbn [Derived.all_chars Py.after_last].
  intros [Hc Hs]%andb_true_iff. rewrite IH by done.
  by destruct (Ascii.eqb c "/").
Qed.

Lemma after_last_is_no_slash s t :
  Py.after_last "/" s = Some t → Derived.no_slash t = true.
Proof.
  revert t. induction s as [|c s IH]; intros t; [done|].
  cbn [Py.after_last].
  destruct (Py.after_last "/" s) as [t'|] eqn:Hs.
  - intros [= <-]. by apply IH.
  - destruct (Ascii.eqb c "/"); [|done]. intros [= <-].
    clear IH. unfold Derived.no_slash.
    induction s as [|a s IHs]; [done|]. cbn [Py.after_last] in Hs.
    destruct (Py.after_last "/" s); [done|].
    destruct (Ascii.eqb a "/") eqn:Ha; [done|].
    cbn [Derived.all_chars]. rewrite Ha. by apply IHs.
Qed.

Lemma basename_no_slash p : Derived.no_slash (Py.basename p) = true.
Proof.
  unfold Py.basename.
  destruct (Py.after_last "/" p) as [t|] eqn:Hp; cbn [default from_option id].
  - by eapply after_last_is_no_slash.
  - unfold Derived.no_slash. induction p as [|a p IH]; [done|].
    cbn [Py.after_last] in Hp. destruct (Py.after_last "/" p); [done|].
    destruct (Ascii.eqb a "/") eqn:Ha; [done|].
    cbn [Derived.all_chars]. rewrite Ha. by apply IH.
Qed.

Lemma basename_fixed s : Derived.no_slash s = true → Py.basename s = s.
Proof.
  intros Hs. unfold Py.basename. by rewrite after_last_no_slash.
Qed.

Lemma substring_no_slash s (n : nat) :
  Derived.no_slash s = true →
  Derived.no_slash (String.substring 0 n s) = true.
Proof.
  unfold Derived.no_slash. revert n.
  induction s as [|c s IH]; intros n; [by destruct n|].
  cbn [Derived.all_chars]. intros [Hc Hs]%andb_true_iff.
  destruct n as [|n]; [done|]. cbn [String.substring Derived.all_chars].
  rewrite Hc. by apply IH.
Qed.

Lemma splitext_root_no_slash s :
  Derived.no_slash s = true → Derived.no_slash (Py.splitext_root s) = true.
Proof.
  intros Hs. unfold Py.splitext_root. cbv zeta.
  destruct (Py.before_last "." (Py.basename s)); [|done].
  destruct (Py.all_dots _); [done|]. by apply substring_no_slash.
Qed.

Lemma no_slash_app s1 s2 :
  Derived.no_slash (s1 +:+ s2)
  = Derived.no_slash s1 && Derived.no_slash s2.
Proof.
  unfold Derived.no_slash. induction s1 as [|c s1 IH]; [done|].
  rewrite sapp_cons. cbn [Derived.all_chars]. by rewrite IH, andb_assoc.
Qed.

Lemma after_last_slash_app p s :
  Derived.no_slash s = true →
  Py.after_last "/" (p +:+ String "/" s) = Some s.
Proof.
  intros Hs. induction p as [|a p IH].
  - rewrite sapp_nil_l. cbn [Py.after_last].
    by rewrite after_last_no_slash.
  - rewrite sapp_cons. cbn [Py.after_last]. by rewrite IH.
Qed.

Lemma last_char_split s c :
  Py.last_char s = Some c → ∃ s', s = s' +:+ String c "".
Proof.
  induction s as [|a s IH]; [done|]. cbn [Py.last_char].
  destruct s as [|b s].
  - intros [= <-]. by exists "".
  - intros (s' & Hs')%IH. exists (String a s'). by rewrite sapp_cons, <- Hs'.
Qed.

Lemma basename_join dir name :
  Derived.no_slash name = true → name ≠ "" →
  Py.basename (Batch.join dir name) = name.
Proof.
  intros Hn Hne. unfold Batch.join.
  destruct name as [|c name]; [done|].
  assert (Ascii.eqb c "/" = false) as Hc.
  { unfold Derived.no_slash in Hn. cbn [Derived.all_chars] in Hn.
    apply andb_true_iff in Hn as [Hc _]. by destruct (Ascii.eqb c "/"). }
  assert (match c with
          | "/"%char => String c name
          | _ => if String.eqb dir "" || Py.endswith dir "/"
                 then dir +:+ String c name
                 else dir +:+ "/" +:+ String c name
          end
          = if String.eqb dir "" || Py.endswith dir "/"
            then dir +:+ String c name
            else dir +:+ "/" +:+ String c name) as ->.
  { destruct c as [[] [] [] [] [] [] [] []]; try reflexivity.
    by cbn in Hc. }
  destruct (String.eqb_spec dir "") as [->|Hdir]; cbn [orb].
  - rewrite sapp_nil_l. by apply basename_fixed.
  - unfold Py.basename, Py.endswith.
    destruct (Py.last_char dir) as [l|] eqn:Hl.
    + destruct (Ascii.eqb_spec l "/") as [->|Hl'].
      * apply last_char_split in Hl as (d' & ->).
        rewrite sapp_assoc, sapp_cons, sapp_nil_l.
        by rewrite after_last_slash_app.
      * rewrite sapp_cons, sapp_nil_l. by rewrite after_last_slash_app.
    + rewrite sapp_cons, sapp_nil_l. by rewrite after_last_slash_app.
Qed.

End OutputName.

(** ** File names *)

Section FileNames.
Import PathSpec.
Implicit Types (s t u p : string) (c : ascii).

Lemma free_of_cons c a s :
  free_of c (String a s) = negb (Ascii.eqb a c) && free_of c s.
Proof. reflexivity. Qed.

Lemma free_of_app c s t :
  free_of c (s +:+ t) = free_of c s && free_of c t.
Proof.
  induction s as [|a s IH]; [done|].
  by rewrite sapp_cons, !free_of_cons, IH, andb_assoc.
Qed.

Lemma only_app c s t : only c (s +:+ t) = only c s && only c t.
Proof.
  unfold only. induction s as [|a s IH]; [done|].
  rewrite sapp_cons. cbn [Derived.all_chars]. by rewrite IH, andb_assoc.
Qed.

Lemma only_dots s : Py.all_dots s = only "." s.
Proof.
  unfold only. induction s as [|a s IH]; [done|].
  cbn [Py.all_dots Derived.all_chars]. rewrite IH.
  by rewrite (Ascii.eqb_sym a).
Qed.

Lemma after_last_None c s : Py.after_last c s = None → free_of c s = true.
Proof.
  induction s as [|a s IH]; [done|]. cbn [Py.after_last].
  destruct (Py.after_last c s); [done|].
  destruct (Ascii.eqb a c) eqn:Ha; [done|]. intros _.
  rewrite free_of_cons, Ha. by apply IH.
Qed.

Lemma after_last_Some c s t :
  Py.after_last c s = Some t →
  free_of c t = true ∧ ∃ u, s = u +:+ String c t.
Proof.
  revert t. induction s as [|a s IH]; intros t; [done|].
  cbn [Py.after_last].
  destruct (Py.after_last c s) as [t'|] eqn:Hs.
  - intros [= <-]. destruct (IH t' eq_refl) as (Hfree & u & ->).
    split; [done|]. by exists (String a u).
  - destruct (Ascii.eqb_spec a c) as [->|]; [|done]. intros [= <-].
    split; [by apply after_last_None|]. by exists "".
Qed.

Lemma before_last_None c s : Py.before_last c s = None → free_of c s = true.
Proof.
  induction s as [|a s IH]; [done|]. cbn [Py.before_last].
  destruct (Py.before_last c s); [done|].
  destruct (Ascii.eqb a c) eqn:Ha; [done|]. intros _.
  rewrite free_of_cons, Ha. by apply IH.
Qed.

Lemma before_last_Some c s t :
  Py.before_last c s = Some t →
  ∃ u, s = t +:+ String c u ∧ free_of c u = true.
Proof.
  revert t. induction s as [|a s IH]; intros t; [done|].
  cbn [Py.before_last].
  destruct (Py.before_last c s) as [t'|] eqn:Hs.
  - intros [= <-]. destruct (IH t' eq_refl) as (u & -> & Hfree).
    by exists u.
  - destruct (Ascii.eqb_spec a c) as [->|]; [|done]. intros [= <-].
    exists s. split; [done|]. by apply before_last_None.
Qed.

Lemma substring_prefix s t :
  String.substring 0 (String.length s) (s +:+ t) = s.
Proof.
  induction s as [|a s IH]; [by destruct t|].
  rewrite sapp_cons. cbn [String.length String.substring]. by rewrite IH.
Qed.

(** The model of [os.path.basename] gives the base name. *)
Lemma basename_is_basename p : is_basename p (Py.basename p).
Proof.
  unfold is_basename, Py.basename.
  destruct (Py.after_last "/" p) as [t|] eqn:Hp; cbn [default from_option id].
  - apply after_last_Some in Hp as (Hfree & u & ->).
    split; [done|]. right. by exists u.
  - split; [by apply after_last_None|by left].
Qed.

(** On a name without slash, the model of [os.path.splitext] strips the
    extension. *)
Lemma splitext_root_is_root s :
  free_of "/" s = true → is_root s (Py.splitext_root s).
Proof.
  intros Hs. unfold Py.splitext_root. cbv zeta.
  rewrite (basename_fixed s) by exact Hs.
  destruct (Py.before_last "." s) as [stem|] eqn:Hb.
  - apply before_last_Some in Hb as (ext & -> & Hext).
    destruct (Py.all_dots stem) eqn:Hdots; rewrite only_dots in Hdots.
    + right. split; [done|]. exists (stem +:+ "."), ext.
      split; [by rewrite sapp_assoc|]. split; [|done].
      by rewrite only_app, Hdots.
    + replace (String.length (stem +:+ String "." ext)
               - String.length (stem +:+ String "." ext)
               + String.length stem)%nat
        with (String.length stem) by lia.
      rewrite substring_prefix. left. by exists ext.
  - right. split; [done|]. exists "", s. split; [done|]. split; [done|].
    by apply before_last_None.
Qed.

Lemma splitext_root_basename_is_stem p :
  is_stem p (Py.splitext_root (Py.basename p)).
Proof.
  exists (Py.basename p). split; [apply basename_is_basename|].
  apply splitext_root_is_root, basename_no_slash.
Qed.

(** A string has one decomposition around the last occurrence of a
    character. *)
Lemma last_occurrence_unique c s1 u1 s2 u2 :
  s1 +:+ String c u1 = s2 +:+ String c u2 →
  free_of c u1 = true → free_of c u2 = true →
  s1 = s2 ∧ u1 = u2.
Proof.
  revert s2. induction s1 as [|a s1 IH]; intros s2 Heq H1 H2.
  - rewrite sapp_nil_l in Heq. destruct s2 as [|b s2].
    + rewrite sapp_nil_l in Heq. by injection Heq as <-.
    + rewrite sapp_cons in Heq. injection Heq as <- ->.
      rewrite free_of_app, free_of_cons, Ascii.eqb_refl in H1.
      by destruct (free_of c s2).
  - rewrite sapp_cons in Heq. destruct s2 as [|b s2].
    + rewrite sapp_nil_l in Heq. injection Heq as -> <-.
      rewrite free_of_app, free_of_cons, Ascii.eqb_refl in H2.
      by destruct (free_of c s1).
    + rewrite sapp_cons in Heq. injection Heq as <- Heq.
      destruct (IH s2 Heq H1 H2) as [-> ->]. done.
Qed.

Lemma is_basename_unique p b1 b2 :
  is_basename p b1 → is_basename p b2 → b1 = b2.
Proof.
  intros [H1 [->|[d1 ->]]] [H2 [E|[d2 E]]].
  - done.
  - rewrite E, free_of_app, free_of_cons, Ascii.eqb_refl in H1.
    by destruct (free_of "/" d2).
  - rewrite <- E, free_of_app, free_of_cons, Ascii.eqb_refl in H2.
    by destruct (free_of "/" d1).
  - by destruct (last_occurrence_unique _ _ _ _ _ E H1 H2).
Qed.

Lemma leading_dots root ext dots rest :
  root +:+ String "." ext = dots +:+ rest →
  only "." dots = true → free_of "." rest = true →
  only "." root = true.
Proof.
  revert root. induction dots as [|d dots IH]; intros root Heq Hd Hr.
  - rewrite sapp_nil_l in Heq. subst rest.
    rewrite free_of_app, free_of_cons, Ascii.eqb_refl in Hr.
    by destruct (free_of "." root).
  - destruct root as [|a root]; [done|].
    rewrite !sapp_cons in Heq. injection Heq as -> Heq.
    unfold only in *. cbn [Derived.all_chars] in *.
    apply andb_true_iff in Hd as [Ha Hd]. rewrite Ha. cbn [andb].
    by eapply IH.
Qed.

Lemma is_root_unique b r1 r2 : is_root b r1 → is_root b r2 → r1 = r2.
Proof.
  intros [(e1 & E1 & F1 & N1)|(-> & d1 & t1 & E1 & D1 & F1)]
         [(e2 & E2 & F2 & N2)|(-> & d2 & t2 & E2 & D2 & F2)].
  - rewrite E1 in E2. by destruct (last_occurrence_unique _ _ _ _ _ E2 F1 F2).
  - rewrite E1 in E2.
    by rewrite (leading_dots _ _ _ _ E2 D2 F2) in N1.
  - rewrite E2 in E1.
    by rewrite (leading_dots _ _ _ _ E1 D1 F1) in N2.
  - done.
Qed.

(** So the two descriptions determine the stem of a path. *)
Lemma is_stem_unique p s1 s2 : is_stem p s1 → is_stem p s2 → s1 = s2.
Proof.
  intros (b1 & B1 & R1) (b2 & B2 & R2).
  rewrite (is_basename_unique _ _ _ B1 B2) in R1.
  by eapply is_root_unique.
Qed.

End FileNames.

(** ** The title taken from the file name *)

(** C7.  When the hierarchy is not empty, the title of the result is the
    text of the first fragment, in the original order, that is on page 1,
    has the title-tier size and passes [is_potential_heading]; when no
    fragment qualifies it is the base name of the path with the
    extension stripped: what follows the last slash of the path, cut
    before its last dot unless only dots precede that dot. *)
Theorem C7_title_is_first_qualifying_fragment
  (self : App.PDFOutlineExtractor) (doc : Fitz.Document)
  (pdf_path : string) :
  let blocks := App.extract_text_blocks self doc in
  let fh := App.analyze_font_hierarchy self blocks in
  let title := Out.title (App.extract_outline self doc pdf_path) in
  fh ≠ ∅ →
  (∃ i block,
     blocks !! i = Some block
     ∧ Spec.qualifies_as_title self fh block
     ∧ (∀ j other, blocks !! j = Some other → (j < i)%nat →
                   ¬ Spec.qualifies_as_title self fh other)
     ∧ title = App.text block)
  ∨ ((∀ block, block ∈ blocks → ¬ Spec.qualifies_as_title self fh block)
     ∧ title = Py.splitext_root (Py.basename pdf_path)
     ∧ PathSpec.is_stem pdf_path title).
Proof.
  intros blocks fh title Hfh.
  assert (blocks ≠ []) as Hne.
  { intros Hnil. apply Hfh. subst fh. rewrite Hnil. apply analyze_empty. }
  destruct (analyze_nonempty self blocks Hne) as [t Ht]. fold fh in Ht.
  assert (∀ b, Spec.qualifies_as_title self fh b ↔ Spec.title_test self t b)
    as Hq.
  { intros b. unfold Spec.qualifies_as_title, Spec.title_test. rewrite Ht.
    split; intros (? & ? & ?); split_and!; congruence. }
  assert (title
          = let found := App.first_title self t blocks in
            if negb (String.eqb found "") then found
            else Py.splitext_root (Py.basename pdf_path)) as ->.
  { subst title. unfold App.extract_outline. fold blocks.
    destruct blocks as [|b bs] eqn:Hb; [done|]. cbv zeta. cbn [Out.title].
    fold fh. unfold App.extract_title. by rewrite Ht. }
  cbv zeta. rewrite first_title_find.
  destruct (list_find (Spec.title_test self t) blocks) as [[i b]|] eqn:Hfind.
  - apply list_find_Some in Hfind as (Hi & Hb & Hbefore).
    left. exists i, b. split_and!; [done|by apply Hq| |].
    + intros j other Hj Hlt. rewrite Hq. by eapply Hbefore.
    + destruct Hb as (_ & _ & Hg).
      apply is_potential_heading_nonempty in Hg.
      by destruct (String.eqb_spec (App.text b) "").
  - apply list_find_None in Hfind. rewrite Forall_forall in Hfind.
    right. split_and!; [|done|apply splitext_root_basename_is_stem].
    intros b Hb. rewrite Hq. by apply Hfind.
Qed.

Lemma C7_title_is_first_qualifying_fragment_witness :
  (App.analyze_font_hierarchy App.init
     (App.extract_text_blocks App.init Samples.synthetic) ≠ ∅
   ∧ Out.title (App.extract_outline App.init Samples.synthetic
                  "/app/input/doc.pdf") = "Doc Title")
  ∧ (App.analyze_font_hierarchy App.init
       (App.extract_text_blocks App.init MoreSamples.lower_case_only) ≠ ∅
     ∧ Out.title (App.extract_outline App.init MoreSamples.lower_case_only
                    "/app/input.d/annual.report.pdf") = "annual.report").
Proof.
  assert (∀ doc,
            App.analyze_font_hierarchy App.init
              (App.extract_text_blocks App.init doc) !! "title" ≠ None →
            App.analyze_font_hierarchy App.init
              (App.extract_text_blocks App.init doc) ≠ ∅) as Hfh.
  { intros doc Hsome Hnil. apply Hsome. rewrite Hnil. apply lookup_empty. }
  split.
  - assert (App.analyze_font_hierarchy App.init
              (App.extract_text_blocks App.init Samples.synthetic) ≠ ∅)
      as H by (apply Hfh; vm_compute; discriminate).
    split; [exact H|].
    destruct (C7_title_is_first_qualifying_fragment App.init
                Samples.synthetic "/app/input/doc.pdf" H)
      as [(i & b & Hi & _ & Hfirst & ->)|(Hnone & _)].
    + destruct i as [|i].
      * vm_compute in Hi. by injection Hi as <-.
      * exfalso. eapply (Hfirst 0%nat); [reflexivity|lia|].
        split_and!; vm_compute; try reflexivity.
        f_equal. by apply Qc_is_canon.
    + exfalso. eapply Hnone.
      * apply list_elem_of_here.
      * split_and!; vm_compute; try reflexivity.
        f_equal. by apply Qc_is_canon.
  - assert (App.analyze_font_hierarchy App.init
              (App.extract_text_blocks App.init MoreSamples.lower_case_only)
            ≠ ∅) as H by (apply Hfh; vm_compute; discriminate).
    split; [exact H|].
    destruct (C7_title_is_first_qualifying_fragment App.init
                MoreSamples.lower_case_only "/app/input.d/annual.report.pdf" H)
      as [(i & b & Hi & (_ & _ & Hgate) & _)|(_ & _ & Hstem)].
    + exfalso. destruct i as [|i]; [|by vm_compute in Hi].
      vm_compute in Hi. injection Hi as <-. by vm_compute in Hgate.
    + apply (is_stem_unique _ _ _ Hstem).
      exists "annual.report.pdf". split.
      * split; [reflexivity|]. right. by exists "/app/input.d".
      * left. by exists "pdf".
Defined.

(** X14.  The title of the function-based pipeline.  For a document
    with fragments, when the largest font size is not zero the title is
    the text of the first fragment on page 1 that has this size and
    passes [is_valid_heading]; when the largest size is zero, or no
    fragment qualifies, it is the base name of the path with the
    extension stripped: what follows the last slash of the path, cut
    before its last dot unless only dots precede that dot. *)
Theorem X14_function_pipeline_title
  (doc : Fitz.Document) (pdf_path : string) :
  let blocks := Derived.simple_text_blocks doc in
  let sizes := list_to_set (Simple.font_size <$> blocks) : gset Qc in
  let title := Out.title (Simple.extract_pdf_outline doc pdf_path) in
  blocks ≠ [] →
  ∃ largest, sorted_reverse sizes !! 0%nat = Some largest
  ∧ ((largest ≠ 0%Qc
      ∧ ∃ i block,
          blocks !! i = Some block
          ∧ Derived.simple_title_test largest block
          ∧ (∀ j other, blocks !! j = Some other → (j < i)%nat →
                        ¬ Derived.simple_title_test largest other)
          ∧ title = Simple.text block)
     ∨ ((largest = 0%Qc
         ∨ ∀ block, block ∈ blocks →
                    ¬ Derived.simple_title_test largest block)
        ∧ title = Py.splitext_root (Py.basename pdf_path)
        ∧ PathSpec.is_stem pdf_path title)).
Proof.
  intros blocks sizes title Hne.
  destruct doc as [pages|]; [|done].
  cbn [Derived.simple_text_blocks] in blocks.
  assert (∃ largest, assign_tiers (sorted_reverse sizes) !! "title"
                     = Some largest) as [largest Hl].
  { subst sizes blocks. rewrite text_blocks_simple, font_sizes_simple.
    apply (analyze_nonempty App.init).
    intros Hnil. apply Hne. by rewrite text_blocks_simple, Hnil. }
  exists largest.
  destruct (assign_tiers_lookup (sorted_reverse sizes)) as (Ht & _).
  split; [by rewrite <- Ht|].
  assert (title
          = let found := if bool_decide (largest ≠ 0%Qc)
                         then Simple.first_title largest blocks else "" in
            if String.eqb found ""
            then Py.splitext_root (Py.basename pdf_path) else found) as ->.
  { subst title. unfold Simple.extract_pdf_outline. fold blocks.
    fold sizes. rewrite Hl. clearbody sizes blocks.
    by destruct blocks. }
  cbv zeta. pose proof (splitext_root_basename_is_stem pdf_path) as Hstem.
  case_bool_decide as Hz; [|right; split_and!; [left|done|done]].
  2: { by destruct (decide (largest = 0%Qc)). }
  rewrite simple_first_title_find.
  destruct (list_find (Derived.simple_title_test largest) blocks)
    as [[i b]|] eqn:Hfind.
  - apply list_find_Some in Hfind as (Hi & Hb & Hbefore).
    left. split; [done|]. exists i, b. split_and!; [done..| |].
    + intros j other Hj Hlt. by eapply Hbefore.
    + destruct Hb as (_ & _ & Hg). apply is_valid_heading_nonempty in Hg.
      by destruct (String.eqb_spec (Simple.text b) "").
  - apply list_find_None in Hfind. rewrite Forall_forall in Hfind.
    right. split_and!; [|done|done]. right. exact Hfind.
Qed.

Lemma X14_function_pipeline_title_witness :
  Derived.simple_text_blocks Samples.zero_size ≠ []
  ∧ Out.title (Simple.extract_pdf_outline Samples.zero_size
                 "/app/input/report.v2.pdf") = "report.v2".
Proof.
  assert (Derived.simple_text_blocks Samples.zero_size ≠ []) as Hne
    by (vm_compute; discriminate).
  split; [exact Hne|].
  destruct (X14_function_pipeline_title Samples.zero_size
              "/app/input/report.v2.pdf" Hne) as (largest & Hl & Hcases).
  destruct Hcases as [(Hz & _)|(_ & _ & Hstem)].
  - exfalso. apply Hz. vm_compute in Hl. injection Hl as <-.
    by apply Qc_is_canon.
  - apply (is_stem_unique _ _ _ Hstem).
    exists "report.v2.pdf". split.
    + split; [reflexivity|]. right. by exists "/app/input".
    + left. by exists "pdf".
Defined.

(** ** The batch run *)

Section BatchNames.
Import Batch BatchSpec.
Implicit Types (s t p : string) (c : ascii).


Lemma last_char_app s t : t ≠ "" → Py.last_char (s +:+ t) = Py.last_char t.
Proof.
  intros Ht. induction s as [|a s IH]; [done|].
  rewrite sapp_cons. cbn [Py.last_char]. rewrite IH.
  destruct (s +:+ t) eqn:Hst; [|done].
  by apply sapp_eq_nil in Hst as [_ ?].
Qed.

(** [os.path.join] with a relative second argument. *)
Lemma join_relative dir name :
  PathSpec.free_of "/" name = true → name ≠ "" →
  join dir name
  = if String.eqb dir "" || Py.endswith dir "/" then dir +:+ name
    else dir +:+ "/" +:+ name.
Proof.
  intros Hn Hne. unfold join. destruct name as [|c name]; [done|].
  rewrite free_of_cons in Hn. apply andb_true_iff in Hn as [Hc _].
  destruct c as [[] [] [] [] [] [] [] []]; try reflexivity.
  by cbn in Hc.
Qed.

Lemma endswith_slash dir :
  Py.endswith dir "/" = true ↔ ∃ d, dir = d +:+ "/".
Proof.
  unfold Py.endswith. split.
  - destruct (Py.last_char dir) as [c|] eqn:Hl; [|done].
    intros ->%Ascii.eqb_eq. by apply last_char_split.
  - intros (d & ->). by rewrite last_char_app.
Qed.

Lemma join_joined dir name :
  PathSpec.free_of "/" name = true → name ≠ "" →
  joined dir name (join dir name).
Proof.
  intros Hn Hne. rewrite join_relative by done. unfold joined.
  destruct (String.eqb_spec dir "") as [->|Hdir]; cbn [orb]; [by left|].
  right. destruct (Py.endswith dir "/") eqn:Hend.
  - left. split; [|done]. by apply endswith_slash.
  - right. split_and!; [done| |done]. intros d Hd.
    assert (Py.endswith dir "/" = true) by (apply endswith_slash; by exists d).
    congruence.
Qed.























End BatchNames.

Section BatchRun.
Import Batch BatchSpec.
Variables input_dir output_dir : string.






End BatchRun.




(** X22.  The output file of [process_pdf_file] is named after the
    input: its base name is the stem of the PDF path (what follows the
    last slash of the path, cut before its last dot unless only dots
    precede that dot) followed by ".json"; it contains no slash, so the
    file lies directly in [output_dir]: its path is [output_dir] and the
    name with one slash between them, unless [output_dir] is empty or
    ends in a slash already; so it is [output_dir/<stem>.json] when
    [output_dir] is not empty and does not end in a slash. *)
Theorem X22_output_file_name (pdf_path output_dir : string) :
  ∃ stem,
    PathSpec.is_stem pdf_path stem
    ∧ Py.basename (Batch.output_path pdf_path output_dir)
      = stem +:+ ".json"
    ∧ PathSpec.free_of "/" (stem +:+ ".json") = true
    ∧ BatchSpec.joined output_dir (stem +:+ ".json")
        (Batch.output_path pdf_path output_dir)
    ∧ (output_dir ≠ "" → Py.endswith output_dir "/" = false →
       Batch.output_path pdf_path output_dir
       = output_dir +:+ "/" +:+ stem +:+ ".json").
Proof.
  exists (Py.splitext_root (Py.basename pdf_path)).
  set (stem := Py.splitext_root (Py.basename pdf_path)).
  split; [apply splitext_root_basename_is_stem|].
  assert (Derived.no_slash (stem +:+ ".json") = true) as Hns.
  { rewrite no_slash_app. apply andb_true_iff. split; [|done].
    apply splitext_root_no_slash, basename_no_slash. }
  assert (stem +:+ ".json" ≠ "") as Hne.
  { intros [_ ?]%sapp_eq_nil. done. }
  split_and!; [by apply basename_join|done|by apply join_joined|].
  intros Hdir Hend. unfold Batch.output_path. cbv zeta. fold stem.
  unfold Batch.join. destruct (stem +:+ ".json") as [|c name] eqn:Hs;
    [done|].
  assert (Ascii.eqb c "/" = false) as Hc.
  { unfold Derived.no_slash in Hns. cbn [Derived.all_chars] in Hns.
    apply andb_true_iff in Hns as [Hc _]. by destruct (Ascii.eqb c "/"). }
  rewrite Hend, (proj2 (String.eqb_neq _ _) Hdir). cbn [orb].
  destruct c as [[] [] [] [] [] [] [] []]; try reflexivity. by cbn in Hc.
Qed.

(** * Agreement of the two pipelines *)

Section Agree.
Import Agreement.

Lemma potential_iff text (fs : Qc) (fl : Z) :
  App.is_potential_heading App.init text fs fl = true ↔
  Simple.is_valid_heading text = true
  ∧ Spec.punctuated_or_capitalised text = true.
Proof.
  rewrite is_potential_heading_is_valid_heading. apply andb_true_iff.
Qed.

Lemma filter_all {A} (p : A → bool) (l : list A) :
  List.filter p l = l ↔ ∀ x, x ∈ l → p x = true.
Proof.
  induction l as [|a l IH]; cbn [List.filter].
  - split; [|done]. by intros _ x ?%elem_of_nil.
  - destruct (p a) eqn:Ha.
    + split.
      * intros [= Hl] x [->|Hx]%elem_of_cons; [done|]. by apply IH.
      * intros Hall. f_equal. apply IH. intros x Hx. apply Hall. by right.
    + split.
      * intros Heq. exfalso.
        pose proof (List.filter_length_le p l) as Hlen.
        rewrite Heq in Hlen. cbn [length] in Hlen. lia.
      * intros Hall. rewrite Hall in Ha; [done|by left].
Qed.

(** The converse of [elem_of_simple_headings_loop]. *)
Lemma simple_headings_loop_elem_of fh blocks b level :
  b ∈ blocks → Simple.is_valid_heading (Simple.text b) = true →
  heading_level (Simple.font_size b) fh = Some level →
  {| Out.level := level; Out.text := Simple.text b;
     Out.page := Simple.page b |} ∈ Simple.headings_loop fh blocks [].
Proof.
  intros Hb Hv Hl. induction blocks as [|a rest IH].
  - by apply elem_of_nil in Hb.
  - rewrite simple_headings_loop_cons. apply elem_of_app.
    apply elem_of_cons in Hb as [<-|Hb]; [left|right; by apply IH].
    rewrite Hv, Hl. by left.
Qed.

(** The two results, spelled out for a document with fragments. *)
Lemma app_result pages pdf_path (t : Qc) :
  let blocks := App.extract_text_blocks App.init (Some pages) in
  let fh := App.analyze_font_hierarchy App.init blocks in
  fh !! "title" = Some t →
  App.extract_outline App.init (Some pages) pdf_path
  = {| Out.title :=
         (let found := App.first_title App.init t blocks in
          if negb (String.eqb found "") then found
          else Py.splitext_root (Py.basename pdf_path));
       Out.outline :=
         remove_duplicates (App.extract_headings App.init blocks fh) |}.
Proof.
  intros blocks fh Ht. unfold App.extract_outline. fold blocks.
  subst fh. clearbody blocks. destruct blocks as [|b bs].
  { by rewrite analyze_empty in Ht. }
  cbv zeta. unfold App.extract_title. by rewrite Ht.
Qed.

Lemma simple_result pages pdf_path (t : Qc) :
  let blocks := App.extract_text_blocks App.init (Some pages) in
  let fh := App.analyze_font_hierarchy App.init blocks in
  fh !! "title" = Some t →
  Simple.extract_pdf_outline (Some pages) pdf_path
  = {| Out.title :=
         (let found := if bool_decide (t ≠ 0%Qc)
                       then Simple.first_title t (Spec.to_simple <$> blocks)
                       else "" in
          if String.eqb found ""
          then Py.splitext_root (Py.basename pdf_path) else found);
       Out.outline :=
         remove_duplicates
           (Simple.headings_loop fh (Spec.to_simple <$> blocks) []) |}.
Proof.
  intros blocks fh Ht. unfold Simple.extract_pdf_outline.
  rewrite text_blocks_simple. fold blocks. subst fh. clearbody blocks.
  destruct blocks as [|b bs].
  { by rewrite analyze_empty in Ht. }
  set (blocks := b :: bs) in *.
  change (Spec.to_simple <$> blocks)
    with (Spec.to_simple b :: (Spec.to_simple <$> bs)) at 1.
  cbv zeta. rewrite font_sizes_simple.
  unfold App.analyze_font_hierarchy in *. cbv zeta in *.
  by rewrite Ht.
Qed.

(** The title loops. *)
Lemma first_title_agree (t : Qc) blocks :
  Simple.first_title t (Spec.to_simple <$> blocks)
  = App.first_title App.init t blocks ↔
  ∀ b, first_such (title_candidate t) blocks b →
       Spec.punctuated_or_capitalised (App.text b) = true.
Proof.
  induction blocks as [|a rest IH].
  - split; [|done]. intros _ b (i & Hi & _). by destruct i.
  - rewrite fmap_cons. cbn [Simple.first_title App.first_title].
    cbn [Spec.to_simple Simple.font_size Simple.page Simple.text].
    rewrite is_potential_heading_is_valid_heading.
    destruct (decide (title_candidate t a)) as [Hc|Hc].
    + destruct Hc as (Hs & Hp & Hv).
      rewrite (bool_decide_eq_true_2 _ Hs), (proj2 (Z.eqb_eq _ _) Hp), Hv.
      cbn [andb].
      destruct (Spec.punctuated_or_capitalised (App.text a)) eqn:Hpunct.
      * split; [|done]. intros _ b (i & Hi & Hb & Hfirst).
        destruct i as [|i]; [by injection Hi as <-|].
        exfalso. by apply (Hfirst 0%nat a); [|lia|].
      * split.
        -- intros Heq. exfalso.
           rewrite first_title_find in Heq.
           destruct (list_find _ rest) as [[i g]|] eqn:Hfind.
           ++ apply list_find_Some in Hfind as (_ & (_ & _ & Hg) & _).
              apply potential_iff in Hg as [_ Hg]. congruence.
           ++ by apply is_valid_heading_nonempty in Hv.
        -- intros Hall. rewrite Hall in Hpunct; [done|].
           exists 0%nat. split_and!; [done|done|]. intros j y _ Hj. lia.
    + assert (bool_decide (App.font_size a = t) && (App.page a =? 1)
              && Simple.is_valid_heading (App.text a) = false) as Hno.
      { case_bool_decide as Hs; [|done].
        destruct (Z.eqb_spec (App.page a) 1) as [Hp|]; [|done].
        destruct (Simple.is_valid_heading (App.text a)) eqn:Hv; [|done].
        by destruct Hc. }
      rewrite Hno.
      rewrite andb_assoc, Hno. cbn [andb]. rewrite IH. split.
      * intros Hall b (i & Hi & Hb & Hfirst).
        destruct i as [|i]; [injection Hi as <-; by destruct Hc|].
        apply Hall. exists i. split_and!; [done|done|].
        intros j y Hj Hlt. apply (Hfirst (S j) y); [done|lia].
      * intros Hall b (i & Hi & Hb & Hfirst). apply Hall.
        exists (S i). split_and!; [done|done|].
        intros [|j] y Hj Hlt; [by injection Hj as <-|].
        apply (Hfirst j y); [done|lia].
Qed.

Lemma first_title_empty (t : Qc) blocks :
  App.first_title App.init t blocks = "" ↔
  ∀ b, b ∈ blocks → ¬ Spec.title_test App.init t b.
Proof.
  rewrite first_title_find.
  destruct (list_find _ blocks) as [[i g]|] eqn:Hfind.
  - apply list_find_Some in Hfind as (Hi & Hg & _). split.
    + intros Hnil. destruct Hg as (_ & _ & Hg).
      by apply is_potential_heading_nonempty in Hg.
    + intros Hall. exfalso. apply (Hall g); [|done].
      by eapply list_elem_of_lookup_2.
  - apply list_find_None in Hfind. rewrite Forall_forall in Hfind. done.
Qed.

(** The outlines agree exactly when the fragments at the heading tiers
    that [is_valid_heading] accepts have the ending or the capitals. *)
Lemma outlines_agree (blocks : list App.TextBlock) :
  let fh := App.analyze_font_hierarchy App.init blocks in
  remove_duplicates (App.extract_headings App.init blocks fh)
  = remove_duplicates
      (Simple.headings_loop fh (Spec.to_simple <$> blocks) []) ↔
  ∀ block, block ∈ blocks → at_heading_tier fh block →
           Simple.is_valid_heading (App.text block) = true →
           Spec.punctuated_or_capitalised (App.text block) = true.
Proof.
  intros fh. rewrite headings_filter_simple, remove_duplicates_filter.
  rewrite filter_all. split.
  - intros Hall b Hb (level & Hlevel & Hlook) Hv.
    apply (Hall {| Out.level := level; Out.text := App.text b;
                   Out.page := App.page b |}).
    rewrite remove_duplicates_elem_of.
    apply (simple_headings_loop_elem_of fh _ (Spec.to_simple b) level).
    + apply list_elem_of_fmap. by exists b.
    + done.
    + by apply (heading_level_analyzed App.init).
  - intros Hall h Hh. rewrite remove_duplicates_elem_of in Hh.
    apply elem_of_simple_headings_loop
      in Hh as (sb & Hsb & Hv & Hlevel & Htext & _).
    apply list_elem_of_fmap in Hsb as (b & -> & Hb).
    rewrite Htext. apply Hall; [done| |done].
    exists (Out.level h). by apply (heading_level_analyzed App.init).
Qed.

Lemma stem_of_empty_path : Py.splitext_root (Py.basename "") = "".
Proof. reflexivity. Qed.

(** The titles agree for every path exactly when the two title loops
    find the same text. *)
Lemma titles_agree (found_a found_s : string) :
  (∀ pdf_path,
     (if negb (String.eqb found_a "") then found_a
      else Py.splitext_root (Py.basename pdf_path))
     = (if String.eqb found_s ""
        then Py.splitext_root (Py.basename pdf_path) else found_s)) ↔
  found_a = found_s.
Proof.
  split.
  - intros Hall. specialize (Hall ""). rewrite stem_of_empty_path in Hall.
    destruct (String.eqb_spec found_a ""), (String.eqb_spec found_s "");
      cbn [negb] in Hall; congruence.
  - intros -> pdf_path. by destruct (String.eqb found_s "").
Qed.

End Agree.

(** C1 (amended).  The class-based gate accepts a text exactly when the
    function-based gate accepts it and the text ends in one of [. : ? !]
    or is upper-case or title-case.  On a document,
    [PDFOutlineExtractor().extract_outline] and [extract_pdf_outline]
    return the same result for every path exactly when this extra rule
    makes no difference where the gate decides something: every fragment
    at the H1, H2 or H3 size that [is_valid_heading] accepts has such an
    ending or such capitals; when the title size is not zero, so has
    the first fragment on page 1 at the title size that
    [is_valid_heading] accepts; and when the title size is zero, no
    fragment on page 1 at that size passes [is_potential_heading]. *)
Theorem C1_pipelines_agree_when_gates_agree (doc : Fitz.Document) :
  ((∀ pdf_path,
      App.extract_outline App.init doc pdf_path
      = Simple.extract_pdf_outline doc pdf_path)
   ↔ Agreement.gates_agree_on_tiers doc)
  ∧ (∀ text (fs : Qc) (fl : Z),
       App.is_potential_heading App.init text fs fl
       = Simple.is_valid_heading text
         && Spec.punctuated_or_capitalised text).
Proof.
  split; [|apply is_potential_heading_is_valid_heading].
  unfold Agreement.gates_agree_on_tiers. cbv zeta.
  destruct doc as [pages|].
  2: { split; [|done]. intros _. split.
       - by intros b ?%elem_of_nil.
       - intros t Ht. by rewrite analyze_empty in Ht. }
  set (blocks := App.extract_text_blocks App.init (Some pages)).
  set (fh := App.analyze_font_hierarchy App.init blocks).
  destruct (decide (blocks = [])) as [Hnil|Hne].
  { split.
    - intros _. rewrite Hnil. split.
      + by intros b ?%elem_of_nil.
      + intros t Ht. subst fh. by rewrite Hnil, analyze_empty in Ht.
    - intros _ pdf_path.
      unfold App.extract_outline, Simple.extract_pdf_outline.
      rewrite text_blocks_simple. fold blocks. by rewrite Hnil. }
  destruct (analyze_nonempty App.init blocks Hne) as [t Ht]. fold fh in Ht.
  assert ((∀ pdf_path,
             App.extract_outline App.init (Some pages) pdf_path
             = Simple.extract_pdf_outline (Some pages) pdf_path)
          ↔ (if bool_decide (t ≠ 0%Qc)
             then App.first_title App.init t blocks
                  = Simple.first_title t (Spec.to_simple <$> blocks)
             else App.first_title App.init t blocks = "")
            ∧ remove_duplicates (App.extract_headings App.init blocks fh)
              = remove_duplicates
                  (Simple.headings_loop fh (Spec.to_simple <$> blocks) []))
    as ->.
  { split.
    - intros Hall. split.
      + assert (∀ pdf_path,
                  (if negb (String.eqb (App.first_title App.init t blocks) "")
                   then App.first_title App.init t blocks
                   else Py.splitext_root (Py.basename pdf_path))
                  = (let found :=
                       if bool_decide (t ≠ 0%Qc)
                       then Simple.first_title t (Spec.to_simple <$> blocks)
                       else "" in
                     if String.eqb found ""
                     then Py.splitext_root (Py.basename pdf_path)
                     else found)) as Htitle.
        { intros pdf_path. specialize (Hall pdf_path).
          rewrite (app_result pages pdf_path t Ht) in Hall.
          rewrite (simple_result pages pdf_path t Ht) in Hall.
          by injection Hall as Htitle _. }
        cbv zeta in Htitle.
        destruct (bool_decide (t ≠ 0%Qc)); by apply titles_agree in Htitle.
      + specialize (Hall "").
        rewrite (app_result pages "" t Ht) in Hall.
        rewrite (simple_result pages "" t Ht) in Hall.
        by injection Hall as _ Houtline.
    - intros [Htitle Houtline] pdf_path.
      rewrite (app_result pages pdf_path t Ht).
      rewrite (simple_result pages pdf_path t Ht).
      fold blocks fh. rewrite Houtline. f_equal. cbv zeta.
      destruct (bool_decide (t ≠ 0%Qc)).
      + by apply titles_agree.
      + by apply (titles_agree _ ""). }
  subst fh. rewrite outlines_agree. split.
  - intros [Htitle Houtline]. split; [done|].
    intros t' Ht'. rewrite Ht in Ht'. injection Ht' as <-.
    case_bool_decide as Hz.
    + split; [|done]. intros _. by apply first_title_agree.
    + split; [done|]. intros _. by apply first_title_empty.
  - intros [Houtline Htitle]. split; [|done].
    destruct (Htitle t Ht) as [Hnz Hz].
    case_bool_decide as Hzero.
    + symmetry. by apply first_title_agree, Hnz.
    + apply first_title_empty, Hz. by destruct (decide (t = 0%Qc)).
Qed.

Lemma C1_pipelines_agree_when_gates_agree_witness :
  Agreement.gates_agree_on_tiers MoreSamples.five_sizes
  ∧ App.extract_outline App.init MoreSamples.five_sizes
      "/app/input/doc.pdf"
    = Simple.extract_pdf_outline MoreSamples.five_sizes
        "/app/input/doc.pdf"
  ∧ ¬ Agreement.gates_agree_on_tiers Samples.lower_case_heading.
Proof.
  assert (Agreement.gates_agree_on_tiers MoreSamples.five_sizes) as Hcond.
  { split.
    - intros b Hb (level & Hlevel & Hlook) _.
      vm_compute in Hb.
      repeat (apply elem_of_cons in Hb as [->|Hb];
              [try (vm_compute; reflexivity)|]).
      + exfalso.
        repeat (apply elem_of_cons in Hlevel as [->|Hlevel];
                [vm_compute in Hlook; by injection Hlook|]).
        by apply elem_of_nil in Hlevel.
      + by apply elem_of_nil in Hb.
    - intros t Ht. vm_compute in Ht. injection Ht as <-. split.
      + intros _ b (i & Hi & (Hsize & _) & _).
        apply list_elem_of_lookup_2 in Hi. vm_compute in Hi.
        repeat (apply elem_of_cons in Hi as [->|Hi];
                [try (vm_compute; reflexivity)|]).
        * exfalso. vm_compute in Hsize. by injection Hsize.
        * by apply elem_of_nil in Hi.
      + intros Hz. exfalso. by injection Hz. }
  split; [exact Hcond|]. split.
  - exact (proj2 (proj1 (C1_pipelines_agree_when_gates_agree
                           MoreSamples.five_sizes)) Hcond
             "/app/input/doc.pdf").
  - intros Hbad.
    pose proof (proj2 (proj1 (C1_pipelines_agree_when_gates_agree
                                Samples.lower_case_heading)) Hbad
                  "/app/input/report.pdf") as Heq.
    vm_compute in Heq. by injection Heq.
Defined.
